(** * feed-worker: a shallow embedding of [src/index.ts]

    Definitions come first and follow the source function by function;
    the properties come after them.

    - [Js]        : the loosely typed values the XML parser hands to the
                    normalizer ([any] in the source), with JavaScript's
                    truthiness, [String(...)] and [??].
    - [FeedItem], [Subscription] : the two interfaces of the source.
    - [Truthy]    : truthiness of the optional watermark fields.
    - [Diff]      : [diffItems] as a function on item lists.
    - [Normalize] : [pickText], [pickLink], [parseDate], [ensureArray],
                    [normalizeRssItem], [normalizeAtomEntry], [parseFeed].
    - [DiffMem]   : [diffItems] again, over a store of arrays, to track
                    which array each step reads, allocates or sorts in place.
    - [Kv]        : the key-value namespace, with the log of its writes.
    - [Index]     : [subscriptionKey], [guildIndexKey],
                    [getSubscriptionsForGuild], [addToIndex],
                    [removeFromIndex], [listSubscriptionsByGuild],
                    [listAllKeys].
    - [JsString]  : [trim], [replace(/\s+/g, " ")], [slice].
    - [Cycle]     : [formatDiscordMessage], [normalizeFeedTitle],
                    [sendDiscordMessage], [processSubscription],
                    [runFeedChecks].
    - [Sample], [Stated] : sample data, and readings of the specification
                    that the code is compared with.
    - [Hex], [Embeds], [Handlers], [Gateway] : [hexToBytes],
                    [buildListEmbeds], the command handlers, and [fetch]
                    with [verifyDiscordRequest].
    - [Worker]    : the functions that read the namespace, with the reads
                    that the runtime rejects.

    Timestamps are the integral milliseconds that [Date.parse] returns.
    The namespace is read and written one operation after the other, each
    seeing the writes before it. *)

From stdpp Require Import gmap strings list sorting fin_maps pretty.
From Stdlib Require Import ZArith Lia.

Set Warnings "-register-all".

Local Open Scope string_scope.
Local Open Scope Z_scope.

(** ** Loosely typed values

    The XML parser returns a tree of strings, numbers, booleans, arrays and
    objects, which the source types as [any].  The normalizer only ever
    asks a number for its [String(...)] rendering and its truthiness, so a
    number is carried by that rendering (["0"] for both zeros, ["NaN"]). *)

Module Js.
Inductive value : Type :=
| Undefined
| Null
| Str (s : string)
| Num (rendering : string)
| Bool (b : bool)
| Arr (elems : list value)
| Obj (fields : list (string * value)).

(** [Boolean(v)] *)
Definition truthy (v : value) : bool :=
  match v with
  | Undefined | Null => false
  | Str s => negb (String.eqb s "")
  | Num r => negb (String.eqb r "0") && negb (String.eqb r "NaN")
  | Bool b => b
  | Arr _ | Obj _ => true
  end.

(** [v == null] *)
Definition nullish (v : value) : bool :=
  match v with
  | Undefined | Null => true
  | _ => false
  end.

(** [a ?? b] *)
Definition coalesce (a b : value) : value := if nullish a then b else a.

Fixpoint lookup_field (k : string) (fields : list (string * value)) : option value :=
  match fields with
  | [] => None
  | (k', v) :: rest => if String.eqb k k' then Some v else lookup_field k rest
  end.

(** [v.k] (and [v?.k]): a property the parser did not produce reads as
    [undefined], on objects and on primitives alike.  (Of the properties
    the source reads, strings have one of their own, [link], a function;
    [pickLink] answers [undefined] for it as it does for [undefined].) *)
Definition get (k : string) (v : value) : value :=
  match v with
  | Obj fields => default Undefined (lookup_field k fields)
  | _ => Undefined
  end.

(** [k in v], asked of values for which [typeof v === "object"]. *)
Definition has (k : string) (v : value) : bool :=
  match v with
  | Obj fields => bool_decide (is_Some (lookup_field k fields))
  | _ => false
  end.

(** [String(v)] *)
Fixpoint to_String (v : value) : string :=
  match v with
  | Undefined => "undefined"
  | Null => "null"
  | Str s => s
  | Num r => r
  | Bool true => "true"
  | Bool false => "false"
  | Obj _ => "[object Object]"
  | Arr elems =>
      (fix join (l : list value) : string :=
         match l with
         | [] => ""
         | x :: rest =>
             let sx := match x with
                       | Undefined | Null => ""
                       | _ => to_String x
                       end in
             match rest with
             | [] => sx
             | _ :: _ => sx +:+ "," +:+ join rest
             end
         end) elems
  end.
End Js.

(** ** The [FeedItem] interface *)

Module FeedItem.
Record t : Type := mk {
  id : string;
  title : string;
  link : option string;
  date : option Z;
  summary : option string
}.

#[global] Instance eq_dec : EqDecision t.
Proof. solve_decision. Defined.
End FeedItem.

(** ** JavaScript truthiness of the optional watermark fields *)

Module Truthy.
(** [!!s] for [s : string | undefined]: the empty string is falsy. *)
Definition str (s : option string) : bool :=
  match s with
  | Some s => negb (String.eqb s "")
  | None => false
  end.

(** [!!n] for [n : number | undefined] where the number is an integral
    timestamp: zero is falsy. *)
Definition num (n : option Z) : bool :=
  match n with
  | Some n => negb (n =? 0)
  | None => false
  end.

End Truthy.

(** ** [diffItems] *)

Module Diff.
Import FeedItem.

(** [a.date ?? 0], the key the comparator of the source subtracts. *)
Definition date_key (it : FeedItem.t) : Z := default 0 (date it).

(** [typeof item.date === "number"] *)
Definition has_date (it : FeedItem.t) : bool :=
  match date it with Some _ => true | None => false end.

(** [Array.prototype.sort] is stable and, for a comparator that is a
    total preorder, returns the one stable sorted arrangement.  The
    comparator [(a, b) => (a.date ?? 0) - (b.date ?? 0)] orders by
    [date_key]; we compute that arrangement by stable insertion. *)
Fixpoint insert_by_date (x : FeedItem.t) (l : list FeedItem.t) : list FeedItem.t :=
  match l with
  | [] => [x]
  | y :: r =>
      if date_key x <=? date_key y then x :: y :: r
      else y :: insert_by_date x r
  end.

Definition sort_by_date (l : list FeedItem.t) : list FeedItem.t :=
  foldr insert_by_date [] l.

(** The order the comparator stands for. *)
Definition by_date (a b : FeedItem.t) : Prop := date_key a ≤ date_key b.

(** The ordering step:
    [withDate ? [...items].sort(cmp) : [...items]]. *)
Definition ordering (items : list FeedItem.t) : list FeedItem.t :=
  if existsb has_date items then sort_by_date items else items.

Record result : Type := mk_result {
  newItems : list FeedItem.t;
  latestItem : option FeedItem.t
}.

(** [item.date && item.date > lastDate], as a decidable predicate. *)
Definition newer_than (lastDate : Z) (it : FeedItem.t) : Prop :=
  match date it with
  | Some d => d ≠ 0 ∧ lastDate < d
  | None => False
  end.

#[global] Instance newer_than_dec d it : Decision (newer_than d it).
Proof. unfold newer_than. destruct (date it); apply _. Defined.

(** [sorted.findIndex((item) => item.id === lastId)]; [None] is [-1]. *)
Definition findIndex (lastId : string) (sorted : list FeedItem.t) : option nat :=
  fst <$> list_find (λ it, id it = lastId) sorted.

Definition diffItems (items : list FeedItem.t)
    (lastId : option string) (lastDate : option Z) : result :=
  match items with
  | [] => {| newItems := []; latestItem := None |}
  | _ :: _ =>
      let sorted := ordering items in
      let latest := last sorted in
      if negb (Truthy.str lastId) && negb (Truthy.num lastDate)
      then {| newItems := []; latestItem := latest |}
      else
        let newItems1 :=
          match lastId with
          | Some lid =>
              if Truthy.str lastId then
                match findIndex lid sorted with
                | Some index => drop (S index) sorted
                | None => []
                end
              else []
          | None => []
          end in
        let newItems2 :=
          match lastDate with
          | Some d =>
              if (length newItems1 =? 0)%nat && Truthy.num lastDate
              then filter (newer_than d) sorted
              else newItems1
          | None => newItems1
          end in
        let newItems3 :=
          match latest with
          | Some l =>
              if (length newItems2 =? 0)%nat && bool_decide (Some (id l) ≠ lastId)
              then [l]
              else newItems2
          | None => newItems2
          end in
        {| newItems := newItems3; latestItem := latest |}
  end.
End Diff.

(** ** Normalizing parsed feed documents *)

Module Normalize.
Import Js.

Inductive format : Type := rss | atom | rdf | unknown.

Record ParsedFeed : Type := mk_feed {
  items : list FeedItem.t;
  feed_format : format;
  feed_title : option string
}.

(** [pickText] *)
Definition pickText (v : value) : option string :=
  match v with
  | Undefined | Null => None
  | Str _ | Num _ => Some (to_String v)
  | Arr _ | Obj _ =>
      if has "#text" v then Some (to_String (get "#text" v))
      else if has "text" v then Some (to_String (get "text" v))
      else None
  | Bool _ => None
  end.

(** [link?.rel === "alternate"] *)
Definition rel_is_alternate (l : value) : bool :=
  match get "rel" l with
  | Str r => String.eqb r "alternate"
  | _ => false
  end.

(** [pickLink].  It is declared to return [string | undefined]; in the
    object case it returns whatever the first defined of [href], [url],
    ["@_href"], ["#text"] holds, a string or not. *)
Fixpoint pickLink (v : value) : value :=
  match v with
  | Undefined | Null => Undefined
  | Str _ => v
  | Arr elems =>
      (* value.find((link) => link?.rel === "alternate") ?? value[0] *)
      let found :=
        (fix find (l : list value) : option value :=
           match l with
           | [] => None
           | x :: rest =>
               if rel_is_alternate x then Some (pickLink x) else find rest
           end) elems in
      match found with
      | Some r => r
      | None =>
          match elems with
          | [] => Undefined
          | x :: _ => pickLink x
          end
      end
  | Obj _ =>
      coalesce (get "href" v)
        (coalesce (get "url" v)
           (coalesce (get "@_href" v) (get "#text" v)))
  | Num _ | Bool _ => Undefined
  end.

(** The object a normalizer builds.  [item_link] is what [pickLink]
    returned, [undefined] when there is none; [item_id] is a string or,
    without a guid, that link. *)
Record Item : Type := mk_item {
  item_id : value;
  item_title : string;
  item_link : value;
  item_date : option Z;
  item_summary : option string
}.

(** [pickText(guid) ?? link ?? title] *)
Definition pick_id (guid : option string) (link : value) (title : string)
    : value :=
  match guid with
  | Some text => Str text
  | None => coalesce link (Str title)
  end.

(** [as FeedItem[]] in [parseFeed]: the objects are handed on at the
    type [FeedItem], whose [id] and [link] are strings.  An object whose
    link is not a string lies outside that type; it is read here with
    the text of its id and without a link. *)
Definition as_FeedItem (it : Item) : FeedItem.t :=
  {| FeedItem.id := to_String (item_id it);
     FeedItem.title := item_title it;
     FeedItem.link := match item_link it with
                      | Str s => Some s
                      | _ => None
                      end;
     FeedItem.date := item_date it;
     FeedItem.summary := item_summary it |}.

(** [ensureArray] *)
Definition ensureArray (v : value) : list value :=
  if negb (truthy v) then []
  else match v with
       | Arr elems => elems
       | _ => [v]
       end.

Section WithHost.
(** [Date.parse]: [None] stands for [NaN]. *)
Variable Date_parse : string → option Z.

(** [parseDate] *)
Definition parseDate (v : value) : option Z :=
  match pickText v with
  | None => None
  | Some text => if String.eqb text "" then None else Date_parse text
  end.

(** [normalizeRssItem] *)
Definition normalizeRssItem (item : value) : option Item :=
  if negb (truthy item) then None
  else
    let title := default "(no title)" (pickText (get "title" item)) in
    let link := pickLink (get "link" item) in
    let id := pick_id (pickText (get "guid" item)) link title in
    let date :=
      parseDate
        (coalesce (get "pubDate" item)
           (coalesce (get "date" item)
              (coalesce (get "published" item) (get "updated" item)))) in
    Some {| item_id := id;
            item_title := title;
            item_link := link;
            item_date := date;
            item_summary := pickText (get "description" item) |}.

(** [normalizeAtomEntry] *)
Definition normalizeAtomEntry (entry : value) : option Item :=
  if negb (truthy entry) then None
  else
    let title := default "(no title)" (pickText (get "title" entry)) in
    let link := pickLink (get "link" entry) in
    let id := pick_id (pickText (get "id" entry)) link title in
    let date :=
      parseDate (coalesce (get "updated" entry) (get "published" entry)) in
    Some {| item_id := id;
            item_title := title;
            item_link := link;
            item_date := date;
            item_summary :=
              pickText (coalesce (get "summary" entry) (get "content" entry)) |}.

(** [parseFeed], after [xmlParser.parse] has returned [parsed]. *)
Definition parseFeed_of (parsed : value) : ParsedFeed :=
  if truthy (get "channel" (get "rss" parsed)) then
    let channel := get "channel" (get "rss" parsed) in
    {| items := as_FeedItem
                  <$> omap normalizeRssItem (ensureArray (get "item" channel));
       feed_format := rss;
       feed_title := pickText (get "title" channel) |}
  else if truthy (get "feed" parsed) then
    let entries := ensureArray (get "entry" (get "feed" parsed)) in
    {| items := as_FeedItem <$> omap normalizeAtomEntry entries;
       feed_format := atom;
       feed_title := pickText (get "title" (get "feed" parsed)) |}
  else if truthy (get "rdf:RDF" parsed) then
    {| items := as_FeedItem
                  <$> omap normalizeRssItem
                        (ensureArray (get "item" (get "rdf:RDF" parsed)));
       feed_format := rdf;
       feed_title := pickText (get "title" (get "rdf:RDF" parsed)) |}
  else {| items := []; feed_format := unknown; feed_title := None |}.
End WithHost.
End Normalize.

(** ** [diffItems] over a store of arrays

    [diffItems] is given a reference to an array.  Spreading allocates,
    [sort] works in place on the array it is called on, [slice] and
    [filter] allocate.  This second embedding keeps the arrays in a store
    so that one can say which ones a call touches. *)

Module DiffMem.
Import FeedItem.

Abbreviation heap := (gmap nat (list FeedItem.t)).

Record result : Type := mk_result {
  newItems : nat;
  latestItem : option FeedItem.t
}.

(** The elements of the array at [r]. *)
Definition read (r : nat) (h : heap) : list FeedItem.t := default [] (h !! r).

(** A new array ([[...xs]], [slice], [filter] or an array literal). *)
Definition alloc (xs : list FeedItem.t) (h : heap) : nat * heap :=
  let r := fresh (dom h) in (r, <[r := xs]> h).

(** [arr.sort(cmp)] rearranges [arr] itself and returns it. *)
Definition sort_in_place (r : nat) (h : heap) : nat * heap :=
  (r, <[r := Diff.sort_by_date (read r h)]> h).

(** [h'] has every array of [h], with the elements it had in [h]. *)
Definition extends (h h' : heap) : Prop :=
  ∀ r ys, h !! r = Some ys → h' !! r = Some ys.

Definition diffItems (items : nat) (lastId : option string)
    (lastDate : option Z) (h : heap) : result * heap :=
  if (length (read items h) =? 0)%nat then
    let '(empty, h) := alloc [] h in
    ({| newItems := empty; latestItem := None |}, h)
  else
    let withDate := existsb Diff.has_date (read items h) in
    let '(copy, h) := alloc (read items h) h in
    let '(sorted, h) := if withDate then sort_in_place copy h else (copy, h) in
    let latest := last (read sorted h) in
    if negb (Truthy.str lastId) && negb (Truthy.num lastDate) then
      let '(empty, h) := alloc [] h in
      ({| newItems := empty; latestItem := latest |}, h)
    else
      let '(newItems0, h) := alloc [] h in
      let '(newItems1, h) :=
        match lastId with
        | Some lid =>
            if Truthy.str lastId then
              match Diff.findIndex lid (read sorted h) with
              | Some index => alloc (drop (S index) (read sorted h)) h
              | None => (newItems0, h)
              end
            else (newItems0, h)
        | None => (newItems0, h)
        end in
      let '(newItems2, h) :=
        match lastDate with
        | Some d =>
            if (length (read newItems1 h) =? 0)%nat && Truthy.num lastDate
            then alloc (filter (Diff.newer_than d) (read sorted h)) h
            else (newItems1, h)
        | None => (newItems1, h)
        end in
      let '(newItems3, h) :=
        match latest with
        | Some l =>
            if (length (read newItems2 h) =? 0)%nat
               && bool_decide (Some (id l) ≠ lastId)
            then alloc [l] h
            else (newItems2, h)
        | None => (newItems2, h)
        end in
      ({| newItems := newItems3; latestItem := latest |}, h).
End DiffMem.

(** ** The [Subscription] interface *)

Module Subscription.
Record t : Type := mk {
  id : string;
  guildId : string;
  channelId : string;
  url : string;
  createdAt : Z;
  lastItemId : option string;
  lastItemDate : option Z;
  feedTitle : option string;
  errorCount : option Z;
  lastError : option string
}.

#[global] Instance eq_dec : EqDecision t.
Proof. solve_decision. Defined.

Definition set_feedTitle (v : option string) (s : t) : t :=
  mk (id s) (guildId s) (channelId s) (url s) (createdAt s)
     (lastItemId s) (lastItemDate s) v (errorCount s) (lastError s).

Definition set_watermark (i : option string) (d : option Z) (s : t) : t :=
  mk (id s) (guildId s) (channelId s) (url s) (createdAt s)
     i d (feedTitle s) (errorCount s) (lastError s).

Definition set_error (c : option Z) (e : option string) (s : t) : t :=
  mk (id s) (guildId s) (channelId s) (url s) (createdAt s)
     (lastItemId s) (lastItemDate s) (feedTitle s) c e.
End Subscription.

(** ** The key-value namespace *)

Module Kv.
(** What a key of the namespace holds.  The source writes
    [JSON.stringify] of a subscription or of an array of ids; [Corrupt]
    is a stored text that is not JSON. *)
Inductive stored : Type :=
| Corrupt
| JSub (s : Subscription.t)
| JIds (ids : list string).

#[global] Instance stored_eq_dec : EqDecision stored.
Proof. solve_decision. Defined.

(** The namespace, and the log of the [put]s it has received. *)
Record t : Type := mk {
  data : gmap string stored;
  writes : list (string * stored)
}.

Definition put (k : string) (v : stored) (kv : t) : t :=
  {| data := <[k := v]> (data kv); writes := writes kv ++ [(k, v)] |}.

(** The subscription a key holds, if it holds one: what
    [get<Subscription>(key, "json")] answers where the stored text is
    JSON.  On a text that is not JSON the read is rejected;
    [Worker.get_sub] is the read with that outcome, and this function
    reads such a text as absent, as the specification words it.  A value
    of another type than the read asks for lies outside the type
    argument of [get<T>] and reads as absent. *)
Definition get_sub (kv : t) (k : string) : option Subscription.t :=
  match data kv !! k with
  | Some (JSub s) => Some s
  | _ => None
  end.

(** The ids a key holds, if it holds a list of them: what
    [get<string[]>(key, "json")] answers where the stored text is JSON;
    see [get_sub], and [Worker.get_ids] for the read that is
    rejected. *)
Definition get_ids (kv : t) (k : string) : option (list string) :=
  match data kv !! k with
  | Some (JIds ids) => Some ids
  | _ => None
  end.

Definition has_prefix (prefix k : string) : Prop := String.prefix prefix k = true.

#[global] Instance has_prefix_dec p k : Decision (has_prefix p k).
Proof. unfold has_prefix. apply _. Defined.

(** The keys that start with [prefix], in lexicographic order of their
    bytes, as the namespace lists them. *)
Definition keys_with_prefix (kv : t) (prefix : string) : list string :=
  merge_sort String.le (filter (has_prefix prefix) (elements (dom (data kv)))).

(** One page of [list({ prefix, cursor })].  A page holds at most
    [page_limit] keys; the cursor of an incomplete listing is the
    position at which the next page starts. *)
Definition page_limit : nat := 1000.

Record list_response : Type := mk_response {
  keys : list string;
  list_complete : bool;
  cursor : option nat
}.

Definition list_page (kv : t) (prefix : string) (cur : option nat) : list_response :=
  let rest := drop (default 0%nat cur) (keys_with_prefix kv prefix) in
  let complete := (length rest <=? page_limit)%nat in
  {| keys := take page_limit rest;
     list_complete := complete;
     cursor := if complete then None
               else Some (default 0%nat cur + page_limit)%nat |}.
End Kv.

(** ** The guild index

    The functions of the source as they run while no read is rejected.
    [Worker] has them with the reads that are rejected, and returns
    what these return whenever it returns. *)

Module Index.
Import Kv.

(** [subscriptionKey] *)
Definition subscriptionKey (guildId subId : string) : string :=
  "sub:g:" +:+ guildId +:+ ":" +:+ subId.

(** [guildIndexKey] *)
Definition guildIndexKey (guildId : string) : string :=
  "subindex:g:" +:+ guildId.

(** The [do ... while (cursor)] loop of [listAllKeys].  Every turn but
    the last moves the cursor forward by a full page, so a budget of one
    turn per key and one more is never used up. *)
Fixpoint listAllKeys_loop (turns : nat) (kv : Kv.t) (prefix : string)
    (cur : option nat) (acc : list string) : list string :=
  match turns with
  | O => acc
  | S turns =>
      let response := Kv.list_page kv prefix cur in
      let acc := (acc ++ keys response)%list in
      let cur := if list_complete response then None else cursor response in
      match cur with
      | Some _ => listAllKeys_loop turns kv prefix cur acc
      | None => acc
      end
  end.

(** [listAllKeys] *)
Definition listAllKeys (kv : Kv.t) (prefix : string) : list string :=
  listAllKeys_loop (S (length (keys_with_prefix kv prefix))) kv prefix None [].

(** [listSubscriptionsByGuild] *)
Definition listSubscriptionsByGuild (kv : Kv.t) (guildId : string)
    : list Subscription.t :=
  let keys := listAllKeys kv ("sub:g:" +:+ guildId +:+ ":") in
  omap (get_sub kv) keys.

(** [getSubscriptionsForGuild] *)
Definition getSubscriptionsForGuild (kv : Kv.t) (guildId : string)
    : list Subscription.t * Kv.t :=
  let indexKey := guildIndexKey guildId in
  match get_ids kv indexKey with
  | Some ((_ :: _) as index) =>
      let valid := omap (λ id, get_sub kv (subscriptionKey guildId id)) index in
      if bool_decide (length valid ≠ length index)
      then (valid, put indexKey (JIds (Subscription.id <$> valid)) kv)
      else (valid, kv)
  | _ =>
      let fallback := listSubscriptionsByGuild kv guildId in
      if bool_decide (0 < length fallback)%nat
      then (fallback, put indexKey (JIds (Subscription.id <$> fallback)) kv)
      else (fallback, kv)
  end.

(** [addToIndex] *)
Definition addToIndex (kv : Kv.t) (guildId subId : string) : Kv.t :=
  let indexKey := guildIndexKey guildId in
  let index := default [] (get_ids kv indexKey) in
  if bool_decide (subId ∉ index)
  then put indexKey (JIds (index ++ [subId])%list) kv
  else kv.

(** [removeFromIndex] *)
Definition removeFromIndex (kv : Kv.t) (guildId subId : string) : Kv.t :=
  let indexKey := guildIndexKey guildId in
  let index := default [] (get_ids kv indexKey) in
  let next := filter (λ id, id ≠ subId) index in
  if bool_decide (length next ≠ length index)
  then put indexKey (JIds next) kv
  else kv.

(** The ids a reader finds in the index record of a guild. *)
Definition index_ids (kv : Kv.t) (guildId : string) : list string :=
  default [] (get_ids kv (guildIndexKey guildId)).
End Index.

(** ** Strings of the outgoing messages and titles

    A character of a Rocq string stands for the code unit of the same
    number, which covers the code units below 256. *)

Module JsString.
(** White space and line terminators below 256: tab, line feed, vertical
    tab, form feed, carriage return, space, no-break space. *)
Definition is_space (c : Ascii.ascii) : bool :=
  let n := Ascii.N_of_ascii c in
  ((9 <=? n) && (n <=? 13) || (n =? 32) || (n =? 160))%N.

Fixpoint trimStart (s : string) : string :=
  match s with
  | String c rest => if is_space c then trimStart rest else s
  | EmptyString => EmptyString
  end.

(** [s.trim()] *)
Definition trim (s : string) : string :=
  String.rev (trimStart (String.rev (trimStart s))).

(** [s.replace(/\s+/g, " ")]; [in_run] says that the previous code unit
    was white space. *)
Fixpoint collapse_spaces (in_run : bool) (s : string) : string :=
  match s with
  | EmptyString => EmptyString
  | String c rest =>
      if is_space c then
        if in_run then collapse_spaces true rest
        else String (Ascii.ascii_of_N 32) (collapse_spaces true rest)
      else String c (collapse_spaces false rest)
  end.

(** [s.slice(0, n)] *)
Definition slice0 (n : nat) (s : string) : string := String.substring 0 n s.

Definition newline : string := String (Ascii.ascii_of_N 10) EmptyString.
End JsString.

(** ** The scheduled cycle *)

Module Cycle.
Import JsString Normalize.

(** What a [catch] clause receives: an [Error] with its message, or some
    other thrown value. *)
Inductive thrown : Type :=
| Error (message : string)
| NotAnError.

(** An HTTP response, as far as the source looks at it. *)
Record Response : Type := mk_response {
  status : N;
  text : string
}.

(** [response.ok] *)
Definition ok (r : Response) : bool :=
  ((200 <=? status r) && (status r <=? 299))%N.

(** The services the worker calls: the network, with a state [world] of
    its own that every request may change, the XML parser and
    [Date.parse].  A request either is rejected or yields a response. *)
Class Host : Type := {
  world : Type;
  fetch_feed : string → world → (thrown + Response) * world;
  post_message : string → string → world → (thrown + Response) * world;
  xml_parse : string → thrown + Js.value;
  Date_parse : string → option Z
}.

(** [formatDiscordMessage] *)
Definition formatDiscordMessage (item : FeedItem.t) : string :=
  let title :=
    if Truthy.str (Some (FeedItem.title item)) then trim (FeedItem.title item)
    else "(no title)" in
  let link :=
    if Truthy.str (FeedItem.link item)
    then trim (default "" (FeedItem.link item))
    else "" in
  let base :=
    if Truthy.str (Some link) then title +:+ newline +:+ link else title in
  if (1900 <? String.length base)%nat then slice0 1897 base +:+ "..."
  else base.

(** [normalizeFeedTitle] *)
Definition normalizeFeedTitle (value : option string) : option string :=
  if negb (Truthy.str value) then None
  else
    let trimmed := trim (collapse_spaces false (default "" value)) in
    if negb (Truthy.str (Some trimmed)) then None
    else if (200 <? String.length trimmed)%nat
         then Some (slice0 197 trimmed +:+ "...")
         else Some trimmed.

(** Computations that may throw, over a state [S]. *)
Definition M (S A : Type) : Type := S → (thrown + A) * S.

#[global] Instance M_ret {S} : MRet (M S) := λ A a s, (inr a, s).

#[global] Instance M_bind {S} : MBind (M S) := λ A B f m s,
  match m s with
  | (inl e, s') => (inl e, s')
  | (inr a, s') => f a s'
  end.

Definition throw {S A} (e : thrown) : M S A := λ s, (inl e, s).

Section WithHost.
Context `{host : Host}.

(** The state of the cycle. *)
Record state : Type := mk_state {
  kv : Kv.t;
  net : world
}.

(** The state of one [processSubscription] call: the subscription
    object it was handed, which it assigns to, and the cycle state. *)
Record proc : Type := mk_proc {
  subscription : Subscription.t;
  env : state
}.

Definition the_subscription : M proc Subscription.t :=
  λ p, (inr (subscription p), p).

Definition assign (f : Subscription.t → Subscription.t) : M proc unit :=
  λ p, (inr tt, {| subscription := f (subscription p); env := env p |}).

(** [fetch(subscription.url, ...)] followed by the body text. *)
Definition fetch (url : string) : M proc Response :=
  λ p, let '(r, w) := fetch_feed url (net (env p)) in
       (r, {| subscription := subscription p;
              env := {| kv := kv (env p); net := w |} |}).

Definition post (channelId content : string) : M proc Response :=
  λ p, let '(r, w) := post_message channelId content (net (env p)) in
       (r, {| subscription := subscription p;
              env := {| kv := kv (env p); net := w |} |}).

(** [env.FEED_KV.put(subscriptionKey(subscription.guildId,
    subscription.id), JSON.stringify(subscription))] *)
Definition persist : M proc unit :=
  λ p, let sub := subscription p in
       (inr tt,
        {| subscription := sub;
           env := {| kv := Kv.put (Index.subscriptionKey
                                     (Subscription.guildId sub)
                                     (Subscription.id sub))
                                  (Kv.JSub sub) (kv (env p));
                     net := net (env p) |} |}).

(** [parseFeed] *)
Definition parseFeed (xml : string) : thrown + ParsedFeed :=
  match xml_parse xml with
  | inl e => inl e
  | inr parsed => inr (parseFeed_of Date_parse parsed)
  end.

(** [sendDiscordMessage] *)
Definition sendDiscordMessage (channelId content : string) : M proc unit :=
  response ← post channelId content;
  if negb (ok response)
  then throw (Error ("Discord post failed (" +:+ pretty (status response)
                       +:+ "): " +:+ text response))
  else mret tt.

(** [for (const item of newItems) { ... }] *)
Fixpoint send_each (channelId : string) (newItems : list FeedItem.t)
    : M proc unit :=
  match newItems with
  | [] => mret tt
  | item :: rest =>
      _ ← sendDiscordMessage channelId (formatDiscordMessage item);
      send_each channelId rest
  end.

(** [processSubscription] *)
Definition processSubscription : M proc unit :=
  sub ← the_subscription;
  response ← fetch (Subscription.url sub);
  if negb (ok response)
  then throw (Error ("Feed fetch failed (" +:+ pretty (status response) +:+ ")"))
  else
    match parseFeed (text response) with
    | inl e => throw e
    | inr feed =>
        match feed_format feed with
        | unknown => throw (Error "Unsupported feed format")
        | _ =>
            let normalizedTitle := normalizeFeedTitle (feed_title feed) in
            let titleChanged :=
              Truthy.str normalizedTitle
              && bool_decide (normalizedTitle ≠ Subscription.feedTitle sub) in
            _ ← (if titleChanged
                 then assign (Subscription.set_feedTitle normalizedTitle)
                 else mret tt);
            if (length (items feed) =? 0)%nat then
              if titleChanged then persist else mret tt
            else
              let d := Diff.diffItems (items feed)
                         (Subscription.lastItemId sub)
                         (Subscription.lastItemDate sub) in
              if (length (Diff.newItems d) =? 0)%nat then
                _ ← match Diff.latestItem d with
                    | Some latestItem =>
                        if bool_decide (Some (FeedItem.id latestItem)
                                        ≠ Subscription.lastItemId sub)
                        then assign (Subscription.set_watermark
                                       (Some (FeedItem.id latestItem))
                                       (FeedItem.date latestItem))
                        else mret tt
                    | None => mret tt
                    end;
                if bool_decide (is_Some (Diff.latestItem d)) || titleChanged
                then persist
                else mret tt
              else
                _ ← send_each (Subscription.channelId sub) (Diff.newItems d);
                match last (Diff.newItems d) with
                | Some lastPosted =>
                    _ ← assign (Subscription.set_watermark
                                  (Some (FeedItem.id lastPosted))
                                  (FeedItem.date lastPosted));
                    _ ← assign (Subscription.set_error (Some 0) None);
                    persist
                | None =>
                    throw (Error "Cannot read properties of undefined")
                end
        end
    end.

(** [error instanceof Error ? error.message : "unknown error"] *)
Definition message_of (error : thrown) : string :=
  match error with
  | Error message => message
  | NotAnError => "unknown error"
  end.

(** One turn of the [for] loop of [runFeedChecks]: the [try] and its
    [catch]. *)
Definition attempt (s : state) (sub : Subscription.t) : state :=
  match processSubscription {| subscription := sub; env := s |} with
  | (inr _, p) => env p
  | (inl error, p) =>
      let message := message_of error in
      let failed :=
        Subscription.set_error
          (Some (default 0 (Subscription.errorCount (subscription p)) + 1))
          (Some message) (subscription p) in
      {| kv := Kv.put (Index.subscriptionKey (Subscription.guildId failed)
                         (Subscription.id failed))
                      (Kv.JSub failed) (kv (env p));
         net := net (env p) |}
  end.

(** A step that leaves the subscription object and the store alone. *)
Definition quiet {A} (m : M proc A) : Prop :=
  ∀ p, subscription (m p).2 = subscription p
       ∧ kv (env (m p).2) = kv (env p).

(** [b] is [a] but for its feed title. *)
Definition same_but_title (a b : Subscription.t) : Prop :=
  Subscription.set_feedTitle (Subscription.feedTitle b) a = b.

(** [for (const subscription of active) { ... }] *)
Definition run_active (active : list Subscription.t) (s : state) : state :=
  foldl attempt s active.

(** The subscriptions a cycle loads before its loop: [active] in
    [runFeedChecks]. *)
Definition active_of (s : state) : list Subscription.t :=
  omap (λ sub : option Subscription.t, sub)
       (Kv.get_sub (kv s) <$> Index.listAllKeys (kv s) "sub:g:").

(** [runFeedChecks] *)
Definition runFeedChecks (s : state) : state :=
  let keys := Index.listAllKeys (kv s) "sub:g:" in
  if (length keys =? 0)%nat then s
  else
    let subscriptions := Kv.get_sub (kv s) <$> keys in
    let active := omap (λ sub : option Subscription.t, sub) subscriptions in
    run_active active s.
End WithHost.
End Cycle.

(** ** Sample data *)

Module Sample.
Definition item (id : string) (date : option Z) : FeedItem.t :=
  {| FeedItem.id := id; FeedItem.title := id; FeedItem.link := None;
     FeedItem.date := date; FeedItem.summary := None |}.

Definition day1 : FeedItem.t := item "day1" (Some 86400000).
Definition day2 : FeedItem.t := item "day2" (Some 172800000).
Definition day3 : FeedItem.t := item "day3" (Some 259200000).
Definition undated : FeedItem.t := item "undated" None.
Definition year1969 : FeedItem.t := item "old" (Some (-1000)).

(** An RSS item whose [guid] element is there and empty. *)
Definition empty_guid : Js.value :=
  Js.Obj [("title", Js.Str "Release notes");
          ("link", Js.Str "https://example.com/notes");
          ("guid", Js.Str "")].

(** A later item of the same feed, its [guid] element empty as well. *)
Definition empty_guid_later : Js.value :=
  Js.Obj [("title", Js.Str "Security fix");
          ("link", Js.Str "https://example.com/fix");
          ("guid", Js.Str "")].


(** A [Date.parse] that understands nothing. *)
Definition no_dates (text : string) : option Z := None.

(** A namespace in which the index of guild [g1] lists the id [a]. *)
Definition indexed : Kv.t :=
  {| Kv.data := {[ Index.guildIndexKey "g1" := Kv.JIds ["a"] ]};
     Kv.writes := [] |}.

Definition sub (guild id : string) : Subscription.t :=
  {| Subscription.id := id; Subscription.guildId := guild;
     Subscription.channelId := "c1";
     Subscription.url := "https://example.com/feed.xml";
     Subscription.createdAt := 1700000000000;
     Subscription.lastItemId := Some "day1";
     Subscription.lastItemDate := Some 86400000;
     Subscription.feedTitle := Some "Example";
     Subscription.errorCount := None;
     Subscription.lastError := None |}.

(** Two records of guild [g1], a record that does not deserialize, and no
    index. *)
Definition unindexed : Kv.t :=
  {| Kv.data := {[ Index.subscriptionKey "g1" "a" := Kv.JSub (sub "g1" "a");
                   Index.subscriptionKey "g1" "b" := Kv.JSub (sub "g1" "b");
                   Index.subscriptionKey "g1" "c" := Kv.Corrupt ]};
     Kv.writes := [] |}.

(** The same records, with an index that lists them. *)
Definition healthy : Kv.t :=
  {| Kv.data := <[ Index.guildIndexKey "g1" := Kv.JIds ["a"; "b"] ]>
                  (Kv.data unindexed);
     Kv.writes := [] |}.


(** A store with one array, newest item first. *)
Definition arrays : gmap nat (list FeedItem.t) := {[ 7%nat := [day2; day1] ]}.
End Sample.

(** ** Readings of the specification, to compare the code with *)

Module Stated.
Import FeedItem.

(** The reading of "items without a date compare below every dated
    item": in the ordered list no dated item comes before an undated
    one. *)
Definition undated_lowest (l : list FeedItem.t) : Prop :=
  ∀ i j a b, l !! i = Some a → l !! j = Some b →
             date a = None → is_Some (date b) → (i < j)%nat.

(** "The items whose date is strictly greater than lastItemDate". *)
Definition dated_after (lastDate : Z) (it : FeedItem.t) : Prop :=
  match date it with
  | Some d => lastDate < d
  | None => False
  end.

#[global] Instance dated_after_dec d it : Decision (dated_after d it).
Proof. unfold dated_after. destruct (date it); apply _. Defined.

(** The index record of a guild is missing, does not deserialize, or is
    the empty list. *)
Inductive index_unusable (kv : Kv.t) (guildId : string) : Prop :=
| index_missing : Kv.data kv !! Index.guildIndexKey guildId = None →
                  index_unusable kv guildId
| index_corrupt : Kv.data kv !! Index.guildIndexKey guildId = Some Kv.Corrupt →
                  index_unusable kv guildId
| index_empty : Kv.data kv !! Index.guildIndexKey guildId = Some (Kv.JIds []) →
                index_unusable kv guildId.

(** The keys of a guild that hold a subscription record that
    deserializes; their number is the N of the specification. *)
Definition valid_record_keys (kv : Kv.t) (guildId : string) : list string :=
  filter (λ k, Kv.has_prefix ("sub:g:" +:+ guildId +:+ ":") k
               ∧ is_Some (Kv.get_sub kv k))
         (elements (dom (Kv.data kv))).

(** "First non-empty wins": the first candidate that is there and is not
    the empty string. *)
Fixpoint first_nonempty (candidates : list (option string)) : option string :=
  match candidates with
  | [] => None
  | c :: rest => if Truthy.str c then c else first_nonempty rest
  end.

End Stated.


(** ** Conditions under which further properties are stated *)

Module Reading.

(** Every record under a key of the guild carries the id its key was
    built from, as is the case for the records [handleSubscribe] and the
    cycle write. *)
Definition records_consistent (kv : Kv.t) (guildId : string) : Prop :=
  ∀ subId s, Kv.get_sub kv (Index.subscriptionKey guildId subId) = Some s →
             Subscription.id s = subId.

(** The code unit 58, [:]. *)
Definition colon : Ascii.ascii :=
  Ascii.Ascii false true false true true true false false.

(** The string has no colon in it (a Discord id is made of digits). *)
Fixpoint colon_free (s : string) : bool :=
  match s with
  | EmptyString => true
  | String c rest => negb (Ascii.eqb c colon) && colon_free rest
  end.

(** The fields no code path assigns after a subscription is created. *)
Definition same_identity (a b : Subscription.t) : Prop :=
  Subscription.id a = Subscription.id b
  ∧ Subscription.guildId a = Subscription.guildId b
  ∧ Subscription.channelId a = Subscription.channelId b
  ∧ Subscription.url a = Subscription.url b
  ∧ Subscription.createdAt a = Subscription.createdAt b.

(** Every code unit of the string is white space. *)
Fixpoint all_space (s : string) : bool :=
  match s with
  | EmptyString => true
  | String c rest => JsString.is_space c && all_space rest
  end.

(** White space occurs in the string only as single spaces; when
    [after_space], the string does not start with one. *)
Fixpoint single_spaced (after_space : bool) (s : string) : bool :=
  match s with
  | EmptyString => true
  | String c rest =>
      if JsString.is_space c
      then Ascii.eqb c (Ascii.ascii_of_N 32) && negb after_space
           && single_spaced true rest
      else single_spaced false rest
  end.

(** The string does not start with white space. *)
Definition starts_clean (s : string) : bool :=
  match s with
  | EmptyString => true
  | String c _ => negb (JsString.is_space c)
  end.
End Reading.

Module CycleReading.
Import Cycle.

Section WithHost.
Context `{host : Host}.

(** What one call may have done: the identity of the subscription object
    is kept, and the store is as it was or has received the object under
    the subscription's key. *)
Definition footprint (p p' : proc) : Prop :=
  Reading.same_identity (subscription p) (subscription p')
  ∧ (kv (env p') = kv (env p)
     ∨ kv (env p')
       = Kv.put (Index.subscriptionKey (Subscription.guildId (subscription p))
                   (Subscription.id (subscription p)))
                (Kv.JSub (subscription p')) (kv (env p))).
End WithHost.
End CycleReading.

(** ** [hexToBytes] *)

Module Hex.

(** The value of a code unit as a digit in radix 16. *)
Definition hex_digit (c : Ascii.ascii) : option Z :=
  let n := Z.of_N (Ascii.N_of_ascii c) in
  if (48 <=? n) && (n <=? 57) then Some (n - 48)
  else if (97 <=? n) && (n <=? 102) then Some (n - 87)
  else if (65 <=? n) && (n <=? 70) then Some (n - 55)
  else None.

(** The longest run of digits at the start of [s], read in radix 16;
    [acc] is the value so far and [seen] says whether a digit was read. *)
Fixpoint digits16 (acc : Z) (seen : bool) (s : string) : option Z :=
  match s with
  | EmptyString => if seen then Some acc else None
  | String c rest =>
      match hex_digit c with
      | Some d => digits16 (16 * acc + d) true rest
      | None => if seen then Some acc else None
      end
  end.

(** [parseInt(s, 16)]: leading white space is skipped, a sign is read, a
    prefix [0x] or [0X] is dropped, and the digits that follow are read.
    [None] is [NaN]. *)
Definition parseInt16 (s : string) : option Z :=
  let s := JsString.trimStart s in
  let minus := match s with
               | String c _ => Ascii.eqb c (Ascii.ascii_of_N 45)
               | EmptyString => false
               end in
  let s := match s with
           | String c rest =>
               if Ascii.eqb c (Ascii.ascii_of_N 43)
                  || Ascii.eqb c (Ascii.ascii_of_N 45)
               then rest else s
           | EmptyString => s
           end in
  let s := match s with
           | String z (String x rest) =>
               if Ascii.eqb z (Ascii.ascii_of_N 48)
                  && (Ascii.eqb x (Ascii.ascii_of_N 120)
                      || Ascii.eqb x (Ascii.ascii_of_N 88))
               then rest else s
           | _ => s
           end in
  match digits16 0 false s with
  | Some n => Some (if minus then - n else n)
  | None => None
  end.

(** Storing a number in a [Uint8Array]: [NaN] becomes 0, an integer is
    taken modulo 256. *)
Definition to_uint8 (n : option Z) : Z :=
  match n with
  | Some n => n mod 256
  | None => 0
  end.

(** [hexToBytes] *)
Definition hexToBytes (hex : string) : Cycle.thrown + list Z :=
  if negb (String.length hex mod 2 =? 0)%nat
  then inl (Cycle.Error "Invalid hex string")
  else
    let size := (String.length hex / 2)%nat in
    inr ((λ i, to_uint8 (parseInt16 (String.substring (i * 2) 2 hex)))
           <$> seq 0 size).

(** Two digits for a byte, in lower case and in upper case: what
    [hexToBytes] is meant to read back. *)
Definition digit_char (upper : bool) (d : Z) : Ascii.ascii :=
  Ascii.ascii_of_N (Z.to_N (if d <? 10 then 48 + d
                            else if upper then 55 + d else 87 + d)).

Definition hex_of_byte (upper : bool) (b : Z) : string :=
  String (digit_char upper (b / 16))
         (String (digit_char upper (b mod 16)) EmptyString).

Fixpoint to_hex (upper : bool) (bytes : list Z) : string :=
  match bytes with
  | [] => EmptyString
  | b :: rest => hex_of_byte upper b +:+ to_hex upper rest
  end.
End Hex.

(** ** [buildListEmbeds] *)

Module Embeds.
Record field : Type := mk_field {
  name : string;
  value : string
}.

(** The title of an embed is one of two texts: the heading of the list
    with the total in it, or the heading of a continuation. *)
Inductive title : Type :=
| ListOf (total : nat)
| Continued.

Record embed : Type := mk_embed {
  embed_title : title;
  color : Z;
  fields : list field
}.

(** [truncateField] *)
Definition truncateField (value : string) : string :=
  if (String.length value <=? 1024)%nat then value
  else JsString.slice0 1021 value +:+ "...".

(** The [Map] of the source keeps its keys in the order in which they
    were first set.  One turn of the first loop:
    [list = grouped.get(channelId) ?? []; list.push(sub);
     grouped.set(channelId, list)]. *)
Fixpoint group_push (sub : Subscription.t)
    (grouped : list (string * list Subscription.t))
    : list (string * list Subscription.t) :=
  match grouped with
  | [] => [(Subscription.channelId sub, [sub])]
  | (channelId, subs) :: rest =>
      if String.eqb channelId (Subscription.channelId sub)
      then (channelId, (subs ++ [sub])%list) :: rest
      else (channelId, subs) :: group_push sub rest
  end.

Definition group (subscriptions : list Subscription.t)
    : list (string * list Subscription.t) :=
  foldl (λ grouped sub, group_push sub grouped) [] subscriptions.

(** [[...subs].sort((a, b) => a.createdAt - b.createdAt)], the stable
    arrangement by [createdAt]. *)
Fixpoint insert_by_created (x : Subscription.t) (l : list Subscription.t)
    : list Subscription.t :=
  match l with
  | [] => [x]
  | y :: r =>
      if Subscription.createdAt x <=? Subscription.createdAt y then x :: y :: r
      else y :: insert_by_created x r
  end.

Definition sort_by_created (l : list Subscription.t) : list Subscription.t :=
  foldr insert_by_created [] l.

(** What the grouping has made of the subscriptions read so far. *)
Definition grouped_ok (grouped : list (string * list Subscription.t))
    (seen : list Subscription.t) : Prop :=
  NoDup grouped.*1
  ∧ (∀ c l, (c, l) ∈ grouped →
            l ≠ [] ∧ l = filter (λ s, Subscription.channelId s = c) seen)
  ∧ (∀ s, s ∈ seen → Subscription.channelId s ∈ grouped.*1).

Definition backtick : string := String (Ascii.ascii_of_N 96) EmptyString.

(** The text of one subscription in a field. *)
Definition line (sub : Subscription.t) : string :=
  let title := default "(no title)"
                 (Cycle.normalizeFeedTitle (Subscription.feedTitle sub)) in
  title +:+ JsString.newline +:+ Subscription.url sub +:+ JsString.newline
    +:+ "ID: " +:+ backtick +:+ Subscription.id sub +:+ backtick.

(** The field of one channel. *)
Definition channel_field (entry : string * list Subscription.t) : field :=
  let '(channelId, subs) := entry in
  let sorted := sort_by_created subs in
  let lines := line <$> sorted in
  {| name := "<#" +:+ channelId +:+ "> (" +:+ pretty (length subs) +:+ ")";
     value := truncateField (String.concat JsString.newline lines) |}.

Definition maxFieldsPerEmbed : nat := 25.

(** [for (let i = 0; i < fields.length; i += maxFieldsPerEmbed)]; the
    loop makes fewer turns than there are fields, and one more is
    allowed for. *)
Fixpoint embeds_from (turns i total : nat) (fields : list field) : list embed :=
  match turns with
  | O => []
  | S turns =>
      if (i <? length fields)%nat then
        {| embed_title := if (i =? 0)%nat then ListOf total else Continued;
           color := 3900150;
           fields := take maxFieldsPerEmbed (drop i fields) |}
        :: embeds_from turns (i + maxFieldsPerEmbed) total fields
      else []
  end.

(** [buildListEmbeds] *)
Definition buildListEmbeds (subscriptions : list Subscription.t) : list embed :=
  let grouped := group subscriptions in
  let fields := channel_field <$> grouped in
  let total := length subscriptions in
  embeds_from (S (length fields)) 0 total fields.
End Embeds.

(** ** The command handlers

    [handleSubscribe] and [handleUnsubscribe] as they run while no read
    of the namespace is rejected; [Worker] has them, and [handleList],
    with the reads that are rejected. *)

Module Handlers.
Import Cycle Normalize.

(** [new URL(text)], as far as the source looks at it: the protocol and
    the text [toString()] gives. *)
Record Url : Type := mk_url {
  protocol : string;
  href : string
}.

(** How the fetch of [probeFeed] ends: aborted by the timer, rejected
    otherwise, or answered. *)
Inductive probe_fetch : Type :=
| Aborted
| Rejected (error : thrown)
| Answered (response : Response).

(** What the handlers call besides the services of the cycle: the URL
    parser ([None] when the constructor throws), the fetch of the probe
    under its timer, the id generator and the clock. *)
Class Platform : Type := {
  platform_host : Host;
  URL_parse : string → option Url;
  fetch_probe : string → world → probe_fetch * world;
  ulid : world → string * world;
  Date_now : world → Z * world
}.

(** The reason a probe gives for a failure; each stands for one
    message of the source. *)
Inductive probe_failure : Type :=
| HttpStatus (status : N)
| XmlParseFailed
| NotAFeed
| TimedOut
| FetchFailed.

(** The replies of the handlers, each with the values its payload
    shows. *)
Inductive reply : Type :=
| MissingUrl
| BadUrl
| BadProtocol
| AlreadySubscribed (channelId : string) (duplicate : Subscription.t)
| CouldNotSubscribe (reason : probe_failure) (url : string)
| Subscribed (channelId : string) (subscription : Subscription.t)
| NoSubscriptions
| Listing (embeds : list Embeds.embed)
| MissingId
| UnknownId
| Unsubscribed (existing : Subscription.t).

(** [env.FEED_KV.delete(key)]; the log of writes records the [put]s
    only. *)
Definition kv_delete (k : string) (kv : Kv.t) : Kv.t :=
  {| Kv.data := delete k (Kv.data kv); Kv.writes := Kv.writes kv |}.

(** [options.find((opt) => opt.name === name)?.value].  Reading [name]
    off an option that is [null] or [undefined] throws. *)
Fixpoint find_option (name : string) (options : list Js.value)
    : thrown + Js.value :=
  match options with
  | [] => inr Js.Undefined
  | opt :: rest =>
      if Js.nullish opt
      then inl (Error "Cannot read properties of undefined")
      else
        match Js.get "name" opt with
        | Js.Str n =>
            if String.eqb n name then inr (Js.get "value" opt)
            else find_option name rest
        | _ => find_option name rest
        end
  end.

(** [removeFromIndex(env, guildId, idValue)] for the value of an option.
    The ids of an index are strings, and [id !== subId] holds of a
    string and every value that is not one: for such a value [next] is
    as long as [index] and nothing is written. *)
Definition removeFromIndex_value (kv : Kv.t) (guildId : string)
    (idValue : Js.value) : Kv.t :=
  match idValue with
  | Js.Str subId => Index.removeFromIndex kv guildId subId
  | _ => kv
  end.

Section WithPlatform.
Context `{platform : Platform}.

#[local] Existing Instance platform_host.

(** [probeFeed] *)
Definition probeFeed (url : string) (w : world)
    : (probe_failure + format * option string) * world :=
  match fetch_probe url w with
  | (Aborted, w) => (inl TimedOut, w)
  | (Rejected _, w) => (inl FetchFailed, w)
  | (Answered response, w) =>
      if negb (ok response) then (inl (HttpStatus (status response)), w)
      else
        match parseFeed (text response) with
        | inl _ => (inl XmlParseFailed, w)
        | inr feed =>
            match feed_format feed with
            | unknown => (inl NotAFeed, w)
            | f => (inr (f, feed_title feed), w)
            end
        end
  end.

(** [existing.find((sub) => sub.channelId === channelId &&
    sub.url === parsedUrl.toString())] *)
Definition find_duplicate (channelId url : string)
    (existing : list Subscription.t) : option Subscription.t :=
  snd <$> list_find (λ sub, Subscription.channelId sub = channelId
                            ∧ Subscription.url sub = url) existing.

(** [handleSubscribe] *)
Definition handleSubscribe (guildId channelId : string)
    (options : list Js.value) (s : state) : (thrown + reply) * state :=
  match find_option "url" options with
  | inl e => (inl e, s)
  | inr urlValue =>
      if negb (Js.truthy urlValue) then (inr MissingUrl, s)
      else
        match URL_parse (Js.to_String urlValue) with
        | None => (inr BadUrl, s)
        | Some parsedUrl =>
            if negb (String.eqb (protocol parsedUrl) "http:")
               && negb (String.eqb (protocol parsedUrl) "https:")
            then (inr BadProtocol, s)
            else
              let '(existing, kv1) :=
                Index.getSubscriptionsForGuild (kv s) guildId in
              match find_duplicate channelId (href parsedUrl) existing with
              | Some duplicate =>
                  (inr (AlreadySubscribed channelId duplicate),
                   {| kv := kv1; net := net s |})
              | None =>
                  let '(probe, w1) := probeFeed (href parsedUrl) (net s) in
                  match probe with
                  | inl reason =>
                      (inr (CouldNotSubscribe reason (href parsedUrl)),
                       {| kv := kv1; net := w1 |})
                  | inr (_, title) =>
                      let normalizedTitle := normalizeFeedTitle title in
                      let '(id, w2) := ulid w1 in
                      let '(createdAt, w3) := Date_now w2 in
                      let subscription :=
                        {| Subscription.id := id;
                           Subscription.guildId := guildId;
                           Subscription.channelId := channelId;
                           Subscription.url := href parsedUrl;
                           Subscription.createdAt := createdAt;
                           Subscription.lastItemId := None;
                           Subscription.lastItemDate := None;
                           Subscription.feedTitle := normalizedTitle;
                           Subscription.errorCount := Some 0;
                           Subscription.lastError := None |} in
                      let kv2 :=
                        Kv.put (Index.subscriptionKey guildId id)
                               (Kv.JSub subscription) kv1 in
                      let kv3 := Index.addToIndex kv2 guildId id in
                      (inr (Subscribed channelId subscription),
                       {| kv := kv3; net := w3 |})
                  end
              end
        end
  end.

(** [handleUnsubscribe] *)
Definition handleUnsubscribe (guildId : string) (options : list Js.value)
    (s : state) : (thrown + reply) * state :=
  match find_option "subscribed_id" options with
  | inl e => (inl e, s)
  | inr idValue =>
      if negb (Js.truthy idValue) then (inr MissingId, s)
      else
        let key := Index.subscriptionKey guildId (Js.to_String idValue) in
        match Kv.get_sub (kv s) key with
        | None => (inr UnknownId, s)
        | Some existing =>
            let kv1 := kv_delete key (kv s) in
            let kv2 := removeFromIndex_value kv1 guildId idValue in
            (inr (Unsubscribed existing), {| kv := kv2; net := net s |})
        end
  end.
End WithPlatform.
End Handlers.

(** ** Reads that are rejected

    [FEED_KV.get(key, "json")] rejects when the text stored under the
    key is not JSON, and no call of the source catches that.  The
    functions of this module are the functions of the source with that
    outcome.  [Index], [Cycle] and [Handlers] hold the same functions as
    they run on a store whose texts are JSON, where no read is
    rejected. *)

Module Worker.
Import Kv Index Cycle Handlers.

(** What a rejected read throws; the text of the message is the
    runtime's. *)
Definition syntax_error : thrown := Error "Unexpected token in JSON".

(** [get<Subscription>(key, "json")] *)
Definition get_sub (kv : Kv.t) (k : string) : thrown + option Subscription.t :=
  match data kv !! k with
  | Some Corrupt => inl syntax_error
  | _ => inr (Kv.get_sub kv k)
  end.

(** [get<string[]>(key, "json")] *)
Definition get_ids (kv : Kv.t) (k : string) : thrown + option (list string) :=
  match data kv !! k with
  | Some Corrupt => inl syntax_error
  | _ => inr (Kv.get_ids kv k)
  end.

(** [await Promise.all(keys.map((key) => get<Subscription>(key,
    "json")))]: the reads write nothing, and the whole is rejected when
    one of them is. *)
Fixpoint get_all (kv : Kv.t) (keys : list string)
    : thrown + list (option Subscription.t) :=
  match keys with
  | [] => inr []
  | k :: rest =>
      match get_sub kv k, get_all kv rest with
      | inr sub, inr subs => inr (sub :: subs)
      | inl e, _ => inl e
      | _, inl e => inl e
      end
  end.

(** [subscriptions.filter((sub) => Boolean(sub))] *)
Definition present (subscriptions : list (option Subscription.t))
    : list Subscription.t :=
  omap (λ sub : option Subscription.t, sub) subscriptions.

(** [listSubscriptionsByGuild] *)
Definition listSubscriptionsByGuild (kv : Kv.t) (guildId : string)
    : thrown + list Subscription.t :=
  let keys := listAllKeys kv ("sub:g:" +:+ guildId +:+ ":") in
  match get_all kv keys with
  | inl e => inl e
  | inr subscriptions => inr (present subscriptions)
  end.

(** [getSubscriptionsForGuild] *)
Definition getSubscriptionsForGuild (kv : Kv.t) (guildId : string)
    : (thrown + list Subscription.t) * Kv.t :=
  let indexKey := guildIndexKey guildId in
  match get_ids kv indexKey with
  | inl e => (inl e, kv)
  | inr (Some ((_ :: _) as index)) =>
      match get_all kv (subscriptionKey guildId <$> index) with
      | inl e => (inl e, kv)
      | inr subscriptions =>
          let valid := present subscriptions in
          if bool_decide (length valid ≠ length index)
          then (inr valid, put indexKey (JIds (Subscription.id <$> valid)) kv)
          else (inr valid, kv)
      end
  | inr _ =>
      match listSubscriptionsByGuild kv guildId with
      | inl e => (inl e, kv)
      | inr fallback =>
          if bool_decide (0 < length fallback)%nat
          then (inr fallback,
                put indexKey (JIds (Subscription.id <$> fallback)) kv)
          else (inr fallback, kv)
      end
  end.

(** [addToIndex] *)
Definition addToIndex (kv : Kv.t) (guildId subId : string)
    : (thrown + unit) * Kv.t :=
  let indexKey := guildIndexKey guildId in
  match get_ids kv indexKey with
  | inl e => (inl e, kv)
  | inr stored =>
      let index := default [] stored in
      if bool_decide (subId ∉ index)
      then (inr tt, put indexKey (JIds (index ++ [subId])%list) kv)
      else (inr tt, kv)
  end.

(** [removeFromIndex] *)
Definition removeFromIndex (kv : Kv.t) (guildId subId : string)
    : (thrown + unit) * Kv.t :=
  let indexKey := guildIndexKey guildId in
  match get_ids kv indexKey with
  | inl e => (inl e, kv)
  | inr stored =>
      let index := default [] stored in
      let next := filter (λ id, id ≠ subId) index in
      if bool_decide (length next ≠ length index)
      then (inr tt, put indexKey (JIds next) kv)
      else (inr tt, kv)
  end.

(** [removeFromIndex(env, guildId, idValue)] for the value of an option.
    The index is read first.  Its ids are strings, and [id !== subId]
    holds of a string and every value that is not one: for such a value
    [next] is as long as [index] and nothing is written. *)
Definition removeFromIndex_value (kv : Kv.t) (guildId : string)
    (idValue : Js.value) : (thrown + unit) * Kv.t :=
  match idValue with
  | Js.Str subId => removeFromIndex kv guildId subId
  | _ =>
      match get_ids kv (guildIndexKey guildId) with
      | inl e => (inl e, kv)
      | inr _ => (inr tt, kv)
      end
  end.

(** The store holds JSON texts only: what the source itself writes. *)
Definition json (kv : Kv.t) : Prop :=
  map_Forall (λ _ v, v ≠ Corrupt) (data kv).

Section WithHost.
Context `{host : Host}.

(** What a cycle loads before its loop: [active] in [runFeedChecks]. *)
Definition load (s : state) : thrown + list Subscription.t :=
  match get_all (kv s) (listAllKeys (kv s) "sub:g:") with
  | inl e => inl e
  | inr subscriptions => inr (present subscriptions)
  end.

(** [runFeedChecks] *)
Definition runFeedChecks (s : state) : (thrown + unit) * state :=
  let keys := listAllKeys (kv s) "sub:g:" in
  if (length keys =? 0)%nat then (inr tt, s)
  else
    match get_all (kv s) keys with
    | inl e => (inl e, s)
    | inr subscriptions => (inr tt, run_active (present subscriptions) s)
    end.
End WithHost.

Section WithPlatform.
Context `{platform : Platform}.

#[local] Existing Instance platform_host.

(** [handleSubscribe] *)
Definition handleSubscribe (guildId channelId : string)
    (options : list Js.value) (s : state) : (thrown + reply) * state :=
  match find_option "url" options with
  | inl e => (inl e, s)
  | inr urlValue =>
      if negb (Js.truthy urlValue) then (inr MissingUrl, s)
      else
        match URL_parse (Js.to_String urlValue) with
        | None => (inr BadUrl, s)
        | Some parsedUrl =>
            if negb (String.eqb (protocol parsedUrl) "http:")
               && negb (String.eqb (protocol parsedUrl) "https:")
            then (inr BadProtocol, s)
            else
              match getSubscriptionsForGuild (kv s) guildId with
              | (inl e, kv1) => (inl e, {| kv := kv1; net := net s |})
              | (inr existing, kv1) =>
                  match find_duplicate channelId (href parsedUrl) existing with
                  | Some duplicate =>
                      (inr (AlreadySubscribed channelId duplicate),
                       {| kv := kv1; net := net s |})
                  | None =>
                      let '(probe, w1) := probeFeed (href parsedUrl) (net s) in
                      match probe with
                      | inl reason =>
                          (inr (CouldNotSubscribe reason (href parsedUrl)),
                           {| kv := kv1; net := w1 |})
                      | inr (_, title) =>
                          let normalizedTitle := normalizeFeedTitle title in
                          let '(id, w2) := ulid w1 in
                          let '(createdAt, w3) := Date_now w2 in
                          let subscription :=
                            {| Subscription.id := id;
                               Subscription.guildId := guildId;
                               Subscription.channelId := channelId;
                               Subscription.url := href parsedUrl;
                               Subscription.createdAt := createdAt;
                               Subscription.lastItemId := None;
                               Subscription.lastItemDate := None;
                               Subscription.feedTitle := normalizedTitle;
                               Subscription.errorCount := Some 0;
                               Subscription.lastError := None |} in
                          let kv2 :=
                            Kv.put (subscriptionKey guildId id)
                                   (Kv.JSub subscription) kv1 in
                          match addToIndex kv2 guildId id with
                          | (inl e, kv3) =>
                              (inl e, {| kv := kv3; net := w3 |})
                          | (inr _, kv3) =>
                              (inr (Subscribed channelId subscription),
                               {| kv := kv3; net := w3 |})
                          end
                      end
                  end
              end
        end
  end.

(** [handleList] *)
Definition handleList (guildId : string) (s : state)
    : (thrown + reply) * state :=
  match getSubscriptionsForGuild (kv s) guildId with
  | (inl e, kv1) => (inl e, {| kv := kv1; net := net s |})
  | (inr subscriptions, kv1) =>
      if (length subscriptions =? 0)%nat
      then (inr NoSubscriptions, {| kv := kv1; net := net s |})
      else (inr (Listing (Embeds.buildListEmbeds subscriptions)),
            {| kv := kv1; net := net s |})
  end.

(** [handleUnsubscribe] *)
Definition handleUnsubscribe (guildId : string) (options : list Js.value)
    (s : state) : (thrown + reply) * state :=
  match find_option "subscribed_id" options with
  | inl e => (inl e, s)
  | inr idValue =>
      if negb (Js.truthy idValue) then (inr MissingId, s)
      else
        let key := subscriptionKey guildId (Js.to_String idValue) in
        match get_sub (kv s) key with
        | inl e => (inl e, s)
        | inr None => (inr UnknownId, s)
        | inr (Some existing) =>
            let kv1 := kv_delete key (kv s) in
            match removeFromIndex_value kv1 guildId idValue with
            | (inl e, kv2) => (inl e, {| kv := kv2; net := net s |})
            | (inr _, kv2) =>
                (inr (Unsubscribed existing), {| kv := kv2; net := net s |})
            end
        end
  end.
End WithPlatform.
End Worker.

(** ** The entry point

    [fetch] up to the call of a handler: which requests it answers by
    itself, and with which arguments it calls which handler. *)

Module Gateway.

(** The request, as far as [fetch] looks at it: the method, the path of
    the URL, the two signature headers ([None] where [headers.get] gives
    [null]) and the decoded text of the body. *)
Record Request : Type := mk_request {
  method : string;
  pathname : string;
  signature_header : option string;
  timestamp_header : option string;
  bodyText : string
}.

(** What [fetch] and [verifyDiscordRequest] call: the text encoder, the
    signature check of the library, which returns a boolean or throws,
    and [JSON.parse] ([None] when it throws). *)
Class Crypto : Type := {
  encode : string → list Z;
  nacl_verify : list Z → list Z → list Z → Cycle.thrown + bool;
  JSON_parse : string → option Js.value
}.

(** What [fetch] does with a request: answer with a plain response,
    answer a ping, answer with a message, or call a handler. *)
Inductive outcome : Type :=
| Plain (body : string) (status : N)
| Pong
| Message (content : string)
| CallSubscribe (guildId channelId options : Js.value)
| CallList (guildId : Js.value)
| CallUnsubscribe (guildId options : Js.value).

(** [v === n] for a number [n] with the rendering [r] *)
Definition is_num (r : string) (v : Js.value) : bool :=
  match v with
  | Js.Num r' => String.eqb r' r
  | _ => false
  end.

(** [v === s] for a string [s] *)
Definition is_str (s : string) (v : Js.value) : bool :=
  match v with
  | Js.Str s' => String.eqb s' s
  | _ => false
  end.

(** [v?.k] *)
Definition get_opt (k : string) (v : Js.value) : Js.value :=
  if Js.nullish v then Js.Undefined else Js.get k v.

(** [v[0]] for a [v] that is not nullish: the first element of an array,
    the first code unit of a string, the property ["0"] of an object. *)
Definition index0 (v : Js.value) : Js.value :=
  match v with
  | Js.Arr (x :: _) => x
  | Js.Str (String c _) => Js.Str (String c EmptyString)
  | Js.Obj fields => default Js.Undefined (Js.lookup_field "0" fields)
  | _ => Js.Undefined
  end.

Section WithCrypto.
Context `{crypto : Crypto}.

(** [verifyDiscordRequest] *)
Definition verifyDiscordRequest (signature timestamp body publicKey : string)
    : bool :=
  let message := encode (timestamp +:+ body) in
  match Hex.hexToBytes signature with
  | inl _ => false
  | inr signatureBytes =>
      match Hex.hexToBytes publicKey with
      | inl _ => false
      | inr publicKeyBytes =>
          match nacl_verify message signatureBytes publicKeyBytes with
          | inl _ => false
          | inr verdict => verdict
          end
      end
  end.

(** [fetch], from the parsed interaction on.  Reading [type] off [null]
    throws. *)
Definition dispatch (interaction : Js.value) : Cycle.thrown + outcome :=
  if Js.nullish interaction
  then inl (Cycle.Error "Cannot read properties of null")
  else if is_num "1" (Js.get "type" interaction) then inr Pong
  else
    let data := Js.get "data" interaction in
    if negb (is_num "2" (Js.get "type" interaction))
       || negb (is_str "feed" (get_opt "name" data))
    then inr (Message "Unknown command.")
    else
      let guildId := Js.get "guild_id" interaction in
      let channelId := Js.get "channel_id" interaction in
      if negb (Js.truthy guildId) || negb (Js.truthy channelId)
      then inr (Message "This command can only be used in a server channel.")
      else
        let subcommand :=
          index0 (Js.coalesce (get_opt "options" data) (Js.Arr [])) in
        let name := get_opt "name" subcommand in
        let options := Js.coalesce (get_opt "options" subcommand) (Js.Arr []) in
        if is_str "subscribe" name
        then inr (CallSubscribe guildId channelId options)
        else if is_str "list" name then inr (CallList guildId)
        else if is_str "unsubscribe" name
        then inr (CallUnsubscribe guildId options)
        else inr (Message "Unknown subcommand.").

(** [fetch] *)
Definition fetch (publicKey : string) (request : Request)
    : Cycle.thrown + outcome :=
  if negb (String.eqb (method request) "POST")
     || negb (String.eqb (pathname request) "/interactions")
  then inr (Plain "Not Found" 404)
  else
    let signature := signature_header request in
    let timestamp := timestamp_header request in
    if negb (Truthy.str signature) || negb (Truthy.str timestamp)
    then inr (Plain "Bad Request" 400)
    else
      if negb (verifyDiscordRequest (default "" signature)
                 (default "" timestamp) (bodyText request) publicKey)
      then inr (Plain "Bad signature" 401)
      else
        match JSON_parse (bodyText request) with
        | None => inr (Plain "Bad Request" 400)
        | Some interaction => dispatch interaction
        end.
End WithCrypto.
End Gateway.

Module GatewayReading.
Import Gateway.

(** The handler call of an outcome, if it is one: the guild it is made
    for. *)
Definition called_for (o : outcome) : option Js.value :=
  match o with
  | CallSubscribe guildId _ _ | CallList guildId | CallUnsubscribe guildId _ =>
      Some guildId
  | _ => None
  end.

Section WithCrypto.
Context `{crypto : Crypto}.

(** A request that is a POST to the interactions path, carries both
    signature headers, not empty, and passes [verifyDiscordRequest]
    under the public key. *)
Definition authentic (publicKey : string) (request : Request) : Prop :=
  method request = "POST"
  ∧ pathname request = "/interactions"
  ∧ ∃ signature timestamp,
      signature_header request = Some signature
      ∧ timestamp_header request = Some timestamp
      ∧ signature ≠ "" ∧ timestamp ≠ ""
      ∧ verifyDiscordRequest signature timestamp (bodyText request) publicKey
        = true.
End WithCrypto.
End GatewayReading.

(** ** More sample data *)

Module Sample2.
(** Two records of guild [g1] and no index; every text is JSON. *)
Definition two_records : Kv.t :=
  {| Kv.data := {[ Index.subscriptionKey "g1" "a" := Kv.JSub (Sample.sub "g1" "a");
                   Index.subscriptionKey "g1" "b" := Kv.JSub (Sample.sub "g1" "b") ]};
     Kv.writes := [] |}.

(** The same records, and an index record that is not JSON. *)
Definition broken_index : Kv.t :=
  {| Kv.data := <[ Index.guildIndexKey "g1" := Kv.Corrupt ]>
                  (Kv.data two_records);
     Kv.writes := [] |}.


(** The same records, with an index that lists them. *)
Definition listed : Kv.t :=
  {| Kv.data := <[ Index.guildIndexKey "g1" := Kv.JIds ["a"; "b"] ]>
                  (Kv.data two_records);
     Kv.writes := [] |}.


(** The records of [Sample.unindexed], with an index that also lists an
    id whose record is gone. *)
Definition stale : Kv.t :=
  {| Kv.data := <[ Index.guildIndexKey "g1" := Kv.JIds ["a"; "gone"; "b"] ]>
                  (Kv.data Sample.unindexed);
     Kv.writes := [] |}.

(** A parsed RSS document with two dated items and an undated one. *)
Definition rss_document : Js.value :=
  Js.Obj [("rss", Js.Obj [("channel", Js.Obj
    [("title", Js.Str "  Example   feed ");
     ("item", Js.Arr
        [Js.Obj [("title", Js.Str "Second"); ("link", Js.Str "https://example.com/2");
                 ("guid", Js.Obj [("#text", Js.Str "post-2");
                                  ("isPermaLink", Js.Bool false)]);
                 ("pubDate", Js.Str "Tue, 02 Jan 2024 00:00:00 GMT")];
         Js.Obj [("title", Js.Str "First"); ("link", Js.Str "https://example.com/1");
                 ("guid", Js.Str "post-1");
                 ("pubDate", Js.Str "Mon, 01 Jan 2024 00:00:00 GMT")];
         Js.Obj [("title", Js.Str "Undated"); ("link", Js.Str "https://example.com/0")]])])])].

(** [Date.parse] on the two dates of [rss_document]. *)
Definition two_dates (text : string) : option Z :=
  if String.eqb text "Mon, 01 Jan 2024 00:00:00 GMT" then Some 1704067200000
  else if String.eqb text "Tue, 02 Jan 2024 00:00:00 GMT" then Some 1704153600000
  else None.

(** A network that serves [rss_document] for every feed and counts the
    requests made; the third request and those after it are answered
    500. *)
Definition online : Cycle.Host :=
  {| Cycle.world := nat;
     Cycle.fetch_feed := λ url w,
       (inr {| Cycle.status := 200%N; Cycle.text := "<rss/>" |}, S w);
     Cycle.post_message := λ channelId content w,
       (inr {| Cycle.status := if (w <? 2)%nat then 204%N else 500%N;
               Cycle.text := "" |}, S w);
     Cycle.xml_parse := λ xml, inr rss_document;
     Cycle.Date_parse := two_dates |}.

(** A subscription that has seen [post-1], and one that has seen
    nothing yet. *)
Definition seen_first : Subscription.t :=
  Subscription.set_watermark (Some "post-1") (Some 1704067200000)
    (Sample.sub "g1" "a").

Definition fresh : Subscription.t :=
  Subscription.set_watermark None None (Sample.sub "g1" "b").

(** The items [rss_document] normalizes to, and the states in which the
    two subscriptions are about to be processed on [online]. *)
Definition parsed_feed : Normalize.ParsedFeed :=
  Normalize.parseFeed_of two_dates rss_document.

Definition second_item : FeedItem.t :=
  {| FeedItem.id := "post-2"; FeedItem.title := "Second";
     FeedItem.link := Some "https://example.com/2";
     FeedItem.date := Some 1704153600000; FeedItem.summary := None |}.

Definition first_item : FeedItem.t :=
  {| FeedItem.id := "post-1"; FeedItem.title := "First";
     FeedItem.link := Some "https://example.com/1";
     FeedItem.date := Some 1704067200000; FeedItem.summary := None |}.

Definition processing (sub : Subscription.t) (requests : nat) : @Cycle.proc online :=
  @Cycle.mk_proc online sub (@Cycle.mk_state online Sample.unindexed requests).

(** A platform on the network [online]: a URL parser that knows three
    schemes, a probe that is always answered 200, an id generator that
    gives one id and a clock that stands still. *)
Definition desk : Handlers.Platform :=
  {| Handlers.platform_host := online;
     Handlers.URL_parse := λ text,
       if String.prefix "https://" text
       then Some {| Handlers.protocol := "https:"; Handlers.href := text |}
       else if String.prefix "http://" text
       then Some {| Handlers.protocol := "http:"; Handlers.href := text |}
       else if String.prefix "ftp://" text
       then Some {| Handlers.protocol := "ftp:"; Handlers.href := text |}
       else None;
     Handlers.fetch_probe := λ url (w : nat),
       (Handlers.Answered {| Cycle.status := 200%N; Cycle.text := "<rss/>" |},
        S w);
     Handlers.ulid := λ (w : nat), ("01HSAMPLE", S w);
     Handlers.Date_now := λ (w : nat), (1704240000000, S w) |}.

(** The options of a subcommand with one string option. *)
Definition one_option (name value : string) : list Js.value :=
  [Js.Obj [("name", Js.Str name); ("type", Js.Num "3");
           ("value", Js.Str value)]].

(** The state in which a command arrives: the records of
    [Sample.healthy], and no request made yet. *)
Definition at_desk : @Cycle.state online := @Cycle.mk_state online Sample.healthy 0%nat.

(** The same moment on a store that holds the two records of
    [two_records] and their index. *)
Definition at_listed : @Cycle.state online := @Cycle.mk_state online listed 0%nat.

(** The subscription a subscribe for [news.xml] in channel [c2] of guild
    [g1] creates on [desk]. *)
Definition created : Subscription.t :=
  {| Subscription.id := "01HSAMPLE"; Subscription.guildId := "g1";
     Subscription.channelId := "c2";
     Subscription.url := "https://example.com/news.xml";
     Subscription.createdAt := 1704240000000;
     Subscription.lastItemId := None;
     Subscription.lastItemDate := None;
     Subscription.feedTitle := Some "Example feed";
     Subscription.errorCount := Some 0;
     Subscription.lastError := None |}.

(** The state that subscribe leaves. *)
Definition after_subscribe : @Cycle.state online :=
  (@Handlers.handleSubscribe desk "g1" "c2"
     (one_option "url" "https://example.com/news.xml") at_desk).2.

(** A signature check that accepts the bytes 1, 2 under the key 171 and
    throws on every other key, and a parser that knows one body, for
    which it returns the interaction of a list command. *)
Definition list_command : Js.value :=
  Js.Obj [("type", Js.Num "2"); ("guild_id", Js.Str "g1");
          ("channel_id", Js.Str "c1");
          ("data", Js.Obj [("name", Js.Str "feed");
                           ("options", Js.Arr [Js.Obj [("name", Js.Str "list");
                                                       ("type", Js.Num "1")]])])].

Definition notary : Gateway.Crypto :=
  {| Gateway.encode := λ text,
       (λ c, Z.of_N (Ascii.N_of_ascii c)) <$> String.list_ascii_of_string text;
     Gateway.nacl_verify := λ message signature key,
       if bool_decide (key = [171])
       then inr (bool_decide (signature = [1; 2]))
       else inl (Cycle.Error "bad public key size");
     Gateway.JSON_parse := λ text,
       if String.eqb text "the body of a list command" then Some list_command
       else None |}.

Definition signed_request : Gateway.Request :=
  {| Gateway.method := "POST"; Gateway.pathname := "/interactions";
     Gateway.signature_header := Some "0102";
     Gateway.timestamp_header := Some "1704240000";
     Gateway.bodyText := "the body of a list command" |}.
End Sample2.
(** * Properties *)

(** ** The ordering step *)

Module DiffFacts.
Import FeedItem Diff.

Lemma insert_by_date_perm x l : insert_by_date x l ≡ₚ x :: l.
Proof.
  induction l as [|y r IH]; simpl; [done|].
  destruct (date_key x <=? date_key y); [done|].
  rewrite IH. apply Permutation_swap.
Qed.

Lemma sort_by_date_perm l : sort_by_date l ≡ₚ l.
Proof.
  induction l as [|x r IH]; simpl; [done|].
  rewrite insert_by_date_perm. by rewrite IH.
Qed.

Lemma insert_by_date_sorted x l :
  StronglySorted by_date l → StronglySorted by_date (insert_by_date x l).
Proof.
  induction 1 as [|y r Hr IH Hy]; simpl.
  - repeat constructor.
  - destruct (Z.leb_spec (date_key x) (date_key y)) as [Hle|Hgt].
    + constructor; [by constructor|].
      constructor; [exact Hle|].
      eapply Forall_impl; [exact Hy|].
      unfold by_date. intros z Hz. lia.
    + constructor; [exact IH|].
      rewrite insert_by_date_perm. constructor; [|exact Hy].
      unfold by_date. lia.
Qed.

Lemma sort_by_date_sorted l : StronglySorted by_date (sort_by_date l).
Proof.
  induction l as [|x r IH]; simpl; [constructor|].
  by apply insert_by_date_sorted.
Qed.

(** Stability: among the items of one date, the order of the source is
    kept. *)
Lemma insert_by_date_stable k x l :
  filter (λ it, date_key it = k) (insert_by_date x l)
  = filter (λ it, date_key it = k) (x :: l).
Proof.
  induction l as [|y r IH]; simpl; [done|].
  destruct (Z.leb_spec (date_key x) (date_key y)) as [Hle|Hgt]; [done|].
  rewrite filter_cons, IH, !filter_cons.
  repeat case_decide; try done; lia.
Qed.

Lemma sort_by_date_stable k l :
  filter (λ it, date_key it = k) (sort_by_date l)
  = filter (λ it, date_key it = k) l.
Proof.
  induction l as [|x r IH]; simpl; [done|].
  rewrite insert_by_date_stable, !filter_cons, IH. done.
Qed.

Lemma ordering_perm items : ordering items ≡ₚ items.
Proof.
  unfold ordering. destruct (existsb has_date items); [|done].
  apply sort_by_date_perm.
Qed.

Lemma ordering_nil_inv items : ordering items = [] → items = [].
Proof.
  intros H. apply Permutation_nil_r. rewrite <- H.
  symmetry. apply ordering_perm.
Qed.

Lemma sorted_lookup_le (l : list FeedItem.t) i j a b :
  StronglySorted by_date l →
  l !! i = Some a → l !! j = Some b → (i < j)%nat → date_key a ≤ date_key b.
Proof.
  intros Hs. revert i j. induction Hs as [|x r Hr IH Hx]; intros i j Ha Hb Hij.
  - done.
  - destruct j as [|j]; [lia|]. destruct i as [|i]; simpl in *.
    + injection Ha as <-. rewrite Forall_forall in Hx.
      apply Hx. eapply list_elem_of_lookup_2. exact Hb.
    + eapply IH; eauto. lia.
Qed.

Lemma sorted_last_max (l : list FeedItem.t) x y :
  StronglySorted by_date l → last l = Some x → y ∈ l → date_key y ≤ date_key x.
Proof.
  intros Hs Hx Hy. rewrite last_lookup in Hx.
  apply list_elem_of_lookup in Hy as [i Hi].
  destruct (decide (i = pred (length l))) as [->|Hne].
  - rewrite Hx in Hi. injection Hi as ->. lia.
  - apply lookup_lt_Some in Hi as Hlt.
    eapply sorted_lookup_le; eauto. lia.
Qed.

Lemma ordering_sorted items :
  existsb has_date items = true → StronglySorted by_date (ordering items).
Proof. unfold ordering. intros ->. apply sort_by_date_sorted. Qed.

Lemma ordering_undated items :
  existsb has_date items = false → ordering items = items.
Proof. unfold ordering. by intros ->. Qed.

(** C3: on a non-empty item list, with [lastItemId] and [lastItemDate]
    both absent, [diffItems] reports no new item and returns as
    [latestItem] the last element of the ordered list; that element is
    one of the items and, when some item carries a date, no item is
    dated later. *)
Theorem diffItems_first_check items :
  items ≠ [] →
  newItems (diffItems items None None) = []
  ∧ latestItem (diffItems items None None) = last (ordering items)
  ∧ (∃ l, latestItem (diffItems items None None) = Some l ∧ l ∈ items
          ∧ (existsb has_date items = true →
             ∀ it, it ∈ items → date_key it ≤ date_key l)).
Proof.
  intros Hne. destruct items as [|x r]; [done|].
  cbn [diffItems Truthy.str Truthy.num negb andb newItems latestItem].
  split; [done|]. split; [done|].
  destruct (last (ordering (x :: r))) as [l|] eqn:Hl.
  - exists l. split; [done|]. split.
    + rewrite <- (ordering_perm (x :: r)). by apply last_Some_elem_of.
    + intros Hd it Hit. eapply sorted_last_max; eauto.
      * by apply ordering_sorted.
      * by rewrite ordering_perm.
  - apply last_None in Hl. by apply ordering_nil_inv in Hl.
Qed.

Lemma diffItems_first_check_witness :
  [Sample.day2; Sample.day1] ≠ []
  ∧ newItems (diffItems [Sample.day2; Sample.day1] None None) = []
  ∧ latestItem (diffItems [Sample.day2; Sample.day1] None None)
    = Some Sample.day2.
Proof.
  split; [done|].
  destruct (diffItems_first_check [Sample.day2; Sample.day1]) as (Hn & Hl & _);
    [done|].
  split; [exact Hn|]. rewrite Hl. reflexivity.
Defined.

(** C4, as stated, fails: an item dated before 1970 is ordered before an
    item without a date. *)
Lemma ordering_undated_not_lowest :
  existsb has_date [Sample.undated; Sample.year1969] = true
  ∧ ordering [Sample.undated; Sample.year1969] = [Sample.year1969; Sample.undated]
  ∧ ¬ Stated.undated_lowest (ordering [Sample.undated; Sample.year1969]).
Proof.
  split; [reflexivity|]. split; [reflexivity|].
  intros H.
  specialize (H 1%nat 0%nat Sample.undated Sample.year1969).
  cbv in H. specialize (H eq_refl eq_refl eq_refl (ex_intro _ _ eq_refl)).
  lia.
Qed.

(** C4, amended: when some item carries a date the ordering step is the
    stable ascending sort by date in which an item without a date counts
    as dated 0: it is a rearrangement of the items, ascending in
    [date ?? 0], that keeps the source order among items of equal key, so
    an undated item never follows an item with a positive date.  When no
    item carries a date the source order is kept. *)
Theorem ordering_stable_sort items :
  (existsb has_date items = true →
     ordering items ≡ₚ items
     ∧ StronglySorted by_date (ordering items)
     ∧ (∀ k, filter (λ it, date_key it = k) (ordering items)
             = filter (λ it, date_key it = k) items)
     ∧ (∀ i j a b d, ordering items !! i = Some a → ordering items !! j = Some b →
                     date a = None → date b = Some d → 0 < d → (i < j)%nat))
  ∧ (existsb has_date items = false → ordering items = items).
Proof.
  split; [|apply ordering_undated].
  intros Hd. split; [apply ordering_perm|].
  pose proof (ordering_sorted items Hd) as Hs.
  split; [exact Hs|]. split.
  - intros k. unfold ordering. rewrite Hd. apply sort_by_date_stable.
  - intros i j a b d Ha Hb Hna Hdb Hpos.
    destruct (decide (i < j)%nat) as [|Hge]; [done|].
    assert (i = j ∨ (j < i)%nat) as [->|Hlt] by lia.
    + rewrite Ha in Hb. injection Hb as ->. congruence.
    + pose proof (sorted_lookup_le _ _ _ _ _ Hs Hb Ha Hlt) as Hle.
      unfold date_key in Hle. rewrite Hna, Hdb in Hle. simpl in Hle. lia.
Qed.

Lemma ordering_stable_sort_witness :
  existsb has_date [Sample.day2; Sample.undated; Sample.day1] = true
  ∧ ordering [Sample.day2; Sample.undated; Sample.day1]
    ≡ₚ [Sample.day2; Sample.undated; Sample.day1]
  ∧ existsb has_date [Sample.undated] = false
  ∧ ordering [Sample.undated] = [Sample.undated].
Proof.
  split; [reflexivity|]. split.
  - apply (ordering_stable_sort [Sample.day2; Sample.undated; Sample.day1]).
    reflexivity.
  - split; [reflexivity|].
    apply (ordering_stable_sort [Sample.undated]). reflexivity.
Defined.
Lemma findIndex_Some lastId (l : list FeedItem.t) index :
  findIndex lastId l = Some index →
  ∃ x, l !! index = Some x ∧ id x = lastId
       ∧ ∀ j y, l !! j = Some y → (j < index)%nat → id y ≠ lastId.
Proof.
  unfold findIndex. intros H.
  destruct (list_find _ l) as [[i x]|] eqn:Hf; [|done].
  injection H as <-. apply list_find_Some in Hf as (Hx & Hid & Hmin).
  exists x. eauto.
Qed.

Lemma findIndex_None lastId (l : list FeedItem.t) :
  (∀ it, it ∈ l → id it ≠ lastId) → findIndex lastId l = None.
Proof.
  intros H. unfold findIndex.
  destruct (list_find _ l) as [[i x]|] eqn:Hf; [|done].
  apply list_find_Some in Hf as (Hx & Hid & _).
  exfalso. eapply H; [|exact Hid]. eapply list_elem_of_lookup_2. exact Hx.
Qed.

Lemma found_last_is_latest lastId (l : list FeedItem.t) index :
  findIndex lastId l = Some index → drop (S index) l = [] →
  ∃ x, last l = Some x ∧ id x = lastId.
Proof.
  intros Hf Hd. apply findIndex_Some in Hf as (x & Hx & Hid & _).
  exists x. split; [|done]. rewrite last_lookup.
  apply lookup_lt_Some in Hx as Hlt.
  apply (f_equal length) in Hd. rewrite length_drop in Hd. simpl in Hd.
  replace (pred (length l)) with index by lia. done.
Qed.

Lemma sorted_filter (P : FeedItem.t → Prop) `{∀ x, Decision (P x)} l :
  StronglySorted by_date l → StronglySorted by_date (filter P l).
Proof.
  induction 1 as [|x r Hr IH Hx]; [constructor|].
  rewrite filter_cons. case_decide; [|done].
  constructor; [done|].
  rewrite Forall_forall in Hx |- *. intros y Hy.
  apply list_elem_of_filter in Hy as [_ Hy]. by apply Hx.
Qed.

Lemma undated_none_newer d items :
  existsb has_date items = false → filter (newer_than d) items = [].
Proof.
  induction items as [|x r IH]; [done|]. simpl.
  intros [Hx Hr]%orb_false_iff.
  rewrite filter_cons, IH by done.
  case_decide as Hn; [|done].
  unfold newer_than, has_date in *. destruct (date x); done.
Qed.

Lemma length_eqb_0 {A} (l : list A) : (length l =? 0)%nat = bool_decide (l = []).
Proof. destruct l; reflexivity. Qed.

(** C1, as stated, fails: the watermark id is that of the last item of
    the ordered list, and with an older [lastItemDate] the date fallback
    reports that very item as new. *)
Lemma diffItems_known_id_date_fallback :
  findIndex "day2" (ordering [Sample.day1; Sample.day2]) = Some 1%nat
  ∧ drop 2 (ordering [Sample.day1; Sample.day2]) = []
  ∧ newItems (diffItems [Sample.day1; Sample.day2] (Some "day2") (Some 86400000))
    = [Sample.day2].
Proof. repeat split. Qed.

(** C1, amended: let [lastItemId] be non-empty and equal to the id of
    some item, the first of them at position [index] of the ordered
    list.  If an item follows that position, or [lastItemDate] is absent
    or zero, [newItems] is exactly the items strictly after it, in order.
    If no item follows it and [lastItemDate] is set and not zero,
    [newItems] is the items of the ordered list with a non-zero date
    strictly greater than [lastItemDate]. *)
Theorem diffItems_after_known_id items lastId lastDate index :
  lastId ≠ "" →
  findIndex lastId (ordering items) = Some index →
  (drop (S index) (ordering items) ≠ [] ∨ Truthy.num lastDate = false →
     newItems (diffItems items (Some lastId) lastDate)
     = drop (S index) (ordering items))
  ∧ (drop (S index) (ordering items) = [] →
     ∀ d, lastDate = Some d → d ≠ 0 →
       newItems (diffItems items (Some lastId) lastDate)
       = filter (newer_than d) (ordering items)).
Proof.
  intros Hid Hf.
  assert (Truthy.str (Some lastId) = true) as Hts.
  { unfold Truthy.str. apply negb_true_iff, String.eqb_neq. exact Hid. }
  destruct items as [|x r].
  { unfold ordering in Hf. simpl in Hf. done. }
  unfold diffItems. rewrite Hts, Hf. cbn [negb andb].
  set (sorted := ordering (x :: r)) in *.
  destruct (drop (S index) sorted) as [|a after] eqn:Hdrop.
  - (* nothing follows the matched item: it is the latest *)
    destruct (found_last_is_latest _ _ _ Hf Hdrop) as (l & Hl & Hlid).
    rewrite Hl. cbn [length Nat.eqb andb].
    split.
    + intros [?|Hnum]; [done|].
      destruct lastDate as [d|]; rewrite ?Hnum; cbn [length Nat.eqb andb];
        rewrite Hlid, bool_decide_eq_false_2; auto.
    + intros _ d -> Hd.
      assert (Truthy.num (Some d) = true) as ->.
      { unfold Truthy.num. apply negb_true_iff, Z.eqb_neq. exact Hd. }
      cbn [newItems]. rewrite length_eqb_0.
      case_bool_decide as He; [|done].
      rewrite Hlid, bool_decide_eq_false_2 by auto. done.
  - split; [|done]. intros _.
    destruct lastDate as [d|]; cbn [length Nat.eqb andb];
      destruct (last sorted); reflexivity.
Qed.

Lemma diffItems_after_known_id_witness :
  "day1" ≠ ""
  ∧ findIndex "day1" (ordering [Sample.day3; Sample.day1; Sample.day2]) = Some 0%nat
  ∧ newItems (diffItems [Sample.day3; Sample.day1; Sample.day2]
                (Some "day1") (Some 86400000))
    = [Sample.day2; Sample.day3].
Proof.
  split; [done|]. split; [reflexivity|].
  destruct (diffItems_after_known_id [Sample.day3; Sample.day1; Sample.day2]
              "day1" (Some 86400000) 0%nat) as [H _]; [done|reflexivity|].
  rewrite H; [reflexivity|]. left. discriminate.
Defined.

(** C2, as stated, fails: no item is dated after [lastItemDate], yet the
    latest item is reported as new. *)
Lemma diffItems_date_fallback_not_empty :
  filter (Stated.dated_after 172800000) (ordering [Sample.day1]) = []
  ∧ newItems (diffItems [Sample.day1] None (Some 172800000)) = [Sample.day1].
Proof. split; reflexivity. Qed.

(** C2, amended: let no item have [lastItemId] as its id (or let it be
    absent) and let [lastItemDate] be set and not zero.  If some item has
    a non-zero date strictly greater than [lastItemDate], [newItems] is
    exactly those items, in ascending date order.  If none has,
    [newItems] is the single latest item of the ordered list, and is
    empty only for an empty item list. *)
Theorem diffItems_date_fallback items lastId d :
  (∀ it, it ∈ items → Some (id it) ≠ lastId) →
  d ≠ 0 →
  let newer := filter (newer_than d) (ordering items) in
  (newer ≠ [] → newItems (diffItems items lastId (Some d)) = newer)
  ∧ (newer = [] →
     newItems (diffItems items lastId (Some d))
     = match last (ordering items) with Some l => [l] | None => [] end)
  ∧ (∀ it, it ∈ newer ↔ it ∈ items ∧ newer_than d it)
  ∧ StronglySorted by_date newer.
Proof.
  intros Hnot Hd newer.
  assert (Truthy.num (Some d) = true) as Hnum.
  { unfold Truthy.num. apply negb_true_iff, Z.eqb_neq. exact Hd. }
  assert (newItems (diffItems items lastId (Some d))
          = if bool_decide (newer = []) then
              match last (ordering items) with Some l => [l] | None => [] end
            else newer) as Hmain.
  { destruct items as [|x r]; [reflexivity|].
    unfold diffItems. rewrite Hnum. rewrite andb_false_r.
    assert (match lastId with
            | Some lid =>
                if Truthy.str lastId then
                  match findIndex lid (ordering (x :: r)) with
                  | Some index => drop (S index) (ordering (x :: r))
                  | None => []
                  end
                else []
            | None => []
            end = []) as ->.
    { destruct lastId as [lid|]; [|done].
      destruct (Truthy.str (Some lid)); [|done].
      rewrite findIndex_None; [done|].
      intros it Hit Heq. rewrite ordering_perm in Hit.
      apply (Hnot it Hit). by rewrite Heq. }
    cbn [length Nat.eqb andb newItems]. fold newer.
    rewrite length_eqb_0.
    destruct (last (ordering (x :: r))) as [l|] eqn:Hl.
    - case_bool_decide as He; [|done].
      rewrite bool_decide_eq_true_2; [done|].
      apply Hnot. rewrite <- (ordering_perm (x :: r)).
      by apply last_Some_elem_of.
    - apply last_None in Hl. subst newer. rewrite Hl. done. }
  split; [|split; [|split]].
  - intros Hne. rewrite Hmain, bool_decide_eq_false_2; done.
  - intros He. rewrite Hmain, bool_decide_eq_true_2; done.
  - intros it. subst newer. rewrite list_elem_of_filter, ordering_perm. tauto.
  - subst newer. unfold ordering.
    destruct (existsb has_date items) eqn:Hex.
    + apply sorted_filter, sort_by_date_sorted.
    + (* no item carries a date: nothing is newer *)
      rewrite undated_none_newer; [constructor|done].
Qed.
Lemma diffItems_date_fallback_witness :
  (∀ it, it ∈ [Sample.day1; Sample.day2; Sample.day3] →
         Some (id it) ≠ Some "rotated")
  ∧ 172800000 ≠ 0
  ∧ newItems (diffItems [Sample.day1; Sample.day2; Sample.day3]
                (Some "rotated") (Some 172800000))
    = [Sample.day3].
Proof.
  assert (∀ it, it ∈ [Sample.day1; Sample.day2; Sample.day3] →
                Some (id it) ≠ Some "rotated") as Hnot.
  { intros it Hit. repeat (apply elem_of_cons in Hit as [->|Hit]; [done|]).
    by apply elem_of_nil in Hit. }
  split; [exact Hnot|]. split; [done|].
  destruct (diffItems_date_fallback [Sample.day1; Sample.day2; Sample.day3]
              (Some "rotated") 172800000 Hnot) as [H _]; [done|].
  rewrite H; [reflexivity|]. discriminate.
Defined.

End DiffFacts.

(** ** [diffItems] and the arrays it is given *)

Module DiffMemFacts.
Import FeedItem DiffMem.

Lemma alloc_fresh xs (h : heap) : h !! (alloc xs h).1 = None.
Proof.
  unfold alloc. simpl. apply not_elem_of_dom. apply is_fresh.
Qed.

Lemma alloc_read xs (h : heap) : read (alloc xs h).1 (alloc xs h).2 = xs.
Proof. unfold alloc, read. simpl. by rewrite lookup_insert_eq. Qed.

(** Allocation leaves every array that exists alone. *)
Lemma alloc_frame xs (h : heap) r ys :
  h !! r = Some ys → (alloc xs h).2 !! r = Some ys.
Proof.
  intros Hr. unfold alloc. simpl. rewrite lookup_insert_ne; [done|].
  intros <-. pose proof (alloc_fresh xs h) as Hf. unfold alloc in Hf.
  simpl in Hf. congruence.
Qed.

Lemma alloc_frame_read xs (h : heap) r ys :
  h !! r = Some ys → read r (alloc xs h).2 = ys.
Proof. intros Hr. unfold read. by erewrite alloc_frame. Qed.

Lemma extends_refl h : extends h h.
Proof. by intros r ys. Qed.

Lemma extends_alloc xs h h' : extends h h' → extends h (alloc xs h').2.
Proof. intros He r ys Hr. apply alloc_frame. by apply He. Qed.
Lemma extends_trans h1 h2 h3 : extends h1 h2 → extends h2 h3 → extends h1 h3.
Proof. intros H12 H23 r ys Hr. by apply H23, H12. Qed.

Lemma alloc_lookup xs (h : heap) : (alloc xs h).2 !! (alloc xs h).1 = Some xs.
Proof. unfold alloc. simpl. by rewrite lookup_insert_eq. Qed.

Lemma read_Some (h : heap) r ys : h !! r = Some ys → read r h = ys.
Proof. unfold read. by intros ->. Qed.

(** The copy made by the ordering step, sorted in place or not. *)
Lemma ordering_step (h : heap) xs :
  let '(copy, h1) := alloc xs h in
  let '(sorted, h2) :=
    if existsb Diff.has_date xs then sort_in_place copy h1 else (copy, h1) in
  extends h h2 ∧ h2 !! sorted = Some (Diff.ordering xs).
Proof.
  destruct (alloc xs h) as [copy h1] eqn:Ha.
  pose proof (alloc_fresh xs h) as Hfresh.
  pose proof (alloc_lookup xs h) as Hcopy.
  pose proof (extends_alloc xs h h (extends_refl h)) as Hext.
  rewrite Ha in Hfresh, Hcopy, Hext. simpl in *.
  unfold Diff.ordering. destruct (existsb Diff.has_date xs).
  - unfold sort_in_place. split.
    + intros r ys Hr. rewrite lookup_insert_ne; [by apply Hext|].
      intros <-. congruence.
    + rewrite lookup_insert_eq. by rewrite (read_Some _ _ _ Hcopy).
  - done.
Qed.

(** A step that either allocates a new array or keeps the one it has. *)
Lemma keep_or_alloc (c : bool) ys r zs (h0 h : heap) :
  extends h0 h → h !! r = Some zs →
  extends h0 (if c then alloc ys h else (r, h)).2
  ∧ extends h (if c then alloc ys h else (r, h)).2
  ∧ (if c then alloc ys h else (r, h)).2
      !! (if c then alloc ys h else (r, h)).1
    = Some (if c then ys else zs).
Proof.
  intros Hext Hr. destruct c; simpl.
  - split; [by apply extends_alloc|]. split.
    + apply extends_alloc, extends_refl.
    + by rewrite lookup_insert_eq.
  - split; [done|]. split; [apply extends_refl|done].
Qed.

(** The heap version computes what [Diff.diffItems] computes, and every
    array that existed before the call is as it was. *)
Lemma diffItems_spec (h : heap) items lastId lastDate xs :
  h !! items = Some xs →
  extends h (diffItems items lastId lastDate h).2
  ∧ read (newItems (diffItems items lastId lastDate h).1)
         (diffItems items lastId lastDate h).2
    = Diff.newItems (Diff.diffItems xs lastId lastDate)
  ∧ latestItem (diffItems items lastId lastDate h).1
    = Diff.latestItem (Diff.diffItems xs lastId lastDate).
Proof.
  intros Hitems. unfold diffItems. rewrite (read_Some _ _ _ Hitems).
  destruct xs as [|x xs'].
  { simpl. split; [apply extends_alloc, extends_refl|].
    split; [|done]. unfold read. by rewrite lookup_insert_eq. }
  cbn [length Nat.eqb].
  pose proof (ordering_step h (x :: xs')) as Hord.
  destruct (alloc (x :: xs') h) as [copy h1].
  destruct (if existsb Diff.has_date (x :: xs') then sort_in_place copy h1
            else (copy, h1)) as [sorted h2].
  destruct Hord as [Hext2 Hsorted].
  rewrite (read_Some _ _ _ Hsorted).
  unfold Diff.diffItems.
  destruct (negb (Truthy.str lastId) && negb (Truthy.num lastDate)).
  { simpl. split; [by apply extends_alloc|].
    split; [|done]. unfold read. by rewrite lookup_insert_eq. }
  (* newItems = [] *)
  pose proof (keep_or_alloc true [] sorted _ h h2 Hext2 Hsorted)
    as (Hext3 & Hext23 & Hn0).
  cbn [fst snd] in Hext3, Hext23, Hn0.
  destruct (alloc [] h2) as [newItems0 h3]. cbn [fst snd] in *.
  pose proof (Hext23 _ _ Hsorted) as Hsorted3.
  rewrite (read_Some _ _ _ Hsorted3).
  (* the id strategy *)
  set (pure1 := match lastId with
                | Some lid =>
                    if Truthy.str lastId then
                      match Diff.findIndex lid (Diff.ordering (x :: xs')) with
                      | Some index => drop (S index) (Diff.ordering (x :: xs'))
                      | None => []
                      end
                    else []
                | None => []
                end).
  match goal with
  | |- context [let '(newItems1, h) := ?e in _] => set (stage1 := e)
  end.
  assert (extends h stage1.2 ∧ extends h3 stage1.2
          ∧ stage1.2 !! stage1.1 = Some pure1) as (Hext4 & Hext34 & Hn1).
  { subst stage1 pure1. destruct lastId as [lid|]; [|by auto using extends_refl].
    destruct (Truthy.str (Some lid)); [|by auto using extends_refl].
    destruct (Diff.findIndex lid _) as [index|]; [|by auto using extends_refl].
    apply (keep_or_alloc true _ newItems0 [] h h3); done. }
  destruct stage1 as [newItems1 h4]. cbn [fst snd] in *.
  pose proof (Hext34 _ _ Hsorted3) as Hsorted4.
  rewrite (read_Some _ _ _ Hn1), (read_Some _ _ _ Hsorted4).
  (* the date strategy *)
  set (pure2 := match lastDate with
                | Some d =>
                    if (length pure1 =? 0)%nat && Truthy.num lastDate
                    then filter (Diff.newer_than d) (Diff.ordering (x :: xs'))
                    else pure1
                | None => pure1
                end).
  match goal with
  | |- context [let '(newItems2, h) := ?e in _] => set (stage2 := e)
  end.
  assert (extends h stage2.2 ∧ extends h4 stage2.2
          ∧ stage2.2 !! stage2.1 = Some pure2) as (Hext5 & Hext45 & Hn2).
  { subst stage2 pure2. destruct lastDate as [d|]; [|by auto using extends_refl].
    apply (keep_or_alloc _ _ newItems1 pure1 h h4); done. }
  destruct stage2 as [newItems2 h5]. cbn [fst snd] in *.
  rewrite (read_Some _ _ _ Hn2).
  (* the single-item catch-up *)
  set (latest := last (Diff.ordering (x :: xs'))).
  set (pure3 := match latest with
                | Some l =>
                    if (length pure2 =? 0)%nat
                       && bool_decide (Some (id l) ≠ lastId)
                    then [l]
                    else pure2
                | None => pure2
                end).
  match goal with
  | |- context [let '(newItems3, h) := ?e in _] => set (stage3 := e)
  end.
  assert (extends h stage3.2 ∧ extends h5 stage3.2
          ∧ stage3.2 !! stage3.1 = Some pure3) as (Hext6 & _ & Hn3).
  { subst stage3 pure3. destruct latest as [l|]; [|by auto using extends_refl].
    apply (keep_or_alloc _ _ newItems2 pure2 h h5); done. }
  destruct stage3 as [newItems3 h6]. cbn [fst snd newItems latestItem] in *.
  split; [done|]. split; [|done].
  by rewrite (read_Some _ _ _ Hn3).
Qed.

(** C9: [diffItems] leaves the array it is given, and every other array
    that exists when it is called, with the same elements in the same
    order; what it returns is what [Diff.diffItems] computes from those
    elements. *)
Theorem diffItems_input_unchanged (h : heap) items lastId lastDate xs :
  h !! items = Some xs →
  (diffItems items lastId lastDate h).2 !! items = Some xs
  ∧ (∀ r ys, h !! r = Some ys →
             (diffItems items lastId lastDate h).2 !! r = Some ys)
  ∧ read (newItems (diffItems items lastId lastDate h).1)
         (diffItems items lastId lastDate h).2
    = Diff.newItems (Diff.diffItems xs lastId lastDate).
Proof.
  intros Hitems.
  destruct (diffItems_spec h items lastId lastDate xs Hitems) as (Hext & Hnew & _).
  split; [by apply Hext|]. split; [exact Hext|exact Hnew].
Qed.

Lemma diffItems_input_unchanged_witness :
  Sample.arrays !! 7%nat = Some [Sample.day2; Sample.day1]
  ∧ (diffItems 7 (Some "day1") (Some 86400000) Sample.arrays).2 !! 7%nat
    = Some [Sample.day2; Sample.day1]
  ∧ read (newItems (diffItems 7 (Some "day1") (Some 86400000) Sample.arrays).1)
         (diffItems 7 (Some "day1") (Some 86400000) Sample.arrays).2
    = [Sample.day2].
Proof.
  assert (Sample.arrays !! 7%nat = Some [Sample.day2; Sample.day1]) as H
    by reflexivity.
  split; [exact H|].
  destruct (diffItems_input_unchanged Sample.arrays 7 (Some "day1")
              (Some 86400000) _ H) as (Hin & _ & Hnew).
  split; [exact Hin|]. rewrite Hnew. reflexivity.
Defined.

End DiffMemFacts.

(** ** Item identity *)

Module NormalizeFacts.
Import Js Normalize.

(** C5: the code gives an RSS item whose [guid] element is there and
    empty the empty string as its id, where the first non-empty value
    among guid, link and title is its link.  [diffItems] itself reads
    the empty id as no id: with it as the watermark the first-check
    branch is taken, and a later item of the feed is not reported. *)
Theorem normalizeRssItem_empty_guid :
  normalizeRssItem Sample.no_dates Sample.empty_guid
  = Some {| item_id := Str "";
            item_title := "Release notes";
            item_link := Str "https://example.com/notes";
            item_date := None;
            item_summary := None |}
  ∧ Stated.first_nonempty
      [pickText (get "guid" Sample.empty_guid);
       Some "https://example.com/notes";
       Some "Release notes"]
    = Some "https://example.com/notes"
  ∧ Diff.newItems
      (Diff.diffItems
         (as_FeedItem
            <$> omap (normalizeRssItem Sample.no_dates)
                  [Sample.empty_guid; Sample.empty_guid_later])
         (Some "") None)
    = [].
Proof. repeat split. Qed.

End NormalizeFacts.

(** ** The guild index *)

Module IndexFacts.
Import Kv Index.

Lemma get_ids_put_eq k ids kv : get_ids (put k (JIds ids) kv) k = Some ids.
Proof. unfold get_ids, put. simpl. by rewrite lookup_insert_eq. Qed.

Lemma data_put_ne k k' v kv : k ≠ k' → data (put k v kv) !! k' = data kv !! k'.
Proof. intros Hne. unfold put. simpl. by rewrite lookup_insert_ne. Qed.

Lemma index_ids_put g ids kv :
  index_ids (put (guildIndexKey g) (JIds ids) kv) g = ids.
Proof. unfold index_ids. by rewrite get_ids_put_eq. Qed.

Lemma filter_all {A} (P : A → Prop) `{∀ x, Decision (P x)} (l : list A) :
  (∀ x, x ∈ l → P x) → filter P l = l.
Proof.
  induction l as [|x r IH]; intros Hall; [done|].
  rewrite filter_cons_True by (apply Hall; apply elem_of_cons; by left).
  f_equal. apply IH. intros y Hy. apply Hall. apply elem_of_cons. by right.
Qed.

Lemma filter_length_eq {A} (P : A → Prop) `{∀ x, Decision (P x)} (l : list A) :
  length (filter P l) = length l → filter P l = l.
Proof.
  intros Hlen. apply filter_all. intros x Hx.
  destruct (decide (P x)) as [|Hn]; [done|].
  pose proof (length_filter_lt P l x Hx Hn). lia.
Qed.

(** What [addToIndex] leaves in the index. *)
Lemma addToIndex_ids kv g subId :
  index_ids (addToIndex kv g subId) g
  = if bool_decide (subId ∉ index_ids kv g)
    then (index_ids kv g ++ [subId])%list
    else index_ids kv g.
Proof.
  unfold addToIndex. fold (index_ids kv g).
  case_bool_decide; [|done]. by rewrite index_ids_put.
Qed.

(** What [removeFromIndex] leaves in the index. *)
Lemma removeFromIndex_ids kv g subId :
  index_ids (removeFromIndex kv g subId) g
  = filter (λ id, id ≠ subId) (index_ids kv g).
Proof.
  unfold removeFromIndex. fold (index_ids kv g).
  case_bool_decide as Hlen.
  - by rewrite index_ids_put.
  - symmetry. apply filter_length_eq. lia.
Qed.

(** C6, as stated, fails: the id was already listed, adding it writes
    nothing, and removing it takes it out of the index. *)
Lemma add_then_remove_listed_id :
  ("a" ∈ index_ids Sample.indexed "g1")
  ∧ ("a" ∉ index_ids (removeFromIndex (addToIndex Sample.indexed "g1" "a") "g1" "a")
                     "g1").
Proof.
  split.
  - vm_compute. left.
  - rewrite removeFromIndex_ids. intros [Hne _]%list_elem_of_filter. done.
Qed.

(** C6, amended: for every state of the store and every subscription id
    that the guild's index does not list, [addToIndex] followed by
    [removeFromIndex] for that id leaves the index with exactly the ids it
    had, in the same order.  (For an id that is listed already, the pair
    removes it.)  Nothing but the index record of the guild is written. *)
Theorem add_then_remove_restores kv g subId :
  (subId ∉ index_ids kv g →
     index_ids (removeFromIndex (addToIndex kv g subId) g subId) g
     = index_ids kv g)
  ∧ (subId ∈ index_ids kv g →
     index_ids (removeFromIndex (addToIndex kv g subId) g subId) g
     = filter (λ id, id ≠ subId) (index_ids kv g))
  ∧ (∀ k, k ≠ guildIndexKey g →
          data (removeFromIndex (addToIndex kv g subId) g subId) !! k
          = data kv !! k).
Proof.
  split; [|split].
  - intros Hnot. rewrite removeFromIndex_ids, addToIndex_ids.
    rewrite bool_decide_eq_true_2 by done.
    rewrite filter_app, filter_cons_False, filter_nil by (by intros H).
    rewrite app_nil_r. apply filter_all. intros x Hx ->. done.
  - intros Hin. rewrite removeFromIndex_ids, addToIndex_ids.
    rewrite bool_decide_eq_false_2; [done|]. intros H. by apply H.
  - intros k Hk. unfold removeFromIndex, addToIndex.
    repeat case_bool_decide; (rewrite ?data_put_ne by done); done.
Qed.

Lemma add_then_remove_restores_witness :
  ("b" ∉ index_ids Sample.indexed "g1")
  ∧ index_ids (removeFromIndex (addToIndex Sample.indexed "g1" "b") "g1" "b") "g1"
    = ["a"].
Proof.
  assert ("b" ∉ index_ids Sample.indexed "g1") as Hnot.
  { vm_compute. intros H. apply elem_of_cons in H as [H|H]; [done|].
    by apply elem_of_nil in H. }
  split; [exact Hnot|].
  destruct (add_then_remove_restores Sample.indexed "g1" "b") as [H _].
  rewrite (H Hnot). reflexivity.
Defined.
(** *** Listing keys *)

Lemma page_limit_pos : (0 < page_limit)%nat.
Proof. unfold page_limit. lia. Qed.

Lemma keys_with_prefix_perm kv prefix :
  keys_with_prefix kv prefix
  ≡ₚ filter (has_prefix prefix) (elements (dom (data kv))).
Proof. apply merge_sort_Permutation. Qed.

Lemma elem_of_keys_with_prefix kv prefix k :
  k ∈ keys_with_prefix kv prefix ↔ has_prefix prefix k ∧ is_Some (data kv !! k).
Proof.
  rewrite keys_with_prefix_perm, list_elem_of_filter, elem_of_elements, elem_of_dom.
  done.
Qed.

(** The loop returns every key from the cursor on, within its budget. *)
Lemma listAllKeys_loop_all kv prefix turns cur acc :
  (length (drop (default 0%nat cur) (keys_with_prefix kv prefix)) < turns)%nat →
  listAllKeys_loop turns kv prefix cur acc
  = (acc ++ drop (default 0%nat cur) (keys_with_prefix kv prefix))%list.
Proof.
  revert cur acc. induction turns as [|turns IH]; intros cur acc Hlt; [lia|].
  cbn [listAllKeys_loop]. unfold list_page. cbn [keys list_complete cursor].
  set (rest := drop (default 0%nat cur) (keys_with_prefix kv prefix)) in *.
  destruct (Nat.leb_spec (length rest) page_limit) as [Hle|Hgt].
  - by rewrite take_ge.
  - rewrite IH.
    + simpl (default _ (Some _)). rewrite <- app_assoc. f_equal.
      rewrite <- drop_drop. fold rest. by rewrite take_drop.
    + simpl (default _ (Some _)).
      rewrite <- drop_drop. fold rest. rewrite length_drop.
      pose proof page_limit_pos. lia.
Qed.

Lemma listAllKeys_all kv prefix :
  listAllKeys kv prefix = keys_with_prefix kv prefix.
Proof.
  unfold listAllKeys. rewrite listAllKeys_loop_all; [done|].
  cbn [default]. rewrite drop_0. lia.
Qed.

Lemma has_prefix_app p k : has_prefix p k ↔ ∃ rest, k = p +:+ rest.
Proof.
  unfold has_prefix. revert k. induction p as [|a p IH]; intros k.
  - split; [intros _; by exists k|]. intros _. by destruct k.
  - destruct k as [|b k]; simpl.
    + split; [done|]. intros [rest Hr]. discriminate.
    + destruct (Ascii.ascii_dec a b) as [->|Hne].
      * rewrite IH. split; intros [rest Hr]; exists rest.
        -- by rewrite Hr.
        -- by injection Hr.
      * split; [done|]. intros [rest Hr]. injection Hr as ??. done.
Qed.

Lemma string_app_assoc (a b c : string) : (a +:+ b) +:+ c = a +:+ (b +:+ c).
Proof.
  induction a as [|x a IH]; [done|].
  change (String x ((a +:+ b) +:+ c) = String x (a +:+ (b +:+ c))).
  by rewrite IH.
Qed.

Lemma tenant_prefix_key g k :
  has_prefix ("sub:g:" +:+ g +:+ ":") k ↔ ∃ subId, k = subscriptionKey g subId.
Proof.
  rewrite has_prefix_app. unfold subscriptionKey.
  split; intros [rest ->]; exists rest.
  - by rewrite !string_app_assoc.
  - by rewrite !string_app_assoc.
Qed.

(** *** Reading the records of a guild *)

Lemma length_omap_filter {A B} (f : A → option B) (l : list A) :
  length (omap f l) = length (filter (λ x, is_Some (f x)) l).
Proof.
  induction l as [|x r IH]; [done|]. cbn [omap list_omap].
  rewrite filter_cons. destruct (f x) as [y|] eqn:Hx.
  - rewrite decide_True by eauto. simpl. by rewrite IH.
  - rewrite decide_False by (by intros [? ?]). exact IH.
Qed.

Lemma length_omap_all {A B} (f : A → option B) (l : list A) :
  length (omap f l) = length l ↔ ∀ x, x ∈ l → is_Some (f x).
Proof.
  rewrite length_omap_filter. split.
  - intros Hlen x Hx. destruct (decide (is_Some (f x))) as [|Hn]; [done|].
    pose proof (length_filter_lt (λ x, is_Some (f x)) l x Hx Hn). lia.
  - intros Hall. by rewrite filter_all.
Qed.

Lemma listSubscriptionsByGuild_length kv g :
  length (listSubscriptionsByGuild kv g) = length (Stated.valid_record_keys kv g).
Proof.
  unfold listSubscriptionsByGuild, Stated.valid_record_keys.
  rewrite listAllKeys_all, length_omap_filter.
  rewrite keys_with_prefix_perm, list_filter_filter.
  f_equal. apply list_filter_iff. intros k. tauto.
Qed.

Lemma elem_of_listSubscriptionsByGuild kv g s :
  s ∈ listSubscriptionsByGuild kv g
  ↔ ∃ subId, get_sub kv (subscriptionKey g subId) = Some s.
Proof.
  unfold listSubscriptionsByGuild.
  rewrite listAllKeys_all, list_elem_of_omap. split.
  - intros (k & Hk & Hs). apply elem_of_keys_with_prefix in Hk as [Hp _].
    apply tenant_prefix_key in Hp as [subId ->]. by exists subId.
  - intros (subId & Hs). exists (subscriptionKey g subId). split; [|done].
    apply elem_of_keys_with_prefix. split.
    + apply tenant_prefix_key. by exists subId.
    + unfold get_sub in Hs. destruct (data kv !! _); [eauto|done].
Qed.

(** When the index holds no id, the listing is the scan of the guild's
    records, and it is written back as the index unless it is empty. *)
Lemma getSubscriptionsForGuild_fallback kv g :
  get_ids kv (guildIndexKey g) = None ∨ get_ids kv (guildIndexKey g) = Some [] →
  getSubscriptionsForGuild kv g
  = (listSubscriptionsByGuild kv g,
     if bool_decide (0 < length (listSubscriptionsByGuild kv g))%nat
     then put (guildIndexKey g)
              (JIds (Subscription.id <$> listSubscriptionsByGuild kv g)) kv
     else kv).
Proof.
  intros H. unfold getSubscriptionsForGuild.
  destruct H as [-> | ->]; by case_bool_decide.
Qed.

(** *** Reads that are rejected *)

Lemma json_lookup kv k : Worker.json kv → data kv !! k ≠ Some Corrupt.
Proof. intros Hj Hk. by apply (Hj k Corrupt Hk). Qed.

Lemma get_sub_returns kv k sub :
  Worker.get_sub kv k = inr sub → sub = get_sub kv k.
Proof.
  unfold Worker.get_sub. destruct (data kv !! k) as [[]|]; by intros [= <-].
Qed.

Lemma get_sub_throws kv k e :
  Worker.get_sub kv k = inl e →
  e = Worker.syntax_error ∧ data kv !! k = Some Corrupt.
Proof.
  unfold Worker.get_sub. destruct (data kv !! k) as [[]|]; try done.
  by intros [= <-].
Qed.

Lemma get_ids_returns kv k ids :
  Worker.get_ids kv k = inr ids → ids = get_ids kv k.
Proof.
  unfold Worker.get_ids. destruct (data kv !! k) as [[]|]; by intros [= <-].
Qed.

Lemma get_ids_throws kv k e :
  Worker.get_ids kv k = inl e →
  e = Worker.syntax_error ∧ data kv !! k = Some Corrupt.
Proof.
  unfold Worker.get_ids. destruct (data kv !! k) as [[]|]; try done.
  by intros [= <-].
Qed.

Lemma get_ids_reads kv k :
  data kv !! k ≠ Some Corrupt → Worker.get_ids kv k = inr (get_ids kv k).
Proof.
  unfold Worker.get_ids. intros Hk. by destruct (data kv !! k) as [[]|].
Qed.

Lemma get_all_returns kv keys subs :
  Worker.get_all kv keys = inr subs → subs = get_sub kv <$> keys.
Proof.
  revert subs. induction keys as [|k keys IH]; intros subs; cbn.
  { by intros [= <-]. }
  destruct (Worker.get_sub kv k) as [e|sub] eqn:Hk.
  { by destruct (Worker.get_all kv keys). }
  destruct (Worker.get_all kv keys) as [e|rest]; [done|].
  intros [= <-]. by rewrite (get_sub_returns _ _ _ Hk), (IH rest).
Qed.

Lemma get_all_throws kv keys e :
  Worker.get_all kv keys = inl e →
  e = Worker.syntax_error ∧ ∃ k, k ∈ keys ∧ data kv !! k = Some Corrupt.
Proof.
  induction keys as [|k keys IH]; cbn; [done|].
  destruct (Worker.get_sub kv k) as [e'|sub] eqn:Hk.
  - apply get_sub_throws in Hk as [-> Hk]. intros He. split.
    + by destruct (Worker.get_all kv keys); injection He as <-.
    + exists k. split; [apply elem_of_cons; by left|done].
  - destruct (Worker.get_all kv keys) as [e'|rest]; [|done].
    intros [= <-]. destruct IH as [-> (k' & Hin & Hc)]; [done|].
    split; [done|]. exists k'. split; [apply elem_of_cons; by right|done].
Qed.

Lemma present_fmap {A} (f : A → option Subscription.t) (l : list A) :
  Worker.present (f <$> l) = omap f l.
Proof.
  unfold Worker.present. induction l as [|x l IH]; [done|].
  cbn. rewrite IH. by destruct (f x).
Qed.

Lemma listSubscriptionsByGuild_returns kv g subs :
  Worker.listSubscriptionsByGuild kv g = inr subs →
  subs = listSubscriptionsByGuild kv g.
Proof.
  unfold Worker.listSubscriptionsByGuild, listSubscriptionsByGuild.
  destruct (Worker.get_all kv _) as [e|read] eqn:Hall; [done|].
  intros [= <-]. rewrite (get_all_returns _ _ _ Hall). apply present_fmap.
Qed.

Lemma listSubscriptionsByGuild_throws kv g e :
  Worker.listSubscriptionsByGuild kv g = inl e →
  e = Worker.syntax_error
  ∧ ∃ subId, data kv !! subscriptionKey g subId = Some Corrupt.
Proof.
  unfold Worker.listSubscriptionsByGuild.
  destruct (Worker.get_all kv _) as [e'|read] eqn:Hall; [|done].
  intros [= <-]. apply get_all_throws in Hall as [-> (k & Hin & Hc)].
  split; [done|]. rewrite listAllKeys_all in Hin.
  apply elem_of_keys_with_prefix in Hin as [Hp _].
  apply tenant_prefix_key in Hp as [subId ->]. by exists subId.
Qed.

(** When the listing returns, it returns what [Index]'s does. *)
Lemma getSubscriptionsForGuild_returns kv g subs kv' :
  Worker.getSubscriptionsForGuild kv g = (inr subs, kv') →
  getSubscriptionsForGuild kv g = (subs, kv').
Proof.
  unfold Worker.getSubscriptionsForGuild, getSubscriptionsForGuild.
  destruct (Worker.get_ids kv (guildIndexKey g)) as [e|stored] eqn:Hids; [done|].
  apply get_ids_returns in Hids as ->.
  destruct (get_ids kv (guildIndexKey g)) as [[|id index]|].
  - destruct (Worker.listSubscriptionsByGuild kv g) as [e|fallback] eqn:Hl;
      [done|].
    apply listSubscriptionsByGuild_returns in Hl as ->.
    by case_bool_decide; intros [= <- <-].
  - destruct (Worker.get_all kv _) as [e|read] eqn:Hall; [done|].
    apply get_all_returns in Hall as ->.
    rewrite <- list_fmap_compose, present_fmap. unfold compose.
    by case_bool_decide; intros [= <- <-].
  - destruct (Worker.listSubscriptionsByGuild kv g) as [e|fallback] eqn:Hl;
      [done|].
    apply listSubscriptionsByGuild_returns in Hl as ->.
    by case_bool_decide; intros [= <- <-].
Qed.

(** When the listing throws, it has written nothing, and the index
    record or a record under a key of the guild is not JSON. *)
Lemma getSubscriptionsForGuild_throws kv g e kv' :
  Worker.getSubscriptionsForGuild kv g = (inl e, kv') →
  kv' = kv ∧ e = Worker.syntax_error
  ∧ (data kv !! guildIndexKey g = Some Corrupt
     ∨ ∃ subId, data kv !! subscriptionKey g subId = Some Corrupt).
Proof.
  unfold Worker.getSubscriptionsForGuild.
  destruct (Worker.get_ids kv (guildIndexKey g)) as [e'|stored] eqn:Hids.
  { intros [= <- <-]. apply get_ids_throws in Hids as [-> Hc]. auto. }
  assert (∀ r : (Cycle.thrown + list Subscription.t) * Kv.t,
            match Worker.listSubscriptionsByGuild kv g with
            | inl e0 => (inl e0, kv)
            | inr fallback =>
                if bool_decide (0 < length fallback)%nat
                then (inr fallback,
                      put (guildIndexKey g)
                          (JIds (Subscription.id <$> fallback)) kv)
                else (inr fallback, kv)
            end = r → r = (inl e, kv') →
            kv' = kv ∧ e = Worker.syntax_error
            ∧ (data kv !! guildIndexKey g = Some Corrupt
               ∨ ∃ subId, data kv !! subscriptionKey g subId = Some Corrupt))
    as Hscan.
  { intros r Hr ->.
    destruct (Worker.listSubscriptionsByGuild kv g) as [e'|fallback] eqn:Hl.
    - injection Hr as <- <-.
      apply listSubscriptionsByGuild_throws in Hl as [-> Hc]. auto.
    - by case_bool_decide. }
  destruct stored as [[|id index]|].
  - intros H. by apply (Hscan _ eq_refl).
  - destruct (Worker.get_all kv _) as [e'|read] eqn:Hall.
    + intros [= <- <-].
      apply get_all_throws in Hall as [-> (k & Hin & Hc)].
      split; [done|]. split; [done|]. right.
      apply list_elem_of_fmap in Hin as (subId & -> & _). by exists subId.
    + by case_bool_decide.
  - intros H. by apply (Hscan _ eq_refl).
Qed.

(** After a listing that returned, the index record of the guild is
    JSON or is missing. *)
Lemma getSubscriptionsForGuild_index_json kv g subs kv' :
  Worker.getSubscriptionsForGuild kv g = (inr subs, kv') →
  data kv' !! guildIndexKey g ≠ Some Corrupt.
Proof.
  unfold Worker.getSubscriptionsForGuild.
  destruct (Worker.get_ids kv (guildIndexKey g)) as [e|stored] eqn:Hids; [done|].
  assert (data kv !! guildIndexKey g ≠ Some Corrupt) as Hk.
  { intros Hc. unfold Worker.get_ids in Hids. by rewrite Hc in Hids. }
  assert (∀ ids, data (put (guildIndexKey g) (JIds ids) kv) !! guildIndexKey g
                 ≠ Some Corrupt) as Hput.
  { intros ids. unfold put. cbn [data]. by rewrite lookup_insert_eq. }
  destruct stored as [[|id index]|].
  - destruct (Worker.listSubscriptionsByGuild kv g); [done|].
    case_bool_decide; intros [= <- <-]; [apply Hput|exact Hk].
  - destruct (Worker.get_all kv _); [done|].
    case_bool_decide; intros [= <- <-]; [apply Hput|exact Hk].
  - destruct (Worker.listSubscriptionsByGuild kv g); [done|].
    case_bool_decide; intros [= <- <-]; [apply Hput|exact Hk].
Qed.

Lemma addToIndex_returns kv g subId kv' :
  Worker.addToIndex kv g subId = (inr tt, kv') → addToIndex kv g subId = kv'.
Proof.
  unfold Worker.addToIndex, addToIndex.
  destruct (Worker.get_ids kv (guildIndexKey g)) as [e|stored] eqn:Hids; [done|].
  apply get_ids_returns in Hids as ->. by case_bool_decide; intros [= <-].
Qed.

Lemma addToIndex_reads kv g subId :
  data kv !! guildIndexKey g ≠ Some Corrupt →
  Worker.addToIndex kv g subId = (inr tt, addToIndex kv g subId).
Proof.
  intros Hk. unfold Worker.addToIndex, addToIndex.
  rewrite (get_ids_reads _ _ Hk). by case_bool_decide.
Qed.

Lemma removeFromIndex_returns kv g subId kv' :
  Worker.removeFromIndex kv g subId = (inr tt, kv') →
  removeFromIndex kv g subId = kv'.
Proof.
  unfold Worker.removeFromIndex, removeFromIndex.
  destruct (Worker.get_ids kv (guildIndexKey g)) as [e|stored] eqn:Hids; [done|].
  apply get_ids_returns in Hids as ->. by case_bool_decide; intros [= <-].
Qed.

Lemma removeFromIndex_throws kv g subId e kv' :
  Worker.removeFromIndex kv g subId = (inl e, kv') →
  kv' = kv ∧ e = Worker.syntax_error
  ∧ data kv !! guildIndexKey g = Some Corrupt.
Proof.
  unfold Worker.removeFromIndex.
  destruct (Worker.get_ids kv (guildIndexKey g)) as [e'|stored] eqn:Hids.
  - intros [= <- <-]. by apply get_ids_throws in Hids as [-> Hc].
  - by case_bool_decide.
Qed.

(** C7, as stated, fails: two records that deserialize and an index
    record that does not.  The read of the index is rejected: the
    listing throws, returns no subscription and leaves the index as it
    was. *)
Lemma listing_throws_on_index_text :
  Stated.index_unusable Sample2.broken_index "g1"
  ∧ length (Stated.valid_record_keys Sample2.broken_index "g1") = 2%nat
  ∧ Worker.getSubscriptionsForGuild Sample2.broken_index "g1"
    = (inl Worker.syntax_error, Sample2.broken_index).
Proof.
  split; [apply Stated.index_corrupt; vm_compute; reflexivity|].
  split; vm_compute; reflexivity.
Qed.

(** C7, amended: for every guild whose index record is missing or is the
    empty list, and under whose keys no text fails to deserialize,
    [getSubscriptionsForGuild] returns the N records stored under the
    guild's keys, each of them and nothing else, and the index a reader
    finds afterwards lists exactly the ids of the records returned; no
    other key is written. *)
Theorem listing_rebuilds_index kv g :
  data kv !! guildIndexKey g = None
  ∨ data kv !! guildIndexKey g = Some (JIds []) →
  (∀ subId, data kv !! subscriptionKey g subId ≠ Some Corrupt) →
  ∃ subscriptions kv',
    Worker.getSubscriptionsForGuild kv g = (inr subscriptions, kv')
    ∧ length subscriptions = length (Stated.valid_record_keys kv g)
    ∧ (∀ s, s ∈ subscriptions
            ↔ ∃ subId, data kv !! subscriptionKey g subId = Some (JSub s))
    ∧ index_ids kv' g = Subscription.id <$> subscriptions
    ∧ (∀ k, k ≠ guildIndexKey g → data kv' !! k = data kv !! k).
Proof.
  intros Hindex Hrecords.
  assert (get_ids kv (guildIndexKey g) = None
          ∨ get_ids kv (guildIndexKey g) = Some []) as Hids.
  { unfold get_ids. destruct Hindex as [-> | ->]; auto. }
  destruct (Worker.getSubscriptionsForGuild kv g) as [[e|subscriptions] kv']
    eqn:Hrun.
  { apply getSubscriptionsForGuild_throws in Hrun as (_ & _ & [Hc|[subId Hc]]).
    - destruct Hindex as [H|H]; rewrite H in Hc; discriminate.
    - by destruct (Hrecords subId). }
  apply getSubscriptionsForGuild_returns in Hrun.
  rewrite (getSubscriptionsForGuild_fallback kv g Hids) in Hrun.
  injection Hrun as <- <-.
  exists (listSubscriptionsByGuild kv g). eexists. split; [reflexivity|].
  split; [apply listSubscriptionsByGuild_length|].
  split.
  { intros s. rewrite elem_of_listSubscriptionsByGuild.
    split; intros [subId Hs]; exists subId.
    - unfold get_sub in Hs.
      by destruct (data kv !! subscriptionKey g subId) as [[]|]; simplify_eq.
    - unfold get_sub. by rewrite Hs. }
  case_bool_decide as Hlen.
  - split; [apply index_ids_put|]. intros k Hk. by apply data_put_ne.
  - split; [|done].
    destruct (listSubscriptionsByGuild kv g); [|simpl in Hlen; lia].
    unfold index_ids. by destruct Hids as [-> | ->].
Qed.

Lemma two_records_json : Worker.json Sample2.two_records.
Proof.
  intros k v Hk ->. unfold Sample2.two_records in Hk. cbn [data] in Hk.
  apply lookup_insert_Some in Hk as [[_ [=]]|[_ Hk]].
  apply lookup_singleton_Some in Hk as [_ [=]].
Qed.

Lemma listing_rebuilds_index_witness :
  data Sample2.two_records !! guildIndexKey "g1" = None
  ∧ Worker.json Sample2.two_records
  ∧ ∃ kv', Worker.getSubscriptionsForGuild Sample2.two_records "g1"
           = (inr [Sample.sub "g1" "a"; Sample.sub "g1" "b"], kv')
           ∧ index_ids kv' "g1" = ["a"; "b"].
Proof.
  assert (data Sample2.two_records !! guildIndexKey "g1" = None) as Hindex
    by (vm_compute; reflexivity).
  split; [exact Hindex|]. split; [exact two_records_json|].
  destruct (listing_rebuilds_index Sample2.two_records "g1" (or_introl Hindex)
              (λ subId, json_lookup _ _ two_records_json))
    as (subscriptions & kv' & Hrun & _ & _ & Hids & _).
  assert (Worker.getSubscriptionsForGuild Sample2.two_records "g1"
          = (inr [Sample.sub "g1" "a"; Sample.sub "g1" "b"],
             (Worker.getSubscriptionsForGuild Sample2.two_records "g1").2))
    as Heval by (vm_compute; reflexivity).
  exists kv'.
  assert (inr subscriptions
          = inr (A:=Cycle.thrown)
              [Sample.sub "g1" "a"; Sample.sub "g1" "b"]) as Hs
    by exact (f_equal fst (eq_trans (eq_sym Hrun) Heval)).
  injection Hs as ->.
  split; [exact Hrun|exact Hids].
Defined.

(** When the index lists ids, the listing is what they resolve to, and the
    index is rewritten exactly when one of them did not resolve. *)
Lemma getSubscriptionsForGuild_indexed kv g index :
  get_ids kv (guildIndexKey g) = Some index → index ≠ [] →
  getSubscriptionsForGuild kv g
  = (omap (λ id, get_sub kv (subscriptionKey g id)) index,
     if bool_decide (length (omap (λ id, get_sub kv (subscriptionKey g id)) index)
                     ≠ length index)
     then put (guildIndexKey g)
              (JIds (Subscription.id
                       <$> omap (λ id, get_sub kv (subscriptionKey g id)) index))
              kv
     else kv).
Proof.
  intros Hidx Hne. unfold getSubscriptionsForGuild. rewrite Hidx.
  destruct index as [|i rest]; [done|]. by case_bool_decide.
Qed.

(** C10: when the stored index is not empty and every id it lists resolves
    to a subscription record, [getSubscriptionsForGuild] returns those
    records and leaves the store, and the log of its writes, as they were.
    In every case it writes at most once, to the index record of the
    guild, and it does so only when a listed id did not resolve or when
    the scan of the fallback path found a record. *)
Theorem listing_writes_only_to_repair kv g :
  (∀ index, get_ids kv (guildIndexKey g) = Some index → index ≠ [] →
            (∀ id, id ∈ index → is_Some (get_sub kv (subscriptionKey g id))) →
            (getSubscriptionsForGuild kv g).2 = kv
            ∧ length (getSubscriptionsForGuild kv g).1 = length index)
  ∧ ((getSubscriptionsForGuild kv g).2 = kv
     ∨ (getSubscriptionsForGuild kv g).2
       = put (guildIndexKey g)
             (JIds (Subscription.id <$> (getSubscriptionsForGuild kv g).1)) kv)
  ∧ (writes (getSubscriptionsForGuild kv g).2 ≠ writes kv →
     (∃ index id, get_ids kv (guildIndexKey g) = Some index ∧ id ∈ index
                  ∧ get_sub kv (subscriptionKey g id) = None)
     ∨ ((get_ids kv (guildIndexKey g) = None
         ∨ get_ids kv (guildIndexKey g) = Some [])
        ∧ listSubscriptionsByGuild kv g ≠ [])).
Proof.
  split; [|split].
  - intros index Hidx Hne Hall.
    rewrite (getSubscriptionsForGuild_indexed kv g index Hidx Hne). cbn [fst snd].
    apply length_omap_all in Hall.
    rewrite bool_decide_eq_false_2 by (intros H; by apply H). done.
  - destruct (get_ids kv (guildIndexKey g)) as [[|i rest]|] eqn:Hidx.
    + rewrite getSubscriptionsForGuild_fallback by auto. cbn [fst snd].
      case_bool_decide; auto.
    + rewrite (getSubscriptionsForGuild_indexed kv g (i :: rest)) by done.
      cbn [fst snd]. case_bool_decide; auto.
    + rewrite getSubscriptionsForGuild_fallback by auto. cbn [fst snd].
      case_bool_decide; auto.
  - intros Hw.
    destruct (get_ids kv (guildIndexKey g)) as [[|i rest]|] eqn:Hidx.
    + right. split; [auto|]. intros Hnil.
      rewrite getSubscriptionsForGuild_fallback in Hw by auto.
      cbn [fst snd] in Hw. case_bool_decide as Hlen; [|done].
      rewrite Hnil in Hlen. simpl in Hlen. lia.
    + left. exists (i :: rest).
      rewrite (getSubscriptionsForGuild_indexed kv g (i :: rest)) in Hw by done.
      cbn [fst snd] in Hw. case_bool_decide as Hlen; [|done].
      destruct (decide (Forall (λ id, is_Some (get_sub kv (subscriptionKey g id)))
                               (i :: rest))) as [Hall|Hex].
      * rewrite Forall_forall in Hall. apply length_omap_all in Hall. done.
      * apply not_Forall_Exists in Hex; [|apply _].
        apply Exists_exists in Hex as (id & Hin & Hnone).
        exists id. split; [done|]. split; [done|].
        by apply eq_None_not_Some.
    + right. split; [auto|]. intros Hnil.
      rewrite getSubscriptionsForGuild_fallback in Hw by auto.
      cbn [fst snd] in Hw. case_bool_decide as Hlen; [|done].
      rewrite Hnil in Hlen. simpl in Hlen. lia.
Qed.

Lemma listing_writes_only_to_repair_witness :
  get_ids Sample.healthy (guildIndexKey "g1") = Some ["a"; "b"]
  ∧ (∀ id, id ∈ ["a"; "b"]
           → is_Some (get_sub Sample.healthy (subscriptionKey "g1" id)))
  ∧ (getSubscriptionsForGuild Sample.healthy "g1").2 = Sample.healthy.
Proof.
  assert (get_ids Sample.healthy (guildIndexKey "g1") = Some ["a"; "b"]) as Hidx
    by (vm_compute; reflexivity).
  assert (∀ id, id ∈ ["a"; "b"]
                → is_Some (get_sub Sample.healthy (subscriptionKey "g1" id)))
    as Hall.
  { intros id Hin.
    repeat (apply elem_of_cons in Hin as [->|Hin]; [vm_compute; eauto|]).
    by apply elem_of_nil in Hin. }
  split; [exact Hidx|]. split; [exact Hall|].
  destruct (listing_writes_only_to_repair Sample.healthy "g1") as [H _].
  destruct (H ["a"; "b"] Hidx) as [Hsame _]; [done|exact Hall|exact Hsame].
Defined.

End IndexFacts.

(** ** The scheduled cycle *)

Module CycleFacts.
Import Cycle Normalize.

Section WithHost.
Context `{host : Host}.


Lemma post_quiet channelId content : quiet (post channelId content).
Proof. intros p. unfold post. by destruct (post_message _ _ _). Qed.

Lemma sendDiscordMessage_quiet channelId content :
  quiet (sendDiscordMessage channelId content).
Proof.
  intros p. unfold sendDiscordMessage, mbind, M_bind.
  pose proof (post_quiet channelId content p) as Hq.
  destruct (post channelId content p) as [[e|response] p1]; [exact Hq|].
  destruct (negb (ok response)); exact Hq.
Qed.

Lemma send_each_quiet channelId newItems : quiet (send_each channelId newItems).
Proof.
  induction newItems as [|item rest IH]; intros p; [done|].
  cbn [send_each]. unfold mbind, M_bind.
  pose proof (sendDiscordMessage_quiet channelId (formatDiscordMessage item) p)
    as [Hs Hk].
  destruct (sendDiscordMessage _ _ p) as [[e|[]] p1]; [done|].
  cbn [snd] in Hs, Hk. destruct (IH p1) as [Hs' Hk']. split; congruence.
Qed.


Lemma same_but_title_set t s : same_but_title s (Subscription.set_feedTitle t s).
Proof. by destruct s. Qed.





(** When the load returns, it returns what [active_of] reads. *)
Lemma load_returns s active : Worker.load s = inr active → active_of s = active.
Proof.
  unfold Worker.load, active_of.
  destruct (Worker.get_all _ _) as [e|read] eqn:Hall; [done|].
  intros [= <-]. by rewrite (IndexFacts.get_all_returns _ _ _ Hall).
Qed.


End WithHost.
End CycleFacts.

Module CycleWitness.
Import Cycle.

End CycleWitness.

(** * Further properties of the code *)

(** ** More on [diffItems] *)

Module DiffMore.
Import FeedItem Diff.

Lemma sorted_sublist (l1 l2 : list FeedItem.t) :
  l1 `sublist_of` l2 → StronglySorted by_date l2 → StronglySorted by_date l1.
Proof.
  induction 1 as [|x l1 l2 Hsub IH|x l1 l2 Hsub IH]; intros Hs.
  - constructor.
  - apply StronglySorted_inv in Hs as [Hs Hx]. constructor; [by apply IH|].
    rewrite Forall_forall in Hx |- *. intros y Hy. apply Hx.
    eapply elem_of_sublist; eauto.
  - apply StronglySorted_inv in Hs as [Hs _]. by apply IH.
Qed.

Lemma filter_all_false (P : FeedItem.t → Prop) `{∀ x, Decision (P x)} l :
  (∀ x, x ∈ l → ¬ P x) → filter P l = [].
Proof.
  induction l as [|x r IH]; intros Hall; [done|].
  rewrite filter_cons_False by (apply Hall; apply elem_of_cons; by left).
  apply IH. intros y Hy. apply Hall. apply elem_of_cons. by right.
Qed.

Lemma last_sublist (l : list FeedItem.t) x : last l = Some x → [x] `sublist_of` l.
Proof.
  intros Hl. apply last_Some in Hl as [l' ->].
  apply sublist_inserts_l. reflexivity.
Qed.

(** X1: whatever the watermark, the new items are a sub-sequence of the
    ordered list: each of them is one of the items given, none is
    reported twice over what the list holds, they come in the order of
    the ordered list and, when some item carries a date, in ascending
    date order. *)
Theorem diffItems_new_items_sublist items lastId lastDate :
  newItems (diffItems items lastId lastDate) `sublist_of` ordering items
  ∧ (∀ it, it ∈ newItems (diffItems items lastId lastDate) → it ∈ items)
  ∧ (existsb has_date items = true →
     StronglySorted by_date (newItems (diffItems items lastId lastDate))).
Proof.
  assert (newItems (diffItems items lastId lastDate) `sublist_of` ordering items)
    as Hsub.
  { destruct items as [|x r]; [apply sublist_nil_l|].
    unfold diffItems.
    destruct (negb (Truthy.str lastId) && negb (Truthy.num lastDate));
      [apply sublist_nil_l|].
    cbn [newItems].
    set (sorted := ordering (x :: r)).
    set (n1 := match lastId with
               | Some lid =>
                   if Truthy.str lastId then
                     match findIndex lid sorted with
                     | Some index => drop (S index) sorted
                     | None => []
                     end
                   else []
               | None => []
               end).
    assert (n1 `sublist_of` sorted) as H1.
    { subst n1. destruct lastId as [lid|]; [|apply sublist_nil_l].
      destruct (Truthy.str (Some lid)); [|apply sublist_nil_l].
      destruct (findIndex lid sorted); [apply sublist_drop|apply sublist_nil_l]. }
    set (n2 := match lastDate with
               | Some d =>
                   if (length n1 =? 0)%nat && Truthy.num lastDate
                   then filter (newer_than d) sorted
                   else n1
               | None => n1
               end).
    assert (n2 `sublist_of` sorted) as H2.
    { subst n2. destruct lastDate as [d|]; [|done].
      destruct ((length n1 =? 0)%nat && Truthy.num (Some d)); [|done].
      apply sublist_filter. }
    destruct (last sorted) as [l|] eqn:Hl; [|done].
    destruct ((length n2 =? 0)%nat && bool_decide (Some (id l) ≠ lastId));
      [|done].
    by apply last_sublist. }
  split; [exact Hsub|]. split.
  - intros it Hit. rewrite <- (DiffFacts.ordering_perm items).
    eapply elem_of_sublist; eauto.
  - intros Hd. eapply sorted_sublist; [exact Hsub|].
    by apply DiffFacts.ordering_sorted.
Qed.

Lemma diffItems_new_items_sublist_witness :
  existsb has_date [Sample.day3; Sample.day1; Sample.day2] = true
  ∧ StronglySorted by_date
      (newItems (diffItems [Sample.day3; Sample.day1; Sample.day2]
                   (Some "day1") None)).
Proof.
  split; [reflexivity|].
  apply (diffItems_new_items_sublist [Sample.day3; Sample.day1; Sample.day2]).
  reflexivity.
Defined.

(** X2: a feed that has not moved is quiet.  When the watermark is the
    latest item of the ordered list (its id, found there and nowhere
    before, and its date), no item is reported as new. *)
Theorem diffItems_up_to_date items latest :
  last (ordering items) = Some latest →
  id latest ≠ "" →
  findIndex (id latest) (ordering items) = Some (pred (length (ordering items))) →
  newItems (diffItems items (Some (id latest)) (date latest)) = [].
Proof.
  intros Hlast Hid Hfind.
  assert (Truthy.str (Some (id latest)) = true) as Hts.
  { unfold Truthy.str. apply negb_true_iff, String.eqb_neq. exact Hid. }
  destruct items as [|x r].
  { unfold ordering in Hlast. simpl in Hlast. done. }
  unfold diffItems. rewrite Hts, Hfind, Hlast. cbn [negb andb newItems].
  set (sorted := ordering (x :: r)) in *.
  assert (drop (S (pred (length sorted))) sorted = []) as ->.
  { apply drop_ge. lia. }
  cbn [length Nat.eqb andb].
  assert (bool_decide (Some (id latest) ≠ Some (id latest)) = false) as Hsame.
  { apply bool_decide_eq_false_2. by intros H. }
  destruct (date latest) as [d|] eqn:Hd.
  - destruct (Truthy.num (Some d)) eqn:Hnum.
    + assert (filter (newer_than d) sorted = []) as ->.
      { assert (existsb has_date (x :: r) = true) as Hex.
        { apply existsb_exists. exists latest. split.
          - apply list_elem_of_In. rewrite <- (DiffFacts.ordering_perm (x :: r)).
            by apply last_Some_elem_of.
          - unfold has_date. by rewrite Hd. }
        pose proof (DiffFacts.ordering_sorted _ Hex) as Hs. fold sorted in Hs.
        induction sorted as [|y ys IH] using rev_ind; [done|].
        rewrite last_snoc in Hlast. injection Hlast as ->.
        apply filter_all_false. intros z Hz Hnew.
        pose proof (DiffFacts.sorted_last_max (ys ++ [latest]) latest z Hs
                      (last_snoc _ _) Hz) as Hle.
        unfold newer_than in Hnew. unfold date_key in Hle. rewrite Hd in Hle.
        destruct (date z) as [dz|]; [|done]. simpl in Hle. lia. }
      cbn [length Nat.eqb andb]. by rewrite Hsame.
    + cbn [length Nat.eqb andb]. by rewrite Hsame.
  - cbn [length Nat.eqb andb]. by rewrite Hsame.
Qed.

Lemma diffItems_up_to_date_witness :
  last (ordering [Sample.day2; Sample.day1]) = Some Sample.day2
  ∧ id Sample.day2 ≠ ""
  ∧ findIndex (id Sample.day2) (ordering [Sample.day2; Sample.day1]) = Some 1%nat
  ∧ newItems (diffItems [Sample.day2; Sample.day1] (Some "day2") (Some 172800000))
    = [].
Proof.
  split; [reflexivity|]. split; [discriminate|]. split; [reflexivity|].
  apply (diffItems_up_to_date [Sample.day2; Sample.day1] Sample.day2);
    [reflexivity|discriminate|reflexivity].
Defined.

(** X3: bounded catch-up.  When the watermark id is set but is the id of
    no item, and there is no date to fall back on ([lastItemDate] absent
    or zero), exactly one item is reported as new: the latest of the
    ordered list. *)
Theorem diffItems_single_catch_up items lastId lastDate latest :
  lastId ≠ "" →
  (∀ it, it ∈ items → id it ≠ lastId) →
  Truthy.num lastDate = false →
  last (ordering items) = Some latest →
  newItems (diffItems items (Some lastId) lastDate) = [latest].
Proof.
  intros Hid Hnot Hnum Hlast.
  assert (Truthy.str (Some lastId) = true) as Hts.
  { unfold Truthy.str. apply negb_true_iff, String.eqb_neq. exact Hid. }
  destruct items as [|x r].
  { unfold ordering in Hlast. simpl in Hlast. done. }
  unfold diffItems. rewrite Hts, Hnum, Hlast. cbn [negb andb newItems].
  rewrite DiffFacts.findIndex_None.
  - destruct lastDate as [d|]; cbn [length Nat.eqb andb];
      rewrite ?andb_false_r; cbn [length Nat.eqb andb];
      rewrite bool_decide_eq_true_2; try done.
    + intros [= Heq]. apply (Hnot latest); [|done].
      rewrite <- (DiffFacts.ordering_perm (x :: r)). by apply last_Some_elem_of.
    + intros [= Heq]. apply (Hnot latest); [|done].
      rewrite <- (DiffFacts.ordering_perm (x :: r)). by apply last_Some_elem_of.
  - intros it Hit. apply Hnot. by rewrite <- (DiffFacts.ordering_perm (x :: r)).
Qed.

Lemma diffItems_single_catch_up_witness :
  "gone" ≠ ""
  ∧ Truthy.num None = false
  ∧ last (ordering [Sample.day1; Sample.day2]) = Some Sample.day2
  ∧ newItems (diffItems [Sample.day1; Sample.day2] (Some "gone") None)
    = [Sample.day2].
Proof.
  split; [discriminate|]. split; [reflexivity|]. split; [reflexivity|].
  apply (diffItems_single_catch_up [Sample.day1; Sample.day2] "gone" None);
    [discriminate| |reflexivity|reflexivity].
  intros it Hit.
  repeat (apply elem_of_cons in Hit as [->|Hit]; [discriminate|]).
  by apply elem_of_nil in Hit.
Defined.
End DiffMore.

(** ** Keys *)

Module KeyFacts.
Import Kv Index.

Lemma subscriptionKey_not_index g subId g' :
  subscriptionKey g subId ≠ guildIndexKey g'.
Proof. unfold subscriptionKey, guildIndexKey. cbv [String.append]. discriminate. Qed.

Lemma index_key_not_swept g : ¬ has_prefix "sub:g:" (guildIndexKey g).
Proof.
  intros [rest Hr]%IndexFacts.has_prefix_app. revert Hr.
  unfold guildIndexKey. cbv [String.append]. discriminate.
Qed.

Lemma guildIndexKey_inj g g' : guildIndexKey g = guildIndexKey g' → g = g'.
Proof. unfold guildIndexKey. apply String.app_inj. Qed.

Lemma colon_split g i g' i' :
  Reading.colon_free g = true → Reading.colon_free g' = true →
  g +:+ ":" +:+ i = g' +:+ ":" +:+ i' → g = g' ∧ i = i'.
Proof.
  revert g'. induction g as [|c g IH]; intros [|c' g'] Hg Hg' Heq.
  - by injection Heq.
  - exfalso. injection Heq as <- _. simpl in Hg'. done.
  - exfalso. injection Heq as -> _. simpl in Hg. done.
  - injection Heq as -> Heq. simpl in Hg, Hg'.
    apply andb_true_iff in Hg as [_ Hg]. apply andb_true_iff in Hg' as [_ Hg'].
    destruct (IH g' Hg Hg' Heq) as [-> ->]. done.
Qed.

(** X4: the two families of keys never meet, and keys identify what they
    stand for.  A subscription key is never an index key; an index key
    does not start with the prefix ["sub:g:"] that the cycle scans, while
    every subscription key does; distinct guilds have distinct index keys;
    and for guild ids without a colon, distinct pairs of guild and
    subscription id have distinct subscription keys. *)
Theorem keys_identify g subId g' subId' :
  subscriptionKey g subId ≠ guildIndexKey g'
  ∧ ¬ has_prefix "sub:g:" (guildIndexKey g')
  ∧ has_prefix "sub:g:" (subscriptionKey g subId)
  ∧ (guildIndexKey g = guildIndexKey g' → g = g')
  ∧ (Reading.colon_free g = true → Reading.colon_free g' = true →
     subscriptionKey g subId = subscriptionKey g' subId' →
     g = g' ∧ subId = subId').
Proof.
  split; [apply subscriptionKey_not_index|].
  split; [apply index_key_not_swept|].
  split; [apply IndexFacts.has_prefix_app; by eexists|].
  split; [apply guildIndexKey_inj|].
  intros Hg Hg' Heq. unfold subscriptionKey in Heq.
  apply String.app_inj in Heq. by apply colon_split.
Qed.

Lemma keys_identify_witness :
  Reading.colon_free "1029384756" = true
  ∧ Reading.colon_free "5647382910" = true
  ∧ (subscriptionKey "1029384756" "01J" = subscriptionKey "5647382910" "01J" →
     "1029384756" = "5647382910" ∧ "01J" = "01J").
Proof.
  split; [reflexivity|]. split; [reflexivity|].
  apply (keys_identify "1029384756" "01J" "5647382910" "01J"); reflexivity.
Defined.
End KeyFacts.

(** ** More on the guild index *)

Module IndexMore.
Import Kv Index.

Lemma get_sub_put_index g v kv g' subId :
  get_sub (put (guildIndexKey g) v kv) (subscriptionKey g' subId)
  = get_sub kv (subscriptionKey g' subId).
Proof.
  unfold get_sub. rewrite IndexFacts.data_put_ne; [done|].
  intros H. by apply (KeyFacts.subscriptionKey_not_index g' subId g).
Qed.

Lemma index_ids_put_other g g' v kv :
  g ≠ g' → index_ids (put (guildIndexKey g) v kv) g' = index_ids kv g'.
Proof.
  intros Hne. unfold index_ids, get_ids. rewrite IndexFacts.data_put_ne; [done|].
  intros H. by apply Hne, KeyFacts.guildIndexKey_inj.
Qed.

Lemma get_sub_addToIndex kv g subId g' subId' :
  get_sub (addToIndex kv g subId) (subscriptionKey g' subId')
  = get_sub kv (subscriptionKey g' subId').
Proof. unfold addToIndex. case_bool_decide; [apply get_sub_put_index|done]. Qed.

Lemma get_sub_removeFromIndex kv g subId g' subId' :
  get_sub (removeFromIndex kv g subId) (subscriptionKey g' subId')
  = get_sub kv (subscriptionKey g' subId').
Proof. unfold removeFromIndex. case_bool_decide; [apply get_sub_put_index|done]. Qed.

Lemma index_ids_addToIndex_other kv g subId g' :
  g' ≠ g → index_ids (addToIndex kv g subId) g' = index_ids kv g'.
Proof.
  intros Hne. unfold addToIndex.
  case_bool_decide; [by apply index_ids_put_other|done].
Qed.

Lemma index_ids_removeFromIndex_other kv g subId g' :
  g' ≠ g → index_ids (removeFromIndex kv g subId) g' = index_ids kv g'.
Proof.
  intros Hne. unfold removeFromIndex.
  case_bool_decide; [by apply index_ids_put_other|done].
Qed.

Lemma addToIndex_in kv g subId : subId ∈ index_ids (addToIndex kv g subId) g.
Proof.
  rewrite IndexFacts.addToIndex_ids. case_bool_decide as H; [|exact H].
  apply elem_of_app. right. apply elem_of_cons. by left.
Qed.

Lemma removeFromIndex_out kv g subId :
  subId ∉ index_ids (removeFromIndex kv g subId) g.
Proof.
  rewrite IndexFacts.removeFromIndex_ids.
  intros [Hne _]%list_elem_of_filter. done.
Qed.

Lemma removeFromIndex_others kv g subId other :
  other ≠ subId →
  other ∈ index_ids (removeFromIndex kv g subId) g ↔ other ∈ index_ids kv g.
Proof.
  intros Hne. rewrite IndexFacts.removeFromIndex_ids, list_elem_of_filter. tauto.
Qed.



(** X6: [removeFromIndex] takes the id out and nothing else.  After the
    call the id is not in the index and every other id is there exactly
    if it was; a call for an id that is not listed changes nothing and
    writes nothing, so calling twice is calling once; an index without
    duplicates stays without duplicates. *)
Theorem removeFromIndex_takes_out kv g subId :
  (subId ∉ index_ids (removeFromIndex kv g subId) g)
  ∧ (∀ other, other ≠ subId →
              other ∈ index_ids (removeFromIndex kv g subId) g
              ↔ other ∈ index_ids kv g)
  ∧ (subId ∉ index_ids kv g → removeFromIndex kv g subId = kv)
  ∧ removeFromIndex (removeFromIndex kv g subId) g subId
    = removeFromIndex kv g subId
  ∧ (NoDup (index_ids kv g) → NoDup (index_ids (removeFromIndex kv g subId) g)).
Proof.
  assert (subId ∉ index_ids (removeFromIndex kv g subId) g) as Hout.
  { rewrite IndexFacts.removeFromIndex_ids.
    intros [Hne _]%list_elem_of_filter. done. }
  assert (∀ kv', subId ∉ index_ids kv' g → removeFromIndex kv' g subId = kv')
    as Hnop.
  { intros kv' H. unfold removeFromIndex. fold (index_ids kv' g).
    rewrite IndexFacts.filter_all; [|by intros x Hx ->].
    rewrite bool_decide_eq_false_2; [done|]. intros Hn. by apply Hn. }
  split; [exact Hout|]. split; [|split; [apply Hnop|split; [by apply Hnop|]]].
  - intros other Hne. rewrite IndexFacts.removeFromIndex_ids, list_elem_of_filter.
    tauto.
  - intros Hnd. rewrite IndexFacts.removeFromIndex_ids. by apply NoDup_filter.
Qed.

Lemma removeFromIndex_takes_out_witness :
  ("z" ∉ index_ids Sample.indexed "g1")
  ∧ removeFromIndex Sample.indexed "g1" "z" = Sample.indexed.
Proof.
  assert ("z" ∉ index_ids Sample.indexed "g1") as Hout.
  { vm_compute. intros H. apply elem_of_cons in H as [H|H]; [discriminate|].
    by apply elem_of_nil in H. }
  split; [exact Hout|].
  by apply (removeFromIndex_takes_out Sample.indexed "g1" "z").
Defined.

(** X7: the index operations of one guild leave everything else alone:
    the index of every other guild, and every subscription record, of
    any guild, read the same before and after [addToIndex] and
    [removeFromIndex]. *)
Theorem index_operations_frame kv g subId :
  (∀ g', g' ≠ g →
         index_ids (addToIndex kv g subId) g' = index_ids kv g'
         ∧ index_ids (removeFromIndex kv g subId) g' = index_ids kv g')
  ∧ (∀ g' subId',
       get_sub (addToIndex kv g subId) (subscriptionKey g' subId')
       = get_sub kv (subscriptionKey g' subId')
       ∧ get_sub (removeFromIndex kv g subId) (subscriptionKey g' subId')
         = get_sub kv (subscriptionKey g' subId')).
Proof.
  split.
  - intros g' Hne. unfold addToIndex, removeFromIndex.
    split; case_bool_decide; try done; by apply index_ids_put_other.
  - intros g' subId'. unfold addToIndex, removeFromIndex.
    split; case_bool_decide; try done; apply get_sub_put_index.
Qed.

Lemma index_operations_frame_witness :
  "g2" ≠ "g1"
  ∧ index_ids (addToIndex Sample.indexed "g1" "b") "g2"
    = index_ids Sample.indexed "g2".
Proof.
  split; [discriminate|].
  apply (index_operations_frame Sample.indexed "g1" "b"). discriminate.
Defined.

(** X8: [listAllKeys] returns every key of the namespace that starts with
    the prefix, each exactly once, in the order of the listing, however
    many pages the listing takes. *)
Theorem listAllKeys_complete kv prefix :
  (∀ k, k ∈ listAllKeys kv prefix
        ↔ has_prefix prefix k ∧ is_Some (data kv !! k))
  ∧ NoDup (listAllKeys kv prefix)
  ∧ StronglySorted String.le (listAllKeys kv prefix).
Proof.
  rewrite IndexFacts.listAllKeys_all. split; [|split].
  - intros k. apply IndexFacts.elem_of_keys_with_prefix.
  - rewrite IndexFacts.keys_with_prefix_perm.
    apply NoDup_filter, NoDup_elements.
  - unfold keys_with_prefix. apply StronglySorted_merge_sort; apply _.
Qed.

Lemma omap_filter_is_Some {A B} (f : A → option B) (l : list A) :
  omap f (filter (λ x, is_Some (f x)) l) = omap f l.
Proof.
  induction l as [|x r IH]; [done|].
  rewrite filter_cons. destruct (f x) as [y|] eqn:Hx.
  - rewrite decide_True by eauto. cbn. rewrite Hx. cbn. by rewrite IH.
  - rewrite decide_False by (by intros [? ?]). cbn. rewrite Hx. exact IH.
Qed.

Lemma ids_of_resolved kv g (index : list string) :
  Reading.records_consistent kv g →
  Subscription.id <$> omap (λ id, get_sub kv (subscriptionKey g id)) index
  = filter (λ id, is_Some (get_sub kv (subscriptionKey g id))) index.
Proof.
  intros Hc. induction index as [|i rest IH]; [done|].
  rewrite filter_cons. cbn.
  destruct (get_sub kv (subscriptionKey g i)) as [s|] eqn:Hs.
  - rewrite decide_True by eauto. cbn. rewrite IH. f_equal. by apply Hc.
  - rewrite decide_False by (by intros [? ?]). exact IH.
Qed.

Lemma subscriptionKey_inj_id g subId subId' :
  subscriptionKey g subId = subscriptionKey g subId' → subId = subId'.
Proof.
  unfold subscriptionKey. intros H.
  by repeat apply String.app_inj in H.
Qed.

Lemma stale_consistent : Reading.records_consistent Sample2.stale "g1".
Proof.
  intros subId s Hs. unfold get_sub in Hs.
  cbn [data Sample2.stale Sample.unindexed] in Hs.
  rewrite lookup_insert_ne in Hs
    by (intros H; symmetry in H; by apply KeyFacts.subscriptionKey_not_index in H).
  rewrite lookup_insert in Hs. case_decide as H1.
  { apply subscriptionKey_inj_id in H1 as <-. by injection Hs as <-. }
  rewrite lookup_insert in Hs. case_decide as H2.
  { apply subscriptionKey_inj_id in H2 as <-. by injection Hs as <-. }
  rewrite lookup_singleton in Hs. by case_decide.
Qed.



Lemma omap_resolved_ids kv g (subs : list Subscription.t) :
  (∀ s, s ∈ subs → get_sub kv (subscriptionKey g (Subscription.id s)) = Some s) →
  omap (λ id, get_sub kv (subscriptionKey g id)) (Subscription.id <$> subs) = subs.
Proof.
  induction subs as [|s rest IH]; intros Hall; [done|].
  cbn. rewrite (Hall s) by (apply elem_of_cons; by left). cbn.
  f_equal. apply IH. intros s' Hs'. apply Hall. apply elem_of_cons. by right.
Qed.

(** What a listing returns is stored under a key of the guild. *)
Lemma listing_stored kv g s :
  s ∈ (getSubscriptionsForGuild kv g).1 →
  ∃ subId, get_sub kv (subscriptionKey g subId) = Some s.
Proof.
  destruct (get_ids kv (guildIndexKey g)) as [[|i rest]|] eqn:Hidx.
  - rewrite IndexFacts.getSubscriptionsForGuild_fallback by auto.
    apply IndexFacts.elem_of_listSubscriptionsByGuild.
  - rewrite (IndexFacts.getSubscriptionsForGuild_indexed kv g (i :: rest)) by done.
    cbn [fst]. intros (subId & _ & Hs)%list_elem_of_omap. eauto.
  - rewrite IndexFacts.getSubscriptionsForGuild_fallback by auto.
    apply IndexFacts.elem_of_listSubscriptionsByGuild.
Qed.

Lemma listing_state kv g :
  (getSubscriptionsForGuild kv g).2 = kv
  ∨ (getSubscriptionsForGuild kv g).2
    = put (guildIndexKey g)
          (JIds (Subscription.id <$> (getSubscriptionsForGuild kv g).1)) kv.
Proof.
  destruct (get_ids kv (guildIndexKey g)) as [[|i rest]|] eqn:Hidx.
  - rewrite IndexFacts.getSubscriptionsForGuild_fallback by auto. cbn [fst snd].
    case_bool_decide; auto.
  - rewrite (IndexFacts.getSubscriptionsForGuild_indexed kv g (i :: rest)) by done.
    cbn [fst snd]. case_bool_decide; auto.
  - rewrite IndexFacts.getSubscriptionsForGuild_fallback by auto. cbn [fst snd].
    case_bool_decide; auto.
Qed.

Lemma get_sub_listing kv g g' subId :
  get_sub (getSubscriptionsForGuild kv g).2 (subscriptionKey g' subId)
  = get_sub kv (subscriptionKey g' subId).
Proof.
  destruct (listing_state kv g) as [-> | ->]; [done|]. apply get_sub_put_index.
Qed.

Lemma index_ids_listing_other kv g g' :
  g' ≠ g → index_ids (getSubscriptionsForGuild kv g).2 g' = index_ids kv g'.
Proof.
  intros Hne. destruct (listing_state kv g) as [-> | ->]; [done|].
  by apply index_ids_put_other.
Qed.

(** X10: a listing reads records and never touches them.  Every
    subscription it returns is stored under a key of that guild; after it,
    every subscription record of every guild and the index of every other
    guild read as before. *)
Theorem listing_reads_records_only kv g :
  (∀ s, s ∈ (getSubscriptionsForGuild kv g).1 →
        ∃ subId, get_sub kv (subscriptionKey g subId) = Some s)
  ∧ (∀ g' subId,
       get_sub (getSubscriptionsForGuild kv g).2 (subscriptionKey g' subId)
       = get_sub kv (subscriptionKey g' subId))
  ∧ (∀ g', g' ≠ g →
           index_ids (getSubscriptionsForGuild kv g).2 g' = index_ids kv g').
Proof.
  split; [apply listing_stored|]. split.
  - intros g' subId. destruct (listing_state kv g) as [-> | ->]; [done|].
    apply get_sub_put_index.
  - intros g' Hne. destruct (listing_state kv g) as [-> | ->]; [done|].
    by apply index_ids_put_other.
Qed.

Lemma listing_reads_records_only_witness :
  "g2" ≠ "g1"
  ∧ index_ids (getSubscriptionsForGuild Sample2.two_records "g1").2 "g2"
    = index_ids Sample2.two_records "g2".
Proof.
  split; [discriminate|].
  apply (listing_reads_records_only Sample2.two_records "g1"). discriminate.
Defined.

(** X11: one listing settles the index.  When the records carry the ids
    of their keys and a listing returns at least one subscription, a
    second listing right after it returns the same subscriptions and
    writes nothing. *)
Theorem listing_settles kv g :
  Reading.records_consistent kv g →
  (getSubscriptionsForGuild kv g).1 ≠ [] →
  getSubscriptionsForGuild (getSubscriptionsForGuild kv g).2 g
  = getSubscriptionsForGuild kv g.
Proof.
  intros Hc Hne.
  set (listed := (getSubscriptionsForGuild kv g).1) in *.
  set (kv1 := (getSubscriptionsForGuild kv g).2).
  assert (∀ subId, get_sub kv1 (subscriptionKey g subId)
                   = get_sub kv (subscriptionKey g subId)) as Hsame.
  { intros subId. apply get_sub_listing. }
  assert (∀ s, s ∈ listed
               → get_sub kv1 (subscriptionKey g (Subscription.id s)) = Some s)
    as Hres.
  { intros s Hs. rewrite Hsame.
    destruct (listing_stored kv g s Hs) as [subId Hsub].
    by rewrite (Hc subId s Hsub). }
  assert (get_ids kv1 (guildIndexKey g) = Some (Subscription.id <$> listed))
    as Hidx1.
  { destruct (listing_state kv g) as [Hkeep|Hput].
    - (* nothing was written: the index listed ids that all resolved *)
      fold kv1 in Hkeep. rewrite Hkeep.
      destruct (get_ids kv (guildIndexKey g)) as [[|i rest]|] eqn:Hidx.
      + exfalso. subst kv1 listed.
        rewrite IndexFacts.getSubscriptionsForGuild_fallback in Hkeep, Hne by auto.
        cbn [fst snd] in Hkeep, Hne. case_bool_decide as Hlen.
        * apply (f_equal writes) in Hkeep. unfold put in Hkeep. cbn in Hkeep.
          apply (f_equal length) in Hkeep. rewrite length_app in Hkeep.
          simpl in Hkeep. lia.
        * destruct (listSubscriptionsByGuild kv g); [done|simpl in Hlen; lia].
      + subst kv1 listed.
        rewrite (IndexFacts.getSubscriptionsForGuild_indexed kv g (i :: rest))
          in Hkeep |- * by done.
        cbn [fst snd] in Hkeep |- *. case_bool_decide as Hlen.
        * apply (f_equal writes) in Hkeep. unfold put in Hkeep. cbn in Hkeep.
          apply (f_equal length) in Hkeep. rewrite length_app in Hkeep.
          simpl in Hkeep. lia.
        * rewrite ids_of_resolved by done. f_equal. symmetry.
          apply IndexFacts.filter_all. apply IndexFacts.length_omap_all. lia.
      + exfalso. subst kv1 listed.
        rewrite IndexFacts.getSubscriptionsForGuild_fallback in Hkeep, Hne by auto.
        cbn [fst snd] in Hkeep, Hne. case_bool_decide as Hlen.
        * apply (f_equal writes) in Hkeep. unfold put in Hkeep. cbn in Hkeep.
          apply (f_equal length) in Hkeep. rewrite length_app in Hkeep.
          simpl in Hkeep. lia.
        * destruct (listSubscriptionsByGuild kv g); [done|simpl in Hlen; lia].
    - fold kv1 listed in Hput. rewrite Hput. apply IndexFacts.get_ids_put_eq. }
  assert (Subscription.id <$> listed ≠ []) as Hne1.
  { destruct listed; [done|discriminate]. }
  rewrite (IndexFacts.getSubscriptionsForGuild_indexed kv1 g _ Hidx1 Hne1).
  rewrite (omap_resolved_ids kv1 g listed Hres).
  rewrite bool_decide_eq_false_2 by (rewrite length_fmap; intros H; by apply H).
  subst listed kv1. by destruct (getSubscriptionsForGuild kv g).
Qed.

Lemma listing_settles_witness :
  Reading.records_consistent Sample2.stale "g1"
  ∧ (getSubscriptionsForGuild Sample2.stale "g1").1 ≠ []
  ∧ getSubscriptionsForGuild (getSubscriptionsForGuild Sample2.stale "g1").2 "g1"
    = getSubscriptionsForGuild Sample2.stale "g1".
Proof.
  assert ((getSubscriptionsForGuild Sample2.stale "g1").1 ≠ []) as Hne.
  { vm_compute. discriminate. }
  split; [exact stale_consistent|]. split; [exact Hne|].
  exact (listing_settles Sample2.stale "g1" stale_consistent Hne).
Defined.

End IndexMore.

(** ** More on the scheduled cycle *)

Module CycleMore.
Import Cycle Normalize.

Section WithHost.
Context `{host : Host}.

Lemma same_identity_refl s : Reading.same_identity s s.
Proof. by repeat split. Qed.


Local Arguments persist : simpl never.

Lemma same_identity_set_feedTitle t s :
  Reading.same_identity s (Subscription.set_feedTitle t s).
Proof. by repeat split. Qed.



Lemma footprint_keep p p' :
  Reading.same_identity (subscription p) (subscription p') →
  kv (env p') = kv (env p) → CycleReading.footprint p p'.
Proof. intros Hi Hk. split; [done|]. by left. Qed.





Lemma fetch_response url p r w :
  fetch_feed url (net (env p)) = (r, w) →
  fetch url p = (r, {| subscription := subscription p;
                       env := {| kv := kv (env p); net := w |} |}).
Proof. intros H. unfold fetch. by rewrite H. Qed.

(** X13: the watermark is the last notification sent.  When the feed is
    fetched and parsed, the diff reports new items and
    [processSubscription] returns normally, the record it has written
    under the subscription's key has the id and date of the last new item
    as its watermark, an error count of 0 and no error message. *)
Theorem watermark_is_last_posted p response w1 feed lastPosted p' :
  fetch_feed (Subscription.url (subscription p)) (net (env p))
  = (inr response, w1) →
  ok response = true →
  parseFeed (text response) = inr feed →
  feed_format feed ≠ unknown →
  last (Diff.newItems
          (Diff.diffItems (items feed)
             (Subscription.lastItemId (subscription p))
             (Subscription.lastItemDate (subscription p))))
  = Some lastPosted →
  processSubscription p = (inr tt, p') →
  Subscription.lastItemId (subscription p') = Some (FeedItem.id lastPosted)
  ∧ Subscription.lastItemDate (subscription p') = FeedItem.date lastPosted
  ∧ Subscription.errorCount (subscription p') = Some 0
  ∧ Subscription.lastError (subscription p') = None
  ∧ kv (env p')
    = Kv.put (Index.subscriptionKey (Subscription.guildId (subscription p))
                (Subscription.id (subscription p)))
             (Kv.JSub (subscription p')) (kv (env p)).
Proof.
  intros Hfetch Hok Hparse Hfmt Hlast.
  unfold processSubscription, mbind, M_bind, the_subscription.
  rewrite (fetch_response _ _ _ _ Hfetch), Hok, Hparse. cbn [negb].
  set (p1 := {| subscription := subscription p;
                env := {| kv := kv (env p); net := w1 |} |}).
  assert (∀ body : M proc unit,
            match feed_format feed with
            | unknown => throw (Error "Unsupported feed format")
            | _ => body
            end = body) as ->.
  { intros body. by destruct (feed_format feed). }
  set (normalizedTitle := normalizeFeedTitle (feed_title feed)).
  set (titleChanged := Truthy.str normalizedTitle && _).
  set (titled := if titleChanged
                 then assign (Subscription.set_feedTitle normalizedTitle)
                 else mret tt).
  assert (∃ p3, titled p1 = (inr tt, p3)
                ∧ CycleReading.footprint p p3 ∧ kv (env p3) = kv (env p))
    as (p3 & -> & [Hi3 _] & Hk3).
  { subst titled. destruct titleChanged.
    - eexists. split; [reflexivity|]. split; [|done].
      apply footprint_keep; [apply same_identity_set_feedTitle|done].
    - eexists. split; [reflexivity|]. split; [|done].
      apply footprint_keep; [apply same_identity_refl|done]. }
  assert ((length (Diff.newItems
                     (Diff.diffItems (items feed)
                        (Subscription.lastItemId (subscription p))
                        (Subscription.lastItemDate (subscription p)))) =? 0)%nat
          = false) as Hnew.
  { apply Nat.eqb_neq. intros H0. apply nil_length_inv in H0.
    rewrite H0 in Hlast. done. }
  assert ((length (items feed) =? 0)%nat = false) as ->.
  { destruct (items feed); [done|reflexivity]. }
  rewrite Hnew, Hlast.
  pose proof (CycleFacts.send_each_quiet
                (Subscription.channelId (subscription p))
                (Diff.newItems
                   (Diff.diffItems (items feed)
                      (Subscription.lastItemId (subscription p))
                      (Subscription.lastItemDate (subscription p)))) p3)
    as [Hs4 Hk4].
  destruct (send_each _ _ p3) as [[e4|[]] p4]; cbn [snd] in Hs4, Hk4;
    [discriminate|].
  cbn. unfold persist. cbn. intros [= <-]. cbn.
  destruct Hi3 as (Hid & Hg & _).
  rewrite Hs4, Hk4, Hk3, <- Hid, <- Hg. done.
Qed.

(** X14: the first check of a subscription is silent.  For a subscription
    without a watermark and a feed that is fetched and parsed with at
    least one item, [processSubscription] returns normally without any
    request after the fetch (no post), and writes the record with the id
    and date of the latest item of the ordered list as its watermark; the
    error count is not reset. *)
Theorem first_check_is_silent p response w1 feed latest :
  Subscription.lastItemId (subscription p) = None →
  Subscription.lastItemDate (subscription p) = None →
  fetch_feed (Subscription.url (subscription p)) (net (env p))
  = (inr response, w1) →
  ok response = true →
  parseFeed (text response) = inr feed →
  feed_format feed ≠ unknown →
  last (Diff.ordering (items feed)) = Some latest →
  ∃ p', processSubscription p = (inr tt, p')
        ∧ net (env p') = w1
        ∧ Subscription.lastItemId (subscription p') = Some (FeedItem.id latest)
        ∧ Subscription.lastItemDate (subscription p') = FeedItem.date latest
        ∧ Subscription.errorCount (subscription p')
          = Subscription.errorCount (subscription p)
        ∧ kv (env p')
          = Kv.put (Index.subscriptionKey
                      (Subscription.guildId (subscription p))
                      (Subscription.id (subscription p)))
                   (Kv.JSub (subscription p')) (kv (env p)).
Proof.
  intros Hid0 Hdate0 Hfetch Hok Hparse Hfmt Hlast.
  unfold processSubscription, mbind, M_bind, the_subscription.
  rewrite (fetch_response _ _ _ _ Hfetch), Hok, Hparse. cbn [negb].
  assert (∀ body : M proc unit,
            match feed_format feed with
            | unknown => throw (Error "Unsupported feed format")
            | _ => body
            end = body) as ->.
  { intros body. by destruct (feed_format feed). }
  rewrite Hid0, Hdate0.
  destruct (items feed) as [|x r] eqn:Hitems.
  { unfold Diff.ordering in Hlast. simpl in Hlast. done. }
  cbn [length Nat.eqb].
  unfold Diff.diffItems. cbn [Truthy.str Truthy.num negb andb].
  cbn [Diff.newItems Diff.latestItem length Nat.eqb]. rewrite Hlast.
  rewrite (bool_decide_eq_true_2 (Some (FeedItem.id latest) ≠ None)) by done.
  rewrite (bool_decide_eq_true_2 (is_Some (Some latest))) by eauto.
  cbn [orb].
  destruct (Truthy.str (normalizeFeedTitle (feed_title feed))
            && bool_decide (normalizeFeedTitle (feed_title feed)
                            ≠ Subscription.feedTitle (subscription p)));
    eexists; (split; [reflexivity|]); unfold persist; cbn; repeat split.
Qed.

(** X15: a failed send ends the sends.  When the items before one have
    been posted and the post of that one fails, [send_each] ends with
    that failure, in the state the failed post left: the items after it
    are not posted. *)
Theorem send_each_stops_at_failure channelId sent item rest p p1 e p2 :
  send_each channelId sent p = (inr tt, p1) →
  sendDiscordMessage channelId (formatDiscordMessage item) p1 = (inl e, p2) →
  send_each channelId (sent ++ item :: rest) p = (inl e, p2).
Proof.
  revert p. induction sent as [|x sent IH]; intros p Hsent Hfail.
  - injection Hsent as <-. cbn [app send_each]. unfold mbind, M_bind.
    by rewrite Hfail.
  - cbn [app send_each] in Hsent |- *. unfold mbind, M_bind in Hsent |- *.
    destruct (sendDiscordMessage channelId (formatDiscordMessage x) p)
      as [[e0|[]] p0]; [discriminate|].
    by apply IH.
Qed.

End WithHost.
End CycleMore.

Module CycleMoreWitness.
Import Cycle Normalize.

Lemma watermark_is_last_posted_witness :
  @fetch_feed Sample2.online (Subscription.url Sample2.seen_first) 0%nat
  = (inr {| status := 200%N; text := "<rss/>" |}, 1%nat)
  ∧ @parseFeed Sample2.online "<rss/>" = inr Sample2.parsed_feed
  ∧ last (Diff.newItems
            (Diff.diffItems (items Sample2.parsed_feed)
               (Subscription.lastItemId Sample2.seen_first)
               (Subscription.lastItemDate Sample2.seen_first)))
    = Some Sample2.second_item
  ∧ Subscription.lastItemId
      (subscription
         (@processSubscription Sample2.online
            (Sample2.processing Sample2.seen_first 0)).2)
    = Some "post-2".
Proof.
  assert (@processSubscription Sample2.online
            (Sample2.processing Sample2.seen_first 0)
          = (inr tt, (@processSubscription Sample2.online
                        (Sample2.processing Sample2.seen_first 0)).2)) as Hrun
    by (vm_compute; reflexivity).
  assert (last (Diff.newItems
                  (Diff.diffItems (items Sample2.parsed_feed)
                     (Subscription.lastItemId Sample2.seen_first)
                     (Subscription.lastItemDate Sample2.seen_first)))
          = Some Sample2.second_item) as Hlast by (vm_compute; reflexivity).
  split; [reflexivity|]. split; [reflexivity|]. split; [exact Hlast|].
  refine (proj1 (@CycleMore.watermark_is_last_posted Sample2.online
                   (Sample2.processing Sample2.seen_first 0)
                   {| status := 200%N; text := "<rss/>" |} 1%nat
                   Sample2.parsed_feed Sample2.second_item _
                   eq_refl eq_refl eq_refl _ Hlast Hrun)).
  vm_compute. discriminate.
Defined.

Lemma first_check_is_silent_witness :
  Subscription.lastItemId Sample2.fresh = None
  ∧ Subscription.lastItemDate Sample2.fresh = None
  ∧ last (Diff.ordering (items Sample2.parsed_feed)) = Some Sample2.second_item
  ∧ ∃ p', @processSubscription Sample2.online (Sample2.processing Sample2.fresh 0)
          = (inr tt, p')
          ∧ @net Sample2.online (env p') = 1%nat
          ∧ Subscription.lastItemId (subscription p') = Some "post-2".
Proof.
  assert (last (Diff.ordering (items Sample2.parsed_feed))
          = Some Sample2.second_item) as Hlast by (vm_compute; reflexivity).
  split; [reflexivity|]. split; [reflexivity|]. split; [exact Hlast|].
  assert (feed_format Sample2.parsed_feed ≠ unknown) as Hfmt
    by (vm_compute; discriminate).
  destruct (@CycleMore.first_check_is_silent Sample2.online
              (Sample2.processing Sample2.fresh 0)
              {| status := 200%N; text := "<rss/>" |} 1%nat
              Sample2.parsed_feed Sample2.second_item
              eq_refl eq_refl eq_refl eq_refl eq_refl Hfmt Hlast)
    as (p' & Hrun & Hnet & Hid & _).
  exists p'. split; [exact Hrun|]. split; [exact Hnet|exact Hid].
Defined.

Lemma send_each_stops_at_failure_witness :
  @send_each Sample2.online "c1" [Sample2.first_item]
    (Sample2.processing Sample2.seen_first 1)
  = (inr tt, Sample2.processing Sample2.seen_first 2)
  ∧ @sendDiscordMessage Sample2.online "c1"
      (formatDiscordMessage Sample2.second_item)
      (Sample2.processing Sample2.seen_first 2)
    = (inl (Error "Discord post failed (500): "),
       Sample2.processing Sample2.seen_first 3)
  ∧ @send_each Sample2.online "c1"
      ([Sample2.first_item] ++ Sample2.second_item :: [Sample.day1])
      (Sample2.processing Sample2.seen_first 1)
    = (inl (Error "Discord post failed (500): "),
       Sample2.processing Sample2.seen_first 3).
Proof.
  assert (@send_each Sample2.online "c1" [Sample2.first_item]
            (Sample2.processing Sample2.seen_first 1)
          = (inr tt, Sample2.processing Sample2.seen_first 2)) as Hsent
    by (vm_compute; reflexivity).
  assert (@sendDiscordMessage Sample2.online "c1"
            (formatDiscordMessage Sample2.second_item)
            (Sample2.processing Sample2.seen_first 2)
          = (inl (Error "Discord post failed (500): "),
             Sample2.processing Sample2.seen_first 3)) as Hfail
    by (vm_compute; reflexivity).
  split; [exact Hsent|]. split; [exact Hfail|].
  exact (@CycleMore.send_each_stops_at_failure Sample2.online "c1"
           [Sample2.first_item] Sample2.second_item [Sample.day1]
           _ _ _ _ Hsent Hfail).
Defined.
End CycleMoreWitness.

(** ** Lengths of the texts that are sent and shown *)

Module TextFacts.
Import JsString Cycle.

Lemma length_app (a b : string) :
  String.length (a +:+ b) = (String.length a + String.length b)%nat.
Proof.
  induction a as [|c a IH]; [done|].
  change (S (String.length (a +:+ b)) = S (String.length a + String.length b)).
  by rewrite IH.
Qed.

Lemma length_slice0 n s :
  String.length (slice0 n s) = Nat.min n (String.length s).
Proof.
  unfold slice0. revert n. induction s as [|c s IH]; intros [|n]; simpl; try done.
  by rewrite IH.
Qed.

(** X16: a message never exceeds 1900 code units, whatever the title and
    the link of the item are. *)
Theorem formatDiscordMessage_length item :
  (String.length (formatDiscordMessage item) ≤ 1900)%nat.
Proof.
  unfold formatDiscordMessage.
  match goal with
  | |- context [if (1900 <? String.length ?b)%nat then _ else _] => set (base := b)
  end.
  destruct (Nat.ltb_spec 1900 (String.length base)) as [Hlong|Hshort].
  - rewrite length_app, length_slice0.
    change (String.length "...") with 3%nat. lia.
  - exact Hshort.
Qed.

Lemma all_space_rev_app a b :
  Reading.all_space (String.rev_app a b)
  = Reading.all_space a && Reading.all_space b.
Proof.
  revert b. induction a as [|c a IH]; intros b; [done|].
  cbn [String.rev_app Reading.all_space]. rewrite IH. cbn [Reading.all_space].
  destruct (is_space c), (Reading.all_space a), (Reading.all_space b); done.
Qed.

Lemma all_space_rev s : Reading.all_space (String.rev s) = Reading.all_space s.
Proof. unfold String.rev. rewrite all_space_rev_app. cbn. by rewrite andb_true_r. Qed.

Lemma rev_app_empty a b : String.rev_app a b = "" → a = "" ∧ b = "".
Proof.
  revert b. induction a as [|c a IH]; intros b H; [done|].
  cbn in H. apply IH in H as [_ H]. discriminate.
Qed.

Lemma trimStart_empty s : trimStart s = "" ↔ Reading.all_space s = true.
Proof.
  induction s as [|c s IH]; [done|]. cbn.
  destruct (is_space c); [exact IH|]. done.
Qed.

Lemma trim_empty s : trim s = "" ↔ Reading.all_space s = true.
Proof.
  unfold trim. split.
  - intros H. unfold String.rev in H at 1. apply rev_app_empty in H as [H _].
    apply trimStart_empty in H. rewrite all_space_rev in H.
    destruct (Reading.all_space s) eqn:Hs; [done|].
    (* the trimmed start is blank, so it is empty, so all was blank *)
    assert (trimStart s = "") as He.
    { clear Hs. induction s as [|c s IH]; [done|]. cbn in H |- *.
      destruct (is_space c) eqn:Hc; [by apply IH|].
      cbn in H. by rewrite Hc in H. }
    apply trimStart_empty in He. congruence.
  - intros H. apply trimStart_empty in H. rewrite H. done.
Qed.

Lemma all_space_collapse b s :
  Reading.all_space (collapse_spaces b s) = Reading.all_space s.
Proof.
  revert b. induction s as [|c s IH]; intros b; [done|]. cbn.
  destruct (is_space c) eqn:Hc.
  - destruct b; cbn; rewrite ?IH; done.
  - cbn. by rewrite Hc.
Qed.

(** X17: a normalized feed title is never empty and never longer than
    200 code units; there is none exactly when the title is absent or is
    white space throughout. *)
Theorem normalizeFeedTitle_shape value :
  match normalizeFeedTitle value with
  | Some title => title ≠ "" ∧ (String.length title ≤ 200)%nat
  | None => value = None ∨ ∃ s, value = Some s ∧ Reading.all_space s = true
  end
  ∧ (∀ s, Reading.all_space s = true → normalizeFeedTitle (Some s) = None).
Proof.
  split.
  - unfold normalizeFeedTitle. destruct value as [s|]; [|by left].
    destruct (Truthy.str (Some s)) eqn:Hs; cbn [negb].
    + change (default "" (Some s)) with s.
      set (trimmed := trim (collapse_spaces false s)).
      destruct (Truthy.str (Some trimmed)) eqn:Ht; cbn [negb].
      * destruct (Nat.ltb_spec 200 (String.length trimmed)) as [Hlong|Hshort];
           cbv beta iota.
        -- split.
           ++ intros He. apply (f_equal String.length) in He.
              rewrite length_app, length_slice0 in He.
              change (String.length "...") with 3%nat in He. simpl in He. lia.
           ++ rewrite length_app, length_slice0.
              change (String.length "...") with 3%nat. lia.
        -- split; [|done]. intros He. by rewrite He in Ht.
      * right. exists s. split; [done|].
        assert (trimmed = "") as He.
        { unfold Truthy.str in Ht. apply negb_false_iff in Ht.
          by apply String.eqb_eq in Ht. }
        apply trim_empty in He. by rewrite all_space_collapse in He.
    + right. exists s. split; [done|].
      unfold Truthy.str in Hs. apply negb_false_iff, String.eqb_eq in Hs.
      by subst s.
  - intros s Hs. unfold normalizeFeedTitle.
    destruct (Truthy.str (Some s)); cbn [negb]; [|done]. change (default "" (Some s)) with s.
    assert (trim (collapse_spaces false s) = "") as ->; [|done].
    apply trim_empty. by rewrite all_space_collapse.
Qed.

Lemma normalizeFeedTitle_shape_witness :
  Reading.all_space " " = true ∧ normalizeFeedTitle (Some " ") = None.
Proof.
  split; [reflexivity|].
  apply (proj2 (normalizeFeedTitle_shape None) " "). reflexivity.
Defined.

Lemma string_app_nil_r (s : string) : s +:+ "" = s.
Proof.
  induction s as [|c s IH]; [done|].
  change (String c s +:+ "") with (String c (s +:+ "")). by rewrite IH.
Qed.

Lemma rev_app_app a b : String.rev_app a b = String.rev a +:+ b.
Proof.
  revert b. induction a as [|x a IH]; intros b; [done|].
  unfold String.rev. cbn [String.rev_app].
  rewrite (IH (String x b)), (IH (String x "")).
  by rewrite IndexFacts.string_app_assoc.
Qed.

Lemma rev_app_rev_app a b c :
  String.rev_app (String.rev_app a b) c = String.rev_app b (a +:+ c).
Proof.
  revert b c. induction a as [|x a IH]; intros b c; [done|].
  cbn [String.rev_app]. by rewrite IH.
Qed.

Lemma rev_rev s : String.rev (String.rev s) = s.
Proof. unfold String.rev. rewrite rev_app_rev_app. cbn. apply string_app_nil_r. Qed.

Lemma rev_app_distr a b : String.rev (a +:+ b) = String.rev b +:+ String.rev a.
Proof.
  rewrite <- rev_app_app. unfold String.rev. generalize "".
  induction a as [|x a IH]; intros c; [done|].
  change (String x a +:+ b) with (String x (a +:+ b)).
  cbn [String.rev_app]. apply IH.
Qed.

Lemma trimStart_suffix s : ∃ w, s = w +:+ trimStart s.
Proof.
  induction s as [|c s [w IH]]; [by exists ""|]. cbn [trimStart].
  destruct (is_space c); [|by exists ""].
  exists (String c w). change (String c w +:+ trimStart s)
    with (String c (w +:+ trimStart s)). by rewrite <- IH.
Qed.

Lemma trim_prefix s : ∃ w, trimStart s = trim s +:+ w.
Proof.
  unfold trim. set (u := trimStart s).
  destruct (trimStart_suffix (String.rev u)) as [w Hw].
  exists (String.rev w). rewrite <- rev_app_distr, <- Hw. by rewrite rev_rev.
Qed.

Lemma trimStart_clean s : Reading.starts_clean (trimStart s) = true.
Proof.
  induction s as [|c s IH]; [done|]. cbn [trimStart].
  destruct (is_space c) eqn:Hc; [exact IH|]. cbn. by rewrite Hc.
Qed.

Lemma trimStart_id s : Reading.starts_clean s = true → trimStart s = s.
Proof. destruct s as [|c s]; [done|]. cbn. by destruct (is_space c). Qed.

Lemma starts_clean_prefix a w :
  Reading.starts_clean (a +:+ w) = true → Reading.starts_clean a = true.
Proof. by destruct a. Qed.

Lemma trim_clean s :
  Reading.starts_clean (trim s) = true
  ∧ Reading.starts_clean (String.rev (trim s)) = true.
Proof.
  split.
  - destruct (trim_prefix s) as [w Hw]. apply (starts_clean_prefix _ w).
    rewrite <- Hw. apply trimStart_clean.
  - unfold trim. rewrite rev_rev. apply trimStart_clean.
Qed.

Lemma trim_id s :
  Reading.starts_clean s = true → Reading.starts_clean (String.rev s) = true →
  trim s = s.
Proof.
  intros Hs Hr. unfold trim. rewrite (trimStart_id s Hs), (trimStart_id _ Hr).
  apply rev_rev.
Qed.

Lemma single_spaced_weaken s :
  Reading.single_spaced true s = true → Reading.single_spaced false s = true.
Proof.
  destruct s as [|c s]; [done|]. cbn. destruct (is_space c); [|done].
  by rewrite andb_false_r.
Qed.

Lemma single_spaced_prefix b a c :
  Reading.single_spaced b (a +:+ c) = true → Reading.single_spaced b a = true.
Proof.
  revert b. induction a as [|x a IH]; intros b; [done|].
  change (String x a +:+ c) with (String x (a +:+ c)). cbn.
  destruct (is_space x).
  - intros [H1 H2]%andb_prop. rewrite H1. cbn. by apply IH.
  - apply IH.
Qed.

Lemma single_spaced_trimStart b s :
  Reading.single_spaced b s = true →
  Reading.single_spaced false (trimStart s) = true.
Proof.
  revert b. induction s as [|c s IH]; intros b; [done|]. cbn.
  destruct (is_space c) eqn:Hc.
  - intros [_ H]%andb_prop. by apply (IH true).
  - intros H. cbn. by rewrite Hc.
Qed.

Lemma single_spaced_collapse b s :
  Reading.single_spaced b (collapse_spaces b s) = true.
Proof.
  revert b. induction s as [|c s IH]; intros b; [done|]. cbn.
  destruct (is_space c) eqn:Hc.
  - destruct b; [apply IH|]. cbn. apply IH.
  - cbn. rewrite Hc. apply IH.
Qed.

Lemma collapse_single_spaced b s :
  Reading.single_spaced b s = true → collapse_spaces b s = s.
Proof.
  revert b. induction s as [|c s IH]; intros b; [done|]. cbn.
  destruct (is_space c).
  - intros [[Hc Hb]%andb_prop H]%andb_prop.
    apply Ascii.eqb_eq in Hc as ->. destruct b; [done|].
    by rewrite (IH true H).
  - intros H. by rewrite (IH false H).
Qed.

Lemma single_spaced_trim s :
  Reading.single_spaced false s = true →
  Reading.single_spaced false (trim s) = true.
Proof.
  intros H. destruct (trim_prefix s) as [w Hw].
  apply (single_spaced_prefix false _ w). rewrite <- Hw.
  by apply (single_spaced_trimStart false).
Qed.

Lemma single_spaced_slice0 b n s :
  Reading.single_spaced b s = true →
  Reading.single_spaced b (slice0 n s) = true.
Proof.
  unfold slice0. revert b n. induction s as [|c s IH]; intros b [|n]; try done.
  cbn. destruct (is_space c).
  - intros [H1 H2]%andb_prop. rewrite H1. cbn. by apply IH.
  - apply IH.
Qed.

Lemma single_spaced_dots b a :
  Reading.single_spaced b a = true →
  Reading.single_spaced b (a +:+ "...") = true.
Proof.
  revert b. induction a as [|x a IH]; intros b; [by destruct b|].
  change (String x a +:+ "...") with (String x (a +:+ "...")). cbn.
  destruct (is_space x).
  - intros [H1 H2]%andb_prop. rewrite H1. cbn. by apply IH.
  - apply IH.
Qed.

(** A title that is not empty, has at most 200 code units, has white
    space only as single spaces and none at either end is normalized to
    itself. *)
Lemma normalizeFeedTitle_tidy title :
  title ≠ "" → (String.length title ≤ 200)%nat →
  Reading.single_spaced false title = true →
  Reading.starts_clean title = true →
  Reading.starts_clean (String.rev title) = true →
  normalizeFeedTitle (Some title) = Some title.
Proof.
  intros Hne Hlen Hs Hc Hr. unfold normalizeFeedTitle.
  assert (Truthy.str (Some title) = true) as Ht.
  { cbn. by destruct (String.eqb_spec title ""). }
  rewrite Ht. cbn [negb]. change (default "" (Some title)) with title.
  rewrite (collapse_single_spaced false title Hs), (trim_id title Hc Hr), Ht.
  cbn [negb]. by destruct (Nat.ltb_spec 200 (String.length title)); [lia|].
Qed.

(** X30: normalizing a title twice is normalizing it once; a title that
    was stored normalized is shown as stored. *)
Theorem normalizeFeedTitle_idempotent value :
  normalizeFeedTitle (normalizeFeedTitle value) = normalizeFeedTitle value.
Proof.
  unfold normalizeFeedTitle at 2 3.
  destruct (Truthy.str value); cbn [negb]; [|done].
  set (trimmed := trim (collapse_spaces false (default "" value))).
  assert (Reading.single_spaced false trimmed = true) as Hs
    by apply single_spaced_trim, single_spaced_collapse.
  destruct (trim_clean (collapse_spaces false (default "" value)))
    as [Hc Hr]. fold trimmed in Hc, Hr.
  destruct (Truthy.str (Some trimmed)) eqn:Ht; cbn [negb]; [|done].
  assert (trimmed ≠ "") as Hne by (intros He; by rewrite He in Ht).
  destruct (Nat.ltb_spec 200 (String.length trimmed)) as [Hlong|Hshort].
  - apply normalizeFeedTitle_tidy.
    + intros He. apply (f_equal String.length) in He.
      rewrite length_app, length_slice0 in He. cbn in He. lia.
    + rewrite length_app, length_slice0.
      change (String.length "...") with 3%nat. lia.
    + by apply single_spaced_dots, single_spaced_slice0.
    + destruct trimmed as [|c t]; [done|]. exact Hc.
    + by rewrite rev_app_distr.
  - by apply normalizeFeedTitle_tidy.
Qed.
End TextFacts.

(** ** [hexToBytes] *)

Module HexFacts.
Import Hex.

Lemma to_uint8_range n : 0 ≤ to_uint8 n < 256.
Proof. destruct n as [n|]; simpl; [|lia]. apply Z.mod_pos_bound. lia. Qed.

(** X18: [hexToBytes] throws exactly on a text of odd length.  On a text
    of even length it returns one byte, between 0 and 255, for every two
    code units, whatever they are: code units that are not digits give
    no error. *)
Theorem hexToBytes_shape hex :
  ((String.length hex mod 2)%nat ≠ 0%nat →
     hexToBytes hex = inl (Cycle.Error "Invalid hex string"))
  ∧ ((String.length hex mod 2)%nat = 0%nat →
     ∃ bytes, hexToBytes hex = inr bytes
              ∧ length bytes = (String.length hex / 2)%nat
              ∧ Forall (λ b, 0 ≤ b < 256) bytes).
Proof.
  unfold hexToBytes. split.
  - intros Hodd. apply Nat.eqb_neq in Hodd. by rewrite Hodd.
  - intros Heven. apply Nat.eqb_eq in Heven. rewrite Heven. cbn [negb].
    eexists. split; [reflexivity|]. split.
    + by rewrite length_fmap, length_seq.
    + apply Forall_fmap, Forall_forall. intros i _. apply to_uint8_range.
Qed.

Lemma hexToBytes_shape_witness :
  (String.length "zz0A" mod 2)%nat = 0%nat
  ∧ hexToBytes "zz0A" = inr [0; 10]
  ∧ (String.length "abc" mod 2)%nat ≠ 0%nat
  ∧ hexToBytes "abc" = inl (Cycle.Error "Invalid hex string").
Proof.
  split; [reflexivity|]. split; [reflexivity|]. split; [discriminate|].
  apply (hexToBytes_shape "abc"). discriminate.
Defined.

Lemma byte_read_back upper :
  Forall (λ b, to_uint8 (parseInt16 (hex_of_byte upper b)) = b) (seqZ 0 256).
Proof.
  refine (bool_decide_unpack _ _). destruct upper; vm_compute; exact I.
Qed.

Lemma substring_0_0 s : String.substring 0 0 s = "".
Proof. by destruct s. Qed.

Lemma decode_to_hex upper bytes :
  Forall (λ b, 0 ≤ b < 256) bytes →
  String.length (to_hex upper bytes) = (2 * length bytes)%nat
  ∧ (λ i, to_uint8 (parseInt16
                      (String.substring (i * 2) 2 (to_hex upper bytes))))
      <$> seq 0 (length bytes)
    = bytes.
Proof.
  induction 1 as [|b rest Hb Hrest [IHlen IH]]; [done|].
  cbn [to_hex]. unfold hex_of_byte.
  change (String ?a (String ?c "") +:+ ?r) with (String a (String c r)).
  split.
  - cbn [String.length]. rewrite IHlen. simpl. lia.
  - cbn [length seq fmap list_fmap]. f_equal.
    + cbn [Nat.mul String.substring]. rewrite substring_0_0.
      pose proof (byte_read_back upper) as Hall.
      rewrite Forall_forall in Hall. apply Hall. apply elem_of_seqZ. lia.
    + rewrite <- fmap_S_seq, <- list_fmap_compose. rewrite <- IH at 2.
      apply list_fmap_ext. intros i j _. cbn [compose].
      change (S j * 2)%nat with (S (S (j * 2))). reflexivity.
Qed.

(** X19: [hexToBytes] reads back what a hexadecimal encoder writes: for
    every sequence of bytes, written with two digits per byte in lower
    or in upper case, it returns that sequence. *)
Theorem hexToBytes_to_hex upper bytes :
  Forall (λ b, 0 ≤ b < 256) bytes →
  hexToBytes (to_hex upper bytes) = inr bytes.
Proof.
  intros Hb. destruct (decode_to_hex upper bytes Hb) as [Hlen Hdec].
  unfold hexToBytes. rewrite Hlen.
  replace (2 * length bytes)%nat with (length bytes * 2)%nat by lia.
  rewrite Nat.Div0.mod_mul, Nat.div_mul by lia. cbn [Nat.eqb negb].
  f_equal. rewrite <- Hdec at 2. apply list_fmap_ext. intros i j _.
  by replace (2 * length bytes)%nat with (length bytes * 2)%nat by lia.
Qed.

Lemma hexToBytes_to_hex_witness :
  Forall (λ b, 0 ≤ b < 256) [0; 171; 255]
  ∧ to_hex true [0; 171; 255] = "00ABFF"
  ∧ hexToBytes "00ABFF" = inr [0; 171; 255].
Proof.
  assert (Forall (λ b, 0 ≤ b < 256) [0; 171; 255]) as Hb
    by (repeat constructor; lia).
  split; [exact Hb|]. split; [reflexivity|].
  exact (hexToBytes_to_hex true [0; 171; 255] Hb).
Defined.

End HexFacts.

(** ** The embeds of a listing *)

Module EmbedFacts.
Import Embeds.

Lemma truncateField_length value :
  (String.length (truncateField value) ≤ 1024)%nat.
Proof.
  unfold truncateField.
  destruct (Nat.leb_spec (String.length value) 1024) as [Hle|Hgt]; [done|].
  rewrite TextFacts.length_app, TextFacts.length_slice0.
  change (String.length "...") with 3%nat. lia.
Qed.

Lemma maxFields_pos : (0 < maxFieldsPerEmbed)%nat.
Proof. unfold maxFieldsPerEmbed. lia. Qed.

(** The loop cuts the fields from position [i] on into embeds of at most
    25, in order, within its budget of turns. *)
Lemma embeds_from_cut turns i total (fs : list field) :
  (length fs - i < turns)%nat →
  concat (fields <$> embeds_from turns i total fs) = drop i fs
  ∧ Forall (λ e, (1 ≤ length (fields e) ≤ maxFieldsPerEmbed)%nat)
           (embeds_from turns i total fs)
  ∧ ((0 < i)%nat →
     Forall (λ e, embed_title e = Continued) (embeds_from turns i total fs)).
Proof.
  revert i. induction turns as [|turns IH]; intros i Hlt; [lia|].
  cbn [embeds_from].
  destruct (Nat.ltb_spec i (length fs)) as [Hin|Hout].
  - pose proof maxFields_pos as Hpos.
    destruct (IH (i + maxFieldsPerEmbed)%nat) as (Hcat & Hlen & Htitle); [lia|].
    cbn [fmap list_fmap concat fields]. split; [|split].
    + rewrite Hcat, <- drop_drop. apply take_drop.
    + constructor; [|exact Hlen]. cbn [fields].
      rewrite length_take, length_drop. lia.
    + intros Hi. constructor.
      * cbn [embed_title]. destruct (Nat.eqb_spec i 0); [lia|done].
      * apply Htitle. lia.
  - cbn. rewrite drop_ge by lia. repeat split; constructor.
Qed.

Lemma group_push_not_nil sub grouped : group_push sub grouped ≠ [].
Proof. destruct grouped as [|[c l] rest]; cbn; [done|]. by destruct (String.eqb _ _). Qed.

Lemma group_nil subscriptions : group subscriptions = [] → subscriptions = [].
Proof.
  unfold group. destruct subscriptions as [|s rest] using rev_ind; [done|].
  rewrite foldl_app. cbn. intros H. by apply group_push_not_nil in H.
Qed.

Lemma embeds_shape subscriptions :
  concat (fields <$> buildListEmbeds subscriptions)
  = channel_field <$> group subscriptions
  ∧ (buildListEmbeds subscriptions = [] → subscriptions = []).
Proof.
  unfold buildListEmbeds.
  set (fs := channel_field <$> group subscriptions).
  destruct (embeds_from_cut (S (length fs)) 0 (length subscriptions) fs)
    as (Hcat & _ & _); [lia|].
  rewrite drop_0 in Hcat. split; [exact Hcat|].
  intros He. rewrite He in Hcat. cbn in Hcat. subst fs.
  apply group_nil. symmetry in Hcat. by apply fmap_nil_inv in Hcat.
Qed.

(** X20: the embeds of a listing respect the limits of the platform and
    lose nothing.  Every embed holds between 1 and 25 fields and every
    field value has at most 1024 code units; the fields of the embeds,
    taken in order, are the fields of the channels, one per channel;
    the first embed is headed with the number of subscriptions and the
    others as continuations; and there is an embed whenever there is a
    subscription. *)
Theorem buildListEmbeds_limits subscriptions :
  Forall (λ e, (1 ≤ length (fields e) ≤ 25)%nat
               ∧ Forall (λ f, (String.length (value f) ≤ 1024)%nat) (fields e))
         (buildListEmbeds subscriptions)
  ∧ concat (fields <$> buildListEmbeds subscriptions)
    = channel_field <$> group subscriptions
  ∧ match buildListEmbeds subscriptions with
    | [] => subscriptions = []
    | first :: others =>
        embed_title first = ListOf (length subscriptions)
        ∧ Forall (λ e, embed_title e = Continued) others
    end.
Proof.
  unfold buildListEmbeds.
  set (fs := channel_field <$> group subscriptions).
  destruct (embeds_from_cut (S (length fs)) 0 (length subscriptions) fs)
    as (Hcat & Hlen & _); [lia|].
  rewrite drop_0 in Hcat.
  assert (Forall (λ f, (String.length (value f) ≤ 1024)%nat) fs) as Hval.
  { subst fs. apply Forall_fmap, Forall_forall. intros [c l] _.
    cbn. apply truncateField_length. }
  split; [|split; [exact Hcat|]].
  - rewrite <- Hcat in Hval. rewrite Forall_concat, Forall_fmap in Hval.
    rewrite Forall_forall in Hval, Hlen |- *. intros e He. split.
    + apply (Hlen e He).
    + apply (Hval e He).
  - cbn [embeds_from]. destruct (Nat.ltb_spec 0 (length fs)) as [Hin|Hout].
    + split; [done|].
      destruct (embeds_from_cut (length fs) (0 + maxFieldsPerEmbed)
                  (length subscriptions) fs) as (_ & _ & Ht).
      { pose proof maxFields_pos. lia. }
      apply Ht. pose proof maxFields_pos. lia.
    + assert (group subscriptions = []) as Hg.
      { subst fs. rewrite length_fmap in Hout.
        destruct (group subscriptions); [done|simpl in Hout; lia]. }
      by apply group_nil.
Qed.

Lemma filter_none {A} (P : A → Prop) `{∀ x, Decision (P x)} (l : list A) :
  (∀ x, x ∈ l → ¬ P x) → filter P l = [].
Proof.
  induction l as [|x r IH]; intros Hall; [done|].
  rewrite filter_cons_False by (apply Hall; apply elem_of_cons; by left).
  apply IH. intros y Hy. apply Hall. apply elem_of_cons. by right.
Qed.

Lemma group_push_keys sub grouped :
  (group_push sub grouped).*1
  = if bool_decide (Subscription.channelId sub ∈ grouped.*1)
    then grouped.*1
    else (grouped.*1 ++ [Subscription.channelId sub])%list.
Proof.
  induction grouped as [|[c l] rest IH]; [done|]. cbn.
  destruct (String.eqb_spec c (Subscription.channelId sub)) as [->|Hne]; cbn.
  - rewrite bool_decide_eq_true_2; [done|]. apply elem_of_cons. by left.
  - rewrite IH. case_bool_decide as Hin.
    + rewrite bool_decide_eq_true_2; [done|]. apply elem_of_cons. by right.
    + rewrite bool_decide_eq_false_2; [done|].
      intros [?|?]%elem_of_cons; [by subst|done].
Qed.

Lemma group_push_elem sub grouped c l :
  NoDup grouped.*1 →
  (c, l) ∈ group_push sub grouped →
  (c ≠ Subscription.channelId sub ∧ (c, l) ∈ grouped)
  ∨ (c = Subscription.channelId sub
     ∧ ((∃ l0, (c, l0) ∈ grouped ∧ l = (l0 ++ [sub])%list)
        ∨ ((c ∉ grouped.*1) ∧ l = [sub]))).
Proof.
  induction grouped as [|[c0 l0] rest IH]; intros Hnd Hin.
  - cbn in Hin. apply elem_of_cons in Hin as [[= -> ->]|Hin].
    + right. split; [done|]. right. split; [|done]. apply not_elem_of_nil.
    + by apply elem_of_nil in Hin.
  - cbn in Hnd. apply NoDup_cons in Hnd as [Hc0 Hnd]. cbn in Hin.
    destruct (String.eqb_spec c0 (Subscription.channelId sub)) as [->|Hne].
    + apply elem_of_cons in Hin as [[= -> ->]|Hin].
      * right. split; [done|]. left. exists l0. split; [|done].
        apply elem_of_cons. by left.
      * left. split.
        -- intros Heq. apply Hc0. rewrite <- Heq.
           apply list_elem_of_fmap. by exists (c, l).
        -- apply elem_of_cons. by right.
    + apply elem_of_cons in Hin as [[= -> ->]|Hin].
      * left. split; [done|]. apply elem_of_cons. by left.
      * destruct (IH Hnd Hin) as [[Hc Hl]|[-> [(l1 & Hl1 & ->)|[Hout ->]]]].
        -- left. split; [done|]. apply elem_of_cons. by right.
        -- right. split; [done|]. left. exists l1. split; [|done].
           apply elem_of_cons. by right.
        -- right. split; [done|]. right. split; [|done].
           cbn. intros [?|?]%elem_of_cons; [by subst|done].
Qed.

Lemma group_push_ok sub grouped seen :
  grouped_ok grouped seen → grouped_ok (group_push sub grouped) (seen ++ [sub]).
Proof.
  intros (Hnd & Hall & Hcov). split; [|split].
  - rewrite group_push_keys. case_bool_decide as Hin; [done|].
    apply NoDup_app. split; [done|]. split; [|apply NoDup_singleton].
    intros x Hx [->|Hx']%elem_of_cons; [done|]. by apply elem_of_nil in Hx'.
  - intros c l Hin. rewrite filter_app, filter_cons, filter_nil.
    destruct (group_push_elem _ _ _ _ Hnd Hin)
      as [[Hc Hl]|[-> [(l1 & Hl1 & ->)|[Hout ->]]]].
    + destruct (Hall c l Hl) as [Hne ->].
      rewrite decide_False by (by intros H). by rewrite app_nil_r.
    + destruct (Hall _ l1 Hl1) as [Hne ->]. rewrite decide_True by done.
      split; [|done]. by destruct (filter _ seen).
    + rewrite decide_True by done. split; [done|].
      rewrite filter_none; [done|].
      intros s Hs Heq. apply Hout. rewrite <- Heq. by apply Hcov.
  - intros s Hs. rewrite group_push_keys.
    apply elem_of_app in Hs as [Hs|Hs].
    + case_bool_decide; [by apply Hcov|].
      apply elem_of_app. left. by apply Hcov.
    + apply list_elem_of_singleton in Hs as ->.
      case_bool_decide as Hin; [done|].
      apply elem_of_app. right. apply elem_of_cons. by left.
Qed.

Lemma group_ok subscriptions : grouped_ok (group subscriptions) subscriptions.
Proof.
  unfold group. induction subscriptions as [|sub rest IH] using rev_ind.
  - split; [constructor|]. split.
    + intros c l Hin. by apply elem_of_nil in Hin.
    + intros s Hs. by apply elem_of_nil in Hs.
  - rewrite foldl_app. cbn. by apply group_push_ok.
Qed.

(** X21: the listing has one field per channel and every subscription in
    the field of its channel.  The channels of the fields are pairwise
    different; the field of a channel stands for the subscriptions of
    that channel, all of them and in the order given, and there is at
    least one; every subscription's channel has a field. *)
Theorem group_by_channel subscriptions :
  NoDup (group subscriptions).*1
  ∧ (∀ c l, (c, l) ∈ group subscriptions →
            l ≠ []
            ∧ l = filter (λ s, Subscription.channelId s = c) subscriptions)
  ∧ (∀ s, s ∈ subscriptions →
          Subscription.channelId s ∈ (group subscriptions).*1).
Proof. apply group_ok. Qed.

Lemma group_by_channel_witness :
  Sample2.fresh ∈ [Sample2.seen_first; Sample2.fresh]
  ∧ Subscription.channelId Sample2.fresh
    ∈ (group [Sample2.seen_first; Sample2.fresh]).*1.
Proof.
  assert (Sample2.fresh ∈ [Sample2.seen_first; Sample2.fresh]) as Hin
    by (apply elem_of_cons; right; apply elem_of_cons; left; reflexivity).
  split; [exact Hin|].
  destruct (group_by_channel [Sample2.seen_first; Sample2.fresh])
    as (_ & _ & Hfield).
  exact (Hfield Sample2.fresh Hin).
Defined.


End EmbedFacts.

(** ** The command handlers *)

Module HandlerFacts.
Import Kv Index Cycle Handlers.

Lemma get_sub_delete_eq k kv : get_sub (kv_delete k kv) k = None.
Proof. unfold get_sub, kv_delete. cbn. by rewrite lookup_delete_eq. Qed.

Lemma get_sub_delete_ne k k' kv :
  k ≠ k' → get_sub (kv_delete k kv) k' = get_sub kv k'.
Proof. intros Hne. unfold get_sub, kv_delete. cbn. by rewrite lookup_delete_ne. Qed.

Lemma index_ids_delete_sub g subId kv g' :
  index_ids (kv_delete (subscriptionKey g subId) kv) g' = index_ids kv g'.
Proof.
  unfold index_ids, get_ids, kv_delete. cbn. rewrite lookup_delete_ne; [done|].
  apply KeyFacts.subscriptionKey_not_index.
Qed.

Lemma get_sub_put_eq k s kv : get_sub (put k (JSub s) kv) k = Some s.
Proof. unfold get_sub, put. cbn. by rewrite lookup_insert_eq. Qed.

Lemma get_sub_put_ne k k' v kv :
  k ≠ k' → get_sub (put k v kv) k' = get_sub kv k'.
Proof. intros Hne. unfold get_sub. by rewrite IndexFacts.data_put_ne. Qed.

Lemma index_ids_put_sub g subId v kv g' :
  index_ids (put (subscriptionKey g subId) v kv) g' = index_ids kv g'.
Proof.
  unfold index_ids, get_ids. rewrite IndexFacts.data_put_ne; [done|].
  apply KeyFacts.subscriptionKey_not_index.
Qed.

Lemma removeFromIndex_value_returns kv g idValue kv' :
  Worker.removeFromIndex_value kv g idValue = (inr tt, kv') →
  removeFromIndex_value kv g idValue = kv'.
Proof.
  destruct idValue; cbn [Worker.removeFromIndex_value removeFromIndex_value];
    try (destruct (Worker.get_ids kv (guildIndexKey g)); by intros [= <-]).
  apply IndexFacts.removeFromIndex_returns.
Qed.

Lemma removeFromIndex_value_throws kv g idValue e kv' :
  Worker.removeFromIndex_value kv g idValue = (inl e, kv') →
  kv' = kv ∧ e = Worker.syntax_error
  ∧ data kv !! guildIndexKey g = Some Corrupt.
Proof.
  destruct idValue; cbn [Worker.removeFromIndex_value];
    try (destruct (Worker.get_ids kv (guildIndexKey g)) as [e'|] eqn:Hids;
         [|done]; intros [= <- <-];
         by apply IndexFacts.get_ids_throws in Hids as [-> Hc]).
  apply IndexFacts.removeFromIndex_throws.
Qed.

Lemma get_sub_removeFromIndex_value kv g idValue g' subId' :
  get_sub (removeFromIndex_value kv g idValue) (subscriptionKey g' subId')
  = get_sub kv (subscriptionKey g' subId').
Proof.
  destruct idValue; cbn [removeFromIndex_value]; try done.
  apply IndexMore.get_sub_removeFromIndex.
Qed.

Lemma removeFromIndex_value_others kv g idValue other :
  idValue ≠ Js.Str other →
  other ∈ index_ids (removeFromIndex_value kv g idValue) g
  ↔ other ∈ index_ids kv g.
Proof.
  intros Hne. destruct idValue; cbn [removeFromIndex_value]; try done.
  apply IndexMore.removeFromIndex_others. intros ->. by apply Hne.
Qed.

Lemma removeFromIndex_value_other_guild kv g idValue g' :
  g' ≠ g → index_ids (removeFromIndex_value kv g idValue) g' = index_ids kv g'.
Proof.
  intros Hne. destruct idValue; cbn [removeFromIndex_value]; try done.
  by apply IndexMore.index_ids_removeFromIndex_other.
Qed.

Section WithPlatform.
Context `{platform : Platform}.
#[local] Existing Instance platform_host.

(** X22: what [handleUnsubscribe] does to the store.  When it answers
    that the subscription is removed, the value given for the id was
    truthy, the record shown was stored under the key of its text, and
    afterwards that key reads as absent and the index of the guild does
    not list the id, while every other id of the index, every other
    record and the network are as before.  With every other reply the
    state is unchanged.  When it throws, either the state is unchanged
    or the record was found and deleted and the read of an index record
    that is not JSON was rejected: the record is gone and the index is
    as it was. *)
Theorem handleUnsubscribe_effect g options s r s' :
  Worker.handleUnsubscribe g options s = (r, s') →
  match r with
  | inr (Unsubscribed existing) =>
      ∃ idValue,
        find_option "subscribed_id" options = inr idValue
        ∧ Js.truthy idValue = true
        ∧ get_sub (kv s) (subscriptionKey g (Js.to_String idValue))
          = Some existing
        ∧ get_sub (kv s') (subscriptionKey g (Js.to_String idValue)) = None
        ∧ (∀ subId, idValue = Js.Str subId → subId ∉ index_ids (kv s') g)
        ∧ (∀ other, idValue ≠ Js.Str other →
                    other ∈ index_ids (kv s') g ↔ other ∈ index_ids (kv s) g)
        ∧ (∀ g' subId',
             subscriptionKey g' subId'
             ≠ subscriptionKey g (Js.to_String idValue) →
             get_sub (kv s') (subscriptionKey g' subId')
             = get_sub (kv s) (subscriptionKey g' subId'))
        ∧ net s' = net s
  | inr _ => s' = s
  | inl e =>
      s' = s
      ∨ ∃ idValue existing,
          find_option "subscribed_id" options = inr idValue
          ∧ get_sub (kv s) (subscriptionKey g (Js.to_String idValue))
            = Some existing
          ∧ data (kv s) !! guildIndexKey g = Some Corrupt
          ∧ s' = {| kv := kv_delete (subscriptionKey g (Js.to_String idValue))
                            (kv s);
                    net := net s |}
  end.
Proof.
  unfold Worker.handleUnsubscribe.
  destruct (find_option "subscribed_id" options) as [e|idValue] eqn:Hopt.
  { intros [= <- <-]. by left. }
  destruct (Js.truthy idValue) eqn:Hv; cbn [negb].
  2: { by intros [= <- <-]. }
  destruct (Worker.get_sub (kv s) (subscriptionKey g (Js.to_String idValue)))
    as [e|[existing|]] eqn:Hread.
  { intros [= <- <-]. by left. }
  2: { by intros [= <- <-]. }
  apply IndexFacts.get_sub_returns in Hread. symmetry in Hread.
  set (kv1 := kv_delete (subscriptionKey g (Js.to_String idValue)) (kv s)).
  destruct (Worker.removeFromIndex_value kv1 g idValue) as [[e|[]] kv2] eqn:Hrem.
  { intros [= <- <-]. right.
    apply removeFromIndex_value_throws in Hrem as (-> & _ & Hc).
    exists idValue, existing. split; [done|]. split; [done|]. split; [|done].
    subst kv1. unfold kv_delete in Hc. cbn [data] in Hc.
    rewrite lookup_delete_ne in Hc; [done|].
    apply KeyFacts.subscriptionKey_not_index. }
  apply removeFromIndex_value_returns in Hrem as <-.
  intros [= <- <-]. cbn [kv net].
  exists idValue. split; [done|]. split; [done|]. split; [done|].
  split; [|split; [|split; [|split; [|done]]]].
  - rewrite get_sub_removeFromIndex_value. apply get_sub_delete_eq.
  - intros subId ->. cbn [removeFromIndex_value].
    apply IndexMore.removeFromIndex_out.
  - intros other Hother. rewrite (removeFromIndex_value_others _ _ _ _ Hother).
    subst kv1. by rewrite index_ids_delete_sub.
  - intros g' subId' Hkey. rewrite get_sub_removeFromIndex_value.
    subst kv1. by apply get_sub_delete_ne.
Qed.

Lemma find_duplicate_Some c u existing dup :
  find_duplicate c u existing = Some dup →
  dup ∈ existing ∧ Subscription.channelId dup = c ∧ Subscription.url dup = u.
Proof.
  unfold find_duplicate. destruct (list_find _ existing) as [[i x]|] eqn:Hf; [|done].
  intros [= <-]. apply list_find_Some in Hf as (Hx & [Hc Hu] & _).
  split; [|done]. eapply list_elem_of_lookup_2. exact Hx.
Qed.

Lemma find_duplicate_None c u existing :
  find_duplicate c u existing = None →
  ∀ sub, sub ∈ existing →
         ¬ (Subscription.channelId sub = c ∧ Subscription.url sub = u).
Proof.
  unfold find_duplicate. destruct (list_find _ existing) as [[i x]|] eqn:Hf; [done|].
  intros _ sub Hin. apply list_find_None in Hf. rewrite Forall_forall in Hf.
  by apply Hf.
Qed.

(** X23: a subscribe that is turned down creates nothing.  When no URL
    is given, the URL does not parse, or its protocol is neither http
    nor https, the state is unchanged: nothing is read, fetched or
    written.  When the channel already follows that URL, the
    subscription shown is one of the listed ones, of that channel, and
    no probe is made.  In that case and when the probe fails, every
    subscription record reads as before. *)
Theorem handleSubscribe_turned_down g c options s r s' :
  handleSubscribe g c options s = (r, s') →
  match r with
  | inl _ | inr MissingUrl | inr BadUrl | inr BadProtocol => s' = s
  | inr (AlreadySubscribed c' duplicate) =>
      c' = c
      ∧ duplicate ∈ (getSubscriptionsForGuild (kv s) g).1
      ∧ Subscription.channelId duplicate = c
      ∧ net s' = net s
      ∧ (∀ g' subId, get_sub (kv s') (subscriptionKey g' subId)
                     = get_sub (kv s) (subscriptionKey g' subId))
  | inr (CouldNotSubscribe _ _) =>
      ∀ g' subId, get_sub (kv s') (subscriptionKey g' subId)
                  = get_sub (kv s) (subscriptionKey g' subId)
  | _ => True
  end.
Proof.
  unfold handleSubscribe.
  destruct (find_option "url" options) as [e|v]; [by intros [= <- <-]|].
  destruct (negb (Js.truthy v)); [by intros [= <- <-]|].
  destruct (URL_parse _) as [parsedUrl|]; [|by intros [= <- <-]].
  destruct (negb (String.eqb (protocol parsedUrl) "http:")
            && negb (String.eqb (protocol parsedUrl) "https:"));
    [by intros [= <- <-]|].
  pose proof (IndexMore.get_sub_listing (kv s) g) as Hsame.
  destruct (getSubscriptionsForGuild (kv s) g) as [existing kv1].
  cbn [fst snd] in Hsame |- *.
  destruct (find_duplicate c (href parsedUrl) existing) as [dup|] eqn:Hdup.
  { intros [= <- <-]. apply find_duplicate_Some in Hdup as (Hin & Hc & _).
    cbn [kv net]. done. }
  destruct (probeFeed (href parsedUrl) (net s)) as [[reason|[f title]] w1].
  { intros [= <- <-]. cbn [kv]. exact Hsame. }
  destruct (ulid w1) as [id w2]. destruct (Date_now w2) as [createdAt w3].
  by intros [= <- <-].
Qed.

(** X24: what a successful subscribe leaves.  The new subscription is
    for the guild and channel of the command and for the URL as the
    parser renders it, whose protocol is http or https; it has no
    watermark and an error count of 0; it is stored under its key and
    its id is in the index of the guild; no listed subscription had that
    channel and URL; and every record under another key reads as
    before. *)
Theorem handleSubscribe_creates g c options s c' sub s' :
  handleSubscribe g c options s = (inr (Subscribed c' sub), s') →
  c' = c
  ∧ Subscription.guildId sub = g
  ∧ Subscription.channelId sub = c
  ∧ (∃ urlValue parsedUrl,
       find_option "url" options = inr urlValue
       ∧ Js.truthy urlValue = true
       ∧ URL_parse (Js.to_String urlValue) = Some parsedUrl
       ∧ Subscription.url sub = href parsedUrl
       ∧ (protocol parsedUrl = "http:" ∨ protocol parsedUrl = "https:"))
  ∧ Subscription.lastItemId sub = None
  ∧ Subscription.lastItemDate sub = None
  ∧ Subscription.errorCount sub = Some 0
  ∧ get_sub (kv s') (subscriptionKey g (Subscription.id sub)) = Some sub
  ∧ Subscription.id sub ∈ index_ids (kv s') g
  ∧ (∀ other, other ∈ (getSubscriptionsForGuild (kv s) g).1 →
              ¬ (Subscription.channelId other = c
                 ∧ Subscription.url other = Subscription.url sub))
  ∧ (∀ g' subId,
       subscriptionKey g' subId ≠ subscriptionKey g (Subscription.id sub) →
       get_sub (kv s') (subscriptionKey g' subId)
       = get_sub (kv s) (subscriptionKey g' subId)).
Proof.
  unfold handleSubscribe.
  destruct (find_option "url" options) as [e|v]; [done|].
  destruct (Js.truthy v) eqn:Hv; cbn [negb]; [|done].
  destruct (URL_parse (Js.to_String v)) as [parsedUrl|] eqn:Hurl; [|done].
  destruct (String.eqb_spec (protocol parsedUrl) "http:") as [Hhttp|Hhttp];
    destruct (String.eqb_spec (protocol parsedUrl) "https:") as [Hhttps|Hhttps];
    cbn [negb andb]; try done.
  all: pose proof (IndexMore.get_sub_listing (kv s) g) as Hsame;
    destruct (getSubscriptionsForGuild (kv s) g) as [existing kv1];
    cbn [fst snd] in Hsame |- *;
    destruct (find_duplicate c (href parsedUrl) existing) as [dup|] eqn:Hdup;
    [done|];
    destruct (probeFeed (href parsedUrl) (net s)) as [[reason|[f title]] w1];
    [done|];
    destruct (ulid w1) as [id w2]; destruct (Date_now w2) as [createdAt w3];
    intros [= <- <- <-]; cbn [kv Subscription.guildId Subscription.channelId
      Subscription.url Subscription.lastItemId Subscription.lastItemDate
      Subscription.errorCount Subscription.id];
    (split; [done|]); (split; [done|]); (split; [done|]);
    (split; [by exists v, parsedUrl; repeat split; auto|]);
    (split; [done|]); (split; [done|]); (split; [done|]);
    (split; [rewrite IndexMore.get_sub_addToIndex; apply get_sub_put_eq|]);
    (split; [apply IndexMore.addToIndex_in|]);
    (split; [by apply find_duplicate_None|]);
    intros g' subId Hkey; rewrite IndexMore.get_sub_addToIndex;
    rewrite get_sub_put_ne by (intros H; by apply Hkey); apply Hsame.
Qed.

Lemma handleSubscribe_state g c options s c' sub s1 :
  handleSubscribe g c options s = (inr (Subscribed c' sub), s1) →
  kv s1 = addToIndex
            (put (subscriptionKey g (Subscription.id sub)) (JSub sub)
                 (getSubscriptionsForGuild (kv s) g).2)
            g (Subscription.id sub).
Proof.
  unfold handleSubscribe.
  destruct (find_option "url" options) as [e|v]; [done|].
  destruct (negb (Js.truthy v)); [done|].
  destruct (URL_parse _) as [parsedUrl|]; [|done].
  destruct (negb (String.eqb (protocol parsedUrl) "http:")
            && negb (String.eqb (protocol parsedUrl) "https:")); [done|].
  destruct (getSubscriptionsForGuild (kv s) g) as [existing kv1].
  destruct (find_duplicate c (href parsedUrl) existing) as [dup|]; [done|].
  destruct (probeFeed (href parsedUrl) (net s)) as [[reason|[f title]] w1];
    [done|].
  destruct (ulid w1) as [id w2]. destruct (Date_now w2) as [createdAt w3].
  by intros [= <- <- <-].
Qed.

Lemma filter_app_out (subId : string) (index : list string) :
  filter (λ id, id ≠ subId) (index ++ [subId])%list
  = filter (λ id, id ≠ subId) index.
Proof.
  rewrite filter_app, filter_cons_False by (intros H; by apply H).
  by rewrite filter_nil, app_nil_r.
Qed.

(** X25: unsubscribing what was just subscribed undoes it.  After a
    successful subscribe whose id is not empty, an unsubscribe of the
    same guild with that id answers with the subscription created; then
    its key reads as absent, every other record reads as before the
    subscribe, the index of the guild is the one the subscribe found
    after its listing, without that id, and the indexes of the other
    guilds are as before. *)
Theorem subscribe_then_unsubscribe g c options options' s c' sub s1 :
  handleSubscribe g c options s = (inr (Subscribed c' sub), s1) →
  Subscription.id sub ≠ "" →
  find_option "subscribed_id" options' = inr (Js.Str (Subscription.id sub)) →
  ∃ s2,
    handleUnsubscribe g options' s1 = (inr (Unsubscribed sub), s2)
    ∧ get_sub (kv s2) (subscriptionKey g (Subscription.id sub)) = None
    ∧ (∀ g' subId,
         subscriptionKey g' subId ≠ subscriptionKey g (Subscription.id sub) →
         get_sub (kv s2) (subscriptionKey g' subId)
         = get_sub (kv s) (subscriptionKey g' subId))
    ∧ index_ids (kv s2) g
      = filter (λ id, id ≠ Subscription.id sub)
               (index_ids (getSubscriptionsForGuild (kv s) g).2 g)
    ∧ (∀ g', g' ≠ g → index_ids (kv s2) g' = index_ids (kv s) g').
Proof.
  intros Hsub Hid Hopt. apply handleSubscribe_state in Hsub.
  set (subId := Subscription.id sub) in *.
  set (kv1 := (getSubscriptionsForGuild (kv s) g).2) in *.
  unfold handleUnsubscribe. rewrite Hopt. cbn [Js.truthy Js.to_String].
  destruct (String.eqb_spec subId "") as [He|_]; [done|]. cbn [negb].
  rewrite Hsub, IndexMore.get_sub_addToIndex, get_sub_put_eq.
  cbn [removeFromIndex_value].
  eexists. split; [reflexivity|]. cbn [kv].
  split; [|split; [|split]].
  - rewrite IndexMore.get_sub_removeFromIndex. apply get_sub_delete_eq.
  - intros g' subId' Hkey. rewrite IndexMore.get_sub_removeFromIndex.
    rewrite get_sub_delete_ne by (intros H; by apply Hkey).
    rewrite IndexMore.get_sub_addToIndex.
    rewrite get_sub_put_ne by (intros H; by apply Hkey).
    apply IndexMore.get_sub_listing.
  - rewrite IndexFacts.removeFromIndex_ids, index_ids_delete_sub.
    rewrite IndexFacts.addToIndex_ids, index_ids_put_sub.
    case_bool_decide; [apply filter_app_out|done].
  - intros g' Hne. rewrite IndexMore.index_ids_removeFromIndex_other by done.
    rewrite index_ids_delete_sub.
    rewrite IndexMore.index_ids_addToIndex_other by done.
    rewrite index_ids_put_sub. by apply IndexMore.index_ids_listing_other.
Qed.

(** X26: listing reads and reports, and changes no subscription.
    Whatever the outcome, the handler leaves the network and the text
    under every subscription key as they were.  It answers that there
    is no subscription exactly when the listing of the guild returns
    none; otherwise it answers with at least one embed, and the fields
    of its embeds are those of the channels of the subscriptions
    listed.  It throws exactly when the listing does: then nothing was
    written, and the index record of the guild or a text under one of
    its subscription keys is not JSON. *)
Theorem handleList_reads_only g s r s' :
  Worker.handleList g s = (r, s') →
  net s' = net s
  ∧ (∀ g' subId, data (kv s') !! subscriptionKey g' subId
                 = data (kv s) !! subscriptionKey g' subId)
  ∧ match r with
    | inr NoSubscriptions =>
        Worker.getSubscriptionsForGuild (kv s) g = (inr [], kv s')
    | inr (Listing embeds) =>
        ∃ subscriptions,
          Worker.getSubscriptionsForGuild (kv s) g = (inr subscriptions, kv s')
          ∧ subscriptions ≠ []
          ∧ embeds ≠ []
          ∧ concat (Embeds.fields <$> embeds)
            = Embeds.channel_field <$> Embeds.group subscriptions
    | inr _ => False
    | inl e =>
        s' = s
        ∧ Worker.getSubscriptionsForGuild (kv s) g = (inl e, kv s)
        ∧ (data (kv s) !! guildIndexKey g = Some Corrupt
           ∨ ∃ subId, data (kv s) !! subscriptionKey g subId = Some Corrupt)
    end.
Proof.
  unfold Worker.handleList.
  destruct (Worker.getSubscriptionsForGuild (kv s) g) as [[e|subscriptions] kv1]
    eqn:Hrun.
  { intros [= <- <-]. cbn [kv net].
    apply IndexFacts.getSubscriptionsForGuild_throws in Hrun as (-> & -> & Hc).
    split; [done|]. split; [done|]. split; [by destruct s|]. done. }
  pose proof (IndexFacts.getSubscriptionsForGuild_returns _ _ _ _ Hrun) as Htotal.
  assert (∀ g' subId, data kv1 !! subscriptionKey g' subId
                      = data (kv s) !! subscriptionKey g' subId) as Hsame.
  { intros g' subId.
    destruct (IndexMore.listing_state (kv s) g) as [Hst|Hst];
      rewrite Htotal in Hst; cbn [snd] in Hst; rewrite Hst; [done|].
    apply IndexFacts.data_put_ne. intros Heq. symmetry in Heq.
    by apply KeyFacts.subscriptionKey_not_index in Heq. }
  destruct (Nat.eqb_spec (length subscriptions) 0) as [Hlen|Hlen];
    intros [= <- <-]; cbn [kv net]; (split; [done|]); (split; [exact Hsame|]).
  - apply nil_length_inv in Hlen. by subst.
  - assert (subscriptions ≠ []) as Hne by (intros ->; by apply Hlen).
    exists subscriptions. split; [done|]. split; [exact Hne|].
    destruct (EmbedFacts.embeds_shape subscriptions) as [Hcat Hnil].
    split; [|exact Hcat].
    intros He. apply Hne, Hnil, He.
Qed.

(** X27: a subscription is created only for a URL that answered with a
    feed.  After a successful subscribe, the probe of the URL of the
    subscription was answered with a status from 200 to 299, the body
    parsed as a feed whose format is known, and the title kept is the
    normalized title of that feed. *)
Theorem handleSubscribe_needs_feed g c options s c' sub s' :
  handleSubscribe g c options s = (inr (Subscribed c' sub), s') →
  ∃ response w feed,
    fetch_probe (Subscription.url sub) (net s) = (Answered response, w)
    ∧ (200 ≤ status response ≤ 299)%N
    ∧ parseFeed (text response) = inr feed
    ∧ Normalize.feed_format feed ≠ Normalize.unknown
    ∧ Subscription.feedTitle sub
      = normalizeFeedTitle (Normalize.feed_title feed).
Proof.
  unfold handleSubscribe.
  destruct (find_option "url" options) as [e|v]; [done|].
  destruct (negb (Js.truthy v)); [done|].
  destruct (URL_parse _) as [parsedUrl|]; [|done].
  destruct (negb (String.eqb (protocol parsedUrl) "http:")
            && negb (String.eqb (protocol parsedUrl) "https:")); [done|].
  destruct (getSubscriptionsForGuild (kv s) g) as [existing kv1].
  destruct (find_duplicate c (href parsedUrl) existing) as [dup|]; [done|].
  unfold probeFeed.
  destruct (fetch_probe (href parsedUrl) (net s)) as [[|e|response] w] eqn:Hf;
    [done|done|].
  destruct (ok response) eqn:Hok; cbn [negb]; [|done].
  destruct (parseFeed (text response)) as [e|feed] eqn:Hp; [done|].
  destruct (Normalize.feed_format feed) eqn:Hfmt; try done.
  all: destruct (ulid w) as [id w2]; destruct (Date_now w2) as [createdAt w3];
    intros [= <- <- <-]; cbn [Subscription.url Subscription.feedTitle];
    exists response, w, feed; (split; [exact Hf|]);
    (split; [unfold ok in Hok; apply andb_prop in Hok as [H1 H2];
             apply N.leb_le in H1; apply N.leb_le in H2; lia|]);
    (split; [done|]); (split; [by rewrite Hfmt|done]).
Qed.

(** A subscribe that throws has written nothing: it throws at the read
    of the options or with the listing, and never after the record was
    put. *)
Lemma handleSubscribe_throws g c options s e s' :
  Worker.handleSubscribe g c options s = (inl e, s') → s' = s.
Proof.
  unfold Worker.handleSubscribe.
  destruct (find_option "url" options) as [e'|v]; [by intros [= <- <-]|].
  destruct (negb (Js.truthy v)); [done|].
  destruct (URL_parse _) as [parsedUrl|]; [|done].
  destruct (negb (String.eqb (protocol parsedUrl) "http:")
            && negb (String.eqb (protocol parsedUrl) "https:")); [done|].
  destruct (Worker.getSubscriptionsForGuild (kv s) g) as [[e'|existing] kv1]
    eqn:Hrun.
  { intros [= <- <-].
    apply IndexFacts.getSubscriptionsForGuild_throws in Hrun as (-> & _).
    by destruct s. }
  destruct (find_duplicate c (href parsedUrl) existing) as [dup|]; [done|].
  destruct (probeFeed (href parsedUrl) (net s)) as [[reason|[f title]] w1];
    [done|].
  destruct (ulid w1) as [id w2]. destruct (Date_now w2) as [createdAt w3].
  rewrite IndexFacts.addToIndex_reads; [done|].
  rewrite IndexFacts.data_put_ne by apply KeyFacts.subscriptionKey_not_index.
  by apply (IndexFacts.getSubscriptionsForGuild_index_json _ _ _ _ Hrun).
Qed.

(** When a subscribe returns, it returns what [Handlers]'s does. *)
Lemma handleSubscribe_returns g c options s r s' :
  Worker.handleSubscribe g c options s = (inr r, s') →
  handleSubscribe g c options s = (inr r, s').
Proof.
  unfold Worker.handleSubscribe, handleSubscribe.
  destruct (find_option "url" options) as [e'|v]; [done|].
  destruct (negb (Js.truthy v)); [done|].
  destruct (URL_parse _) as [parsedUrl|]; [|done].
  destruct (negb (String.eqb (protocol parsedUrl) "http:")
            && negb (String.eqb (protocol parsedUrl) "https:")); [done|].
  destruct (Worker.getSubscriptionsForGuild (kv s) g) as [[e'|existing] kv1]
    eqn:Hrun; [done|].
  rewrite (IndexFacts.getSubscriptionsForGuild_returns _ _ _ _ Hrun).
  destruct (find_duplicate c (href parsedUrl) existing) as [dup|]; [done|].
  destruct (probeFeed (href parsedUrl) (net s)) as [[reason|[f title]] w1];
    [done|].
  destruct (ulid w1) as [id w2]. destruct (Date_now w2) as [createdAt w3].
  rewrite IndexFacts.addToIndex_reads; [done|].
  rewrite IndexFacts.data_put_ne by apply KeyFacts.subscriptionKey_not_index.
  by apply (IndexFacts.getSubscriptionsForGuild_index_json _ _ _ _ Hrun).
Qed.

(** When an unsubscribe returns, it returns what [Handlers]'s does. *)
Lemma handleUnsubscribe_returns g options s r s' :
  Worker.handleUnsubscribe g options s = (inr r, s') →
  handleUnsubscribe g options s = (inr r, s').
Proof.
  unfold Worker.handleUnsubscribe, handleUnsubscribe.
  destruct (find_option "subscribed_id" options) as [e|idValue]; [done|].
  destruct (negb (Js.truthy idValue)); [done|].
  destruct (Worker.get_sub (kv s) _) as [e|sub] eqn:Hread; [done|].
  apply IndexFacts.get_sub_returns in Hread as ->.
  destruct (get_sub (kv s) _) as [existing|]; [|done].
  destruct (Worker.removeFromIndex_value _ g idValue) as [[e|[]] kv2] eqn:Hrem;
    [done|].
  by apply removeFromIndex_value_returns in Hrem as <-.
Qed.

End WithPlatform.
End HandlerFacts.

(** ** The entry point *)

Module GatewayFacts.
Import Gateway GatewayReading.

Lemma hexToBytes_inr hex bytes :
  Hex.hexToBytes hex = inr bytes →
  (String.length hex mod 2 = 0)%nat
  ∧ length bytes = (String.length hex / 2)%nat.
Proof.
  unfold Hex.hexToBytes.
  destruct (Nat.eqb_spec (String.length hex mod 2) 0) as [He|Ho];
    cbn [negb]; [|done].
  intros [= <-]. split; [exact He|]. by rewrite length_fmap, length_seq.
Qed.

Lemma truthy_str_Some s :
  Truthy.str s = true → ∃ text, s = Some text ∧ text ≠ "".
Proof.
  destruct s as [text|]; [|done]. cbn. intros H. exists text. split; [done|].
  intros ->. done.
Qed.

Section WithCrypto.
Context `{crypto : Crypto}.

(** X28: a signature is accepted only through the library, on decoded
    bytes.  When [verifyDiscordRequest] answers [true], the signature
    and the public key have an even number of code units, they decode
    to half as many bytes each, and the library has accepted these
    bytes for the encoded text of the timestamp followed by the body.
    So a signature or a key of odd length is never accepted, and
    neither is one on which the library throws. *)
Theorem verifyDiscordRequest_accepts signature timestamp body publicKey :
  verifyDiscordRequest signature timestamp body publicKey = true →
  ∃ signatureBytes publicKeyBytes,
    Hex.hexToBytes signature = inr signatureBytes
    ∧ Hex.hexToBytes publicKey = inr publicKeyBytes
    ∧ (String.length signature mod 2 = 0)%nat
    ∧ (String.length publicKey mod 2 = 0)%nat
    ∧ length signatureBytes = (String.length signature / 2)%nat
    ∧ length publicKeyBytes = (String.length publicKey / 2)%nat
    ∧ nacl_verify (encode (timestamp +:+ body)) signatureBytes publicKeyBytes
      = inr true.
Proof.
  unfold verifyDiscordRequest.
  destruct (Hex.hexToBytes signature) as [e|sb] eqn:Hs; [done|].
  destruct (Hex.hexToBytes publicKey) as [e|pb] eqn:Hp; [done|].
  destruct (nacl_verify _ sb pb) as [e|verdict] eqn:Hv; [done|].
  intros ->. exists sb, pb.
  destruct (hexToBytes_inr _ _ Hs) as [Hs2 Hsl].
  destruct (hexToBytes_inr _ _ Hp) as [Hp2 Hpl].
  repeat split; done.
Qed.

Lemma dispatch_called interaction o g :
  dispatch interaction = inr o → called_for o = Some g →
  g = Js.get "guild_id" interaction
  ∧ Js.truthy g = true
  ∧ Js.truthy (Js.get "channel_id" interaction) = true
  ∧ is_num "2" (Js.get "type" interaction) = true
  ∧ is_str "feed" (get_opt "name" (Js.get "data" interaction)) = true.
Proof.
  unfold dispatch.
  destruct (Js.nullish interaction); [done|].
  destruct (is_num "1" _); [by intros [= <-]|].
  destruct (is_num "2" _) eqn:Htype; cbn [negb orb]; [|by intros [= <-]].
  destruct (is_str "feed" _) eqn:Hname; cbn [negb orb]; [|by intros [= <-]].
  destruct (Js.truthy (Js.get "guild_id" interaction)) eqn:Hg; cbn [negb orb];
    [|by intros [= <-]].
  destruct (Js.truthy (Js.get "channel_id" interaction)) eqn:Hc; cbn [negb orb];
    [|by intros [= <-]].
  destruct (is_str "subscribe" _); [by intros [= <-] [= <-]|].
  destruct (is_str "list" _); [by intros [= <-] [= <-]|].
  destruct (is_str "unsubscribe" _); [by intros [= <-] [= <-]|].
  by intros [= <-].
Qed.

(** X29: nothing but a refusal without an authentic request.  [fetch]
    answers a request with a plain response of status 404, 400 or 401,
    or else the request is a POST to the interactions path whose
    signature headers pass the check under the public key and whose
    body parses, and the result is the one the interaction in the body
    determines.  A handler is called only for an interaction of type 2
    named feed, for the guild id of the interaction, and that id and
    the channel id are truthy. *)
Theorem fetch_guard publicKey request r :
  fetch publicKey request = r →
  match r with
  | inr (Plain _ status) => (status = 404 ∨ status = 400 ∨ status = 401)%N
  | _ =>
      authentic publicKey request
      ∧ ∃ interaction,
          JSON_parse (bodyText request) = Some interaction
          ∧ dispatch interaction = r
          ∧ ∀ o g, r = inr o → called_for o = Some g →
              g = Js.get "guild_id" interaction
              ∧ Js.truthy g = true
              ∧ Js.truthy (Js.get "channel_id" interaction) = true
              ∧ is_num "2" (Js.get "type" interaction) = true
              ∧ is_str "feed" (get_opt "name" (Js.get "data" interaction))
                = true
  end.
Proof.
  unfold fetch.
  destruct (String.eqb_spec (method request) "POST") as [Hm|Hm];
    cbn [negb orb]; [|intros <-; by left].
  destruct (String.eqb_spec (pathname request) "/interactions") as [Hp|Hp];
    cbn [negb orb]; [|intros <-; by left].
  destruct (Truthy.str (signature_header request)) eqn:Hs; cbn [negb orb];
    [|intros <-; right; by left].
  destruct (Truthy.str (timestamp_header request)) eqn:Ht; cbn [negb orb];
    [|intros <-; right; by left].
  apply truthy_str_Some in Hs as (signature & Hs & Hsne).
  apply truthy_str_Some in Ht as (timestamp & Ht & Htne).
  rewrite Hs, Ht.
  change (default "" (Some signature)) with signature.
  change (default "" (Some timestamp)) with timestamp.
  destruct (verifyDiscordRequest signature timestamp (bodyText request)
              publicKey) eqn:Hv; cbn [negb];
    [|intros <-; right; by right].
  destruct (JSON_parse (bodyText request)) as [interaction|] eqn:Hj;
    [|intros <-; right; by left].
  intros Hr.
  assert (authentic publicKey request
          ∧ ∃ interaction0,
              Some interaction = Some interaction0
              ∧ dispatch interaction0 = r
              ∧ ∀ o g, r = inr o → called_for o = Some g →
                  g = Js.get "guild_id" interaction0
                  ∧ Js.truthy g = true
                  ∧ Js.truthy (Js.get "channel_id" interaction0) = true
                  ∧ is_num "2" (Js.get "type" interaction0) = true
                  ∧ is_str "feed" (get_opt "name" (Js.get "data" interaction0))
                    = true) as Hall.
  { split.
    - split; [done|]. split; [done|]. exists signature, timestamp.
      repeat split; done.
    - exists interaction. split; [done|]. split; [done|].
      intros o g -> Hcall. by apply (dispatch_called interaction o g). }
  destruct r as [e|[body status| | | | |]]; try exact Hall.
  exfalso. clear Hall. revert Hr. unfold dispatch.
  destruct (Js.nullish interaction); [done|].
  destruct (is_num "1" _); [done|].
  destruct (negb _ || negb _); [done|].
  destruct (negb _ || negb _); [done|].
  destruct (is_str "subscribe" _); [done|].
  destruct (is_str "list" _); [done|].
  by destruct (is_str "unsubscribe" _).
Qed.
End WithCrypto.
End GatewayFacts.

(** ** The handlers and the entry point on the sample platform *)

Module HandlerWitness.
Import Kv Index Cycle Handlers.

Lemma handleUnsubscribe_effect_witness :
  ∃ s', @Worker.handleUnsubscribe Sample2.desk "g1"
          (Sample2.one_option "subscribed_id" "a") Sample2.at_listed
        = (inr (Unsubscribed (Sample.sub "g1" "a")), s')
        ∧ get_sub (kv s') (subscriptionKey "g1" "a") = None
        ∧ "a" ∉ index_ids (kv s') "g1".
Proof.
  eexists.
  assert (@Worker.handleUnsubscribe Sample2.desk "g1"
            (Sample2.one_option "subscribed_id" "a") Sample2.at_listed
          = (inr (Unsubscribed (Sample.sub "g1" "a")),
             (@Worker.handleUnsubscribe Sample2.desk "g1"
                (Sample2.one_option "subscribed_id" "a") Sample2.at_listed).2))
    as Hrun by (vm_compute; reflexivity).
  split; [exact Hrun|].
  destruct (@HandlerFacts.handleUnsubscribe_effect Sample2.desk _ _ _ _ _ Hrun)
    as (idValue & Hopt & _ & _ & Hgone & Hout & _).
  injection Hopt as <-.
  split; [exact Hgone|]. exact (Hout "a" eq_refl).
Defined.

Lemma handleSubscribe_turned_down_witness :
  ∃ s', @handleSubscribe Sample2.desk "g1" "c1"
          (Sample2.one_option "url" "https://example.com/feed.xml")
          Sample2.at_desk
        = (inr (AlreadySubscribed "c1" (Sample.sub "g1" "a")), s')
        ∧ net s' = net Sample2.at_desk.
Proof.
  eexists.
  assert (@handleSubscribe Sample2.desk "g1" "c1"
            (Sample2.one_option "url" "https://example.com/feed.xml")
            Sample2.at_desk
          = (inr (AlreadySubscribed "c1" (Sample.sub "g1" "a")),
             (@handleSubscribe Sample2.desk "g1" "c1"
                (Sample2.one_option "url" "https://example.com/feed.xml")
                Sample2.at_desk).2))
    as Hrun by (vm_compute; reflexivity).
  split; [exact Hrun|].
  destruct (@HandlerFacts.handleSubscribe_turned_down Sample2.desk _ _ _ _ _ _ Hrun)
    as (_ & _ & _ & Hnet & _).
  exact Hnet.
Defined.

Lemma subscribed_on_desk :
  @handleSubscribe Sample2.desk "g1" "c2"
    (Sample2.one_option "url" "https://example.com/news.xml") Sample2.at_desk
  = (inr (Subscribed "c2" Sample2.created), Sample2.after_subscribe).
Proof. vm_compute. reflexivity. Defined.

Lemma handleSubscribe_creates_witness :
  @handleSubscribe Sample2.desk "g1" "c2"
    (Sample2.one_option "url" "https://example.com/news.xml") Sample2.at_desk
  = (inr (Subscribed "c2" Sample2.created), Sample2.after_subscribe)
  ∧ get_sub (kv Sample2.after_subscribe) (subscriptionKey "g1" "01HSAMPLE")
    = Some Sample2.created
  ∧ "01HSAMPLE" ∈ index_ids (kv Sample2.after_subscribe) "g1".
Proof.
  split; [exact subscribed_on_desk|].
  destruct (@HandlerFacts.handleSubscribe_creates Sample2.desk _ _ _ _ _ _ _
              subscribed_on_desk)
    as (_ & _ & _ & _ & _ & _ & _ & Hstored & Hin & _).
  split; [exact Hstored|exact Hin].
Defined.

Lemma subscribe_then_unsubscribe_witness :
  Subscription.id Sample2.created ≠ ""
  ∧ ∃ s2, @handleUnsubscribe Sample2.desk "g1"
            (Sample2.one_option "subscribed_id" "01HSAMPLE")
            Sample2.after_subscribe
          = (inr (Unsubscribed Sample2.created), s2)
          ∧ index_ids (kv s2) "g1" = ["a"; "b"].
Proof.
  assert (Subscription.id Sample2.created ≠ "") as Hid by discriminate.
  split; [exact Hid|].
  destruct (@HandlerFacts.subscribe_then_unsubscribe Sample2.desk _ _ _
              (Sample2.one_option "subscribed_id" "01HSAMPLE") _ _ _ _
              subscribed_on_desk Hid eq_refl)
    as (s2 & Hrun & _ & _ & Hindex & _).
  exists s2. split; [exact Hrun|]. rewrite Hindex. vm_compute. reflexivity.
Defined.

Lemma handleList_reads_only_witness :
  ∃ embeds s', @Worker.handleList Sample2.desk "g1" Sample2.at_listed
               = (inr (Listing embeds), s')
               ∧ embeds ≠ [] ∧ net s' = 0%nat.
Proof.
  eexists. eexists.
  assert (@Worker.handleList Sample2.desk "g1" Sample2.at_listed
          = (inr (Listing (Embeds.buildListEmbeds
                             [Sample.sub "g1" "a"; Sample.sub "g1" "b"])),
             (@Worker.handleList Sample2.desk "g1" Sample2.at_listed).2))
    as Hrun by (vm_compute; reflexivity).
  split; [exact Hrun|].
  destruct (@HandlerFacts.handleList_reads_only Sample2.desk _ _ _ _ Hrun)
    as (Hnet & _ & subscriptions & _ & _ & Hne & _).
  split; [exact Hne|exact Hnet].
Defined.

Lemma handleSubscribe_needs_feed_witness :
  ∃ response w feed,
    @fetch_probe Sample2.desk "https://example.com/news.xml" 0%nat
    = (Answered response, w)
    ∧ @parseFeed Sample2.online (text response) = inr feed
    ∧ Subscription.feedTitle Sample2.created
      = normalizeFeedTitle (Normalize.feed_title feed).
Proof.
  destruct (@HandlerFacts.handleSubscribe_needs_feed Sample2.desk _ _ _ _ _ _ _
              subscribed_on_desk)
    as (response & w & feed & Hf & _ & Hp & _ & Ht).
  exists response, w, feed. split; [exact Hf|]. split; [exact Hp|exact Ht].
Defined.

Lemma verifyDiscordRequest_accepts_witness :
  @Gateway.verifyDiscordRequest Sample2.notary "0102" "1704240000"
    "the body of a list command" "AB" = true
  ∧ ∃ signatureBytes publicKeyBytes,
      Hex.hexToBytes "0102" = inr signatureBytes
      ∧ Hex.hexToBytes "AB" = inr publicKeyBytes
      ∧ length signatureBytes = 2%nat
      ∧ length publicKeyBytes = 1%nat.
Proof.
  assert (@Gateway.verifyDiscordRequest Sample2.notary "0102" "1704240000"
            "the body of a list command" "AB" = true) as Hv
    by (vm_compute; reflexivity).
  split; [exact Hv|].
  destruct (@GatewayFacts.verifyDiscordRequest_accepts Sample2.notary _ _ _ _ Hv)
    as (sb & pb & Hs & Hp & _ & _ & Hsl & Hpl & _).
  exists sb, pb. split; [exact Hs|]. split; [exact Hp|].
  split; [exact Hsl|exact Hpl].
Defined.

Lemma fetch_guard_witness :
  @Gateway.fetch Sample2.notary "AB" Sample2.signed_request
  = inr (Gateway.CallList (Js.Str "g1"))
  ∧ @GatewayReading.authentic Sample2.notary "AB" Sample2.signed_request.
Proof.
  assert (@Gateway.fetch Sample2.notary "AB" Sample2.signed_request
          = inr (Gateway.CallList (Js.Str "g1"))) as Hrun
    by (vm_compute; reflexivity).
  split; [exact Hrun|].
  exact (proj1 (@GatewayFacts.fetch_guard Sample2.notary _ _ _ Hrun)).
Defined.
End HandlerWitness.
